(** * bitgo-cli: split-key custody and cross-chain recovery

    A shallow embedding of the two parts of the command-line tool that
    handle key material and raw transactions outside the hosted wallet
    flow:

    - [src/recovery.js]: [CrossChainRecoveryTool] (the constructor,
      [setWallet], [findUnspents], [buildInputs], [setFees],
      [buildOutputs], [signTransaction], [getKeys], [buildTransaction]);
    - [src/bgcl.js]: [UserInput] ([prompt], [promptPassword],
      [getVariable], [getIntVariable], [getPassword]),
      [Session.labelForAddress], [genKey], [genSplitKey],
      [handleSplitKeys], [handleRecoverKeys] and the start of the
      cross-chain recovery commands.

    JavaScript numbers are modelled by [Z]: every quantity below is an
    integer amount of satoshis, a byte count or an index, far below 2^53.
    JavaScript strings are modelled by [string], holding the UTF-8
    encoding of the text (a lone byte is read as the character of that
    code).
    Third-party libraries (sjcl, secrets.js, bitcoinjs, lodash) are not
    part of the repository; what the code needs from them is taken as
    type classes, and an executable stand-in (module [Reference]) runs
    the model on concrete inputs. *)

From Stdlib Require Import Ascii QArith Qround.
From stdpp Require Import base numbers option list strings pretty gmap sorting.

Local Open Scope Z_scope.

(** ** Outcomes of a JavaScript call *)

Inductive exn : Type :=
| Error (msg : string)
| TypeError (msg : string)
| LibError (origin : string).

Inductive outcome (A : Type) : Type :=
| Ok (a : A)
| Throw (e : exn).
Arguments Ok {A} a.
Arguments Throw {A} e.

Definition is_ok {A} (o : outcome A) : bool :=
  match o with Ok _ => true | Throw _ => false end.

(** ** The fragment of JavaScript the code relies on *)

Module JS.

(** Values held in the fields of a plain object filled from the command
    line and from the prompts: strings and numbers. A missing field is
    [undefined]. *)
Inductive value : Type :=
| VStr (s : string)
| VNum (z : Z).

(** ToBoolean: the empty string, [0] and [undefined] are falsy. *)
Definition truthy (v : option value) : bool :=
  match v with
  | None => false
  | Some (VStr s) => negb (String.eqb s "")
  | Some (VNum z) => negb (z =? 0)
  end.

Definition truthy_str (s : option string) : bool :=
  match s with
  | None => false
  | Some s => negb (String.eqb s "")
  end.

(** [a || b] on optional numbers: [undefined] and [0] select [b]. *)
Definition or_num (a : option Z) (b : Z) : Z :=
  match a with
  | Some v => if v =? 0 then b else v
  | None => b
  end.

(** A string is held as bytes. A character is the sequence of bytes of
    its UTF-8 encoding; a byte that is part of no well-formed sequence
    stands for the character of that code. [chars] cuts a string into
    its characters, each with its code point. *)
Definition is_cont (a : ascii) : bool :=
  ((128 <=? N_of_ascii a) && (N_of_ascii a <=? 191))%N.

Definition code2 (a b : ascii) : N :=
  ((N_of_ascii a - 192) * 64 + (N_of_ascii b - 128))%N.

Definition code3 (a b c : ascii) : N :=
  ((N_of_ascii a - 224) * 4096 + (N_of_ascii b - 128) * 64 + (N_of_ascii c - 128))%N.

Definition code4 (a b c d : ascii) : N :=
  ((N_of_ascii a - 240) * 262144 + (N_of_ascii b - 128) * 4096
   + (N_of_ascii c - 128) * 64 + (N_of_ascii d - 128))%N.

Definition is_seq2 (a b : ascii) : bool :=
  ((194 <=? N_of_ascii a) && (N_of_ascii a <=? 223))%N && is_cont b.

Definition is_seq3 (a b c : ascii) : bool :=
  ((224 <=? N_of_ascii a) && (N_of_ascii a <=? 239))%N && is_cont b && is_cont c
  && (2048 <=? code3 a b c)%N.

Definition is_seq4 (a b c d : ascii) : bool :=
  ((240 <=? N_of_ascii a) && (N_of_ascii a <=? 244))%N
  && is_cont b && is_cont c && is_cont d
  && ((65536 <=? code4 a b c d) && (code4 a b c d <=? 1114111))%N.

Fixpoint chars (s : string) : list (N * string) :=
  match s with
  | EmptyString => []
  | String a r1 =>
      match r1 with
      | String b r2 =>
          if is_seq2 a b then (code2 a b, String a (String b EmptyString)) :: chars r2
          else
            match r2 with
            | String c r3 =>
                if is_seq3 a b c
                then (code3 a b c, String a (String b (String c EmptyString))) :: chars r3
                else
                  match r3 with
                  | String d r4 =>
                      if is_seq4 a b c d
                      then (code4 a b c d,
                            String a (String b (String c (String d EmptyString))))
                           :: chars r4
                      else (N_of_ascii a, String a EmptyString) :: chars r1
                  | EmptyString => (N_of_ascii a, String a EmptyString) :: chars r1
                  end
            | EmptyString => (N_of_ascii a, String a EmptyString) :: chars r1
            end
      | EmptyString => [(N_of_ascii a, String a EmptyString)]
      end
  end.

(** The bytes of a list of characters. *)
Definition bytes (l : list (N * string)) : string :=
  foldr (fun ch acc => snd ch +:+ acc) EmptyString l.

(** The white space that [String.prototype.trim], [parseInt] and
    ToNumber strip is WhiteSpace and LineTerminator of ECMAScript: TAB,
    LF, VT, FF, CR, SP, U+00A0, U+1680, U+2000 to U+200A, U+2028,
    U+2029, U+202F, U+205F, U+3000 and U+FEFF. (U+180E left the class
    of space separators with Unicode 6.3 and is not white space since
    ECMAScript 2016.) *)
Definition is_white (c : N) : bool :=
  (((9 <=? c) && (c <=? 13)) || (c =? 32) || (c =? 160) || (c =? 5760)
   || ((8192 <=? c) && (c <=? 8202)) || (c =? 8232) || (c =? 8233)
   || (c =? 8239) || (c =? 8287) || (c =? 12288) || (c =? 65279))%N.

Fixpoint drop_white (l : list (N * string)) : list (N * string) :=
  match l with
  | ch :: rest => if is_white (fst ch) then drop_white rest else l
  | [] => []
  end.

(** The string without the white space it starts with. *)
Definition ltrim (s : string) : string := bytes (drop_white (chars s)).

(** [String.prototype.trim] *)
Definition trim (s : string) : string :=
  bytes (rev (drop_white (rev (drop_white (chars s))))).

Definition digit_of (a : ascii) : option Z :=
  let n := nat_of_ascii a in
  if (Nat.leb 48 n && Nat.leb n 57)%bool then Some (Z.of_nat (n - 48)) else None.

(** The longest prefix of decimal digits, read left to right. *)
Fixpoint digits (s : string) (acc : option Z) : option Z :=
  match s with
  | String a rest =>
      match digit_of a with
      | Some d => digits rest (Some (10 * default 0 acc + d))
      | None => acc
      end
  | EmptyString => acc
  end.

(** [parseInt(s, 10)]: leading white space, an optional sign, then
    digits; [None] is [NaN]. *)
Definition parseInt (s : string) : option Z :=
  match ltrim s with
  | String "-"%char rest => Z.opp <$> digits rest None
  | String "+"%char rest => digits rest None
  | t => digits t None
  end.

(** [s.split(sep)] for a one-character separator. *)
Fixpoint split_on (sep : ascii) (s : string) : list string :=
  match s with
  | EmptyString => [EmptyString]
  | String a rest =>
      if Ascii.eqb a sep then EmptyString :: split_on sep rest
      else match split_on sep rest with
           | hd :: tl => String a hd :: tl
           | [] => [String a EmptyString]
           end
  end.

(** A JavaScript number: [NaN], a finite value or an infinity. *)
Inductive num : Type :=
| NaN
| Finite (q : Q)
| PosInf
| NegInf.

(** ToNumber on strings is part of the language, not of the program; it
    is a parameter of the model. *)
Class Coercion : Type := {
  toNumber : string -> num
}.

(** [v == x] for a number [v] that is an integer and any value [x]:
    numbers compare by value, a string is converted first, [undefined]
    equals no number. *)
Definition loose_eq_int {K : Coercion} (v : Z) (x : option value) : bool :=
  match x with
  | Some (VNum z) => v =? z
  | Some (VStr s) =>
      match toNumber s with
      | Finite q => Qeq_bool q (inject_Z v)
      | _ => false
      end
  | None => false
  end.

(** [parseInt(x, 10)] on a field: a number is printed and read back, a
    missing field gives [NaN]. *)
Definition parseInt_value (x : option value) : option Z :=
  match x with
  | Some (VStr s) => parseInt s
  | Some (VNum z) => Some z
  | None => None
  end.

End JS.

(** ** [src/recovery.js]: the cross-chain recovery tool *)

Module Recovery.

(** The coin types [this.bitgo.coin(...)] is asked for by
    [_setCoinInstances]: the part of a supported coin name before the
    dash, prefixed by [t] on testnet. *)
Inductive coin : Type := btc | bch | tbtc | tbch.

(** [===] on coin types *)
Definition coin_eqb (a b : coin) : bool :=
  match a, b with
  | btc, btc | bch, bch | tbtc, tbtc | tbch, tbch => true
  | _, _ => false
  end.

Definition supportedCoins : list string := ["btc"; "bch"; "btc-segwit"]%string.

Definition coin_instance (test : bool) (name : string) : option coin :=
  if String.eqb name "btc" then Some (if test then tbtc else btc)
  else if String.eqb name "bch" then Some (if test then tbch else bch)
  else None.

(** [this.feeRates] *)
Definition feeRates (c : coin) : Z :=
  match c with
  | bch => 20
  | tbch => 20
  | btc => 80
  | tbtc => 80
  end.

Definition P2SH_INPUT_SIZE : Z := 295.
Definition OUTPUT_SIZE : Z := 34.
Definition TX_OVERHEAD_SIZE : Z := 10.

Record Wallet : Type := {
  w_id : string;
  w_isV1 : bool
}.

Record AddressRecord : Type := {
  a_address : string;
  a_chain : Z;
  a_index : Z;
  a_redeemScript : option string;
  a_witnessScript : option string
}.

Record Unspent : Type := {
  u_id : string;
  u_address : string;
  u_value : Z;
  u_witnessScript : option string;
  u_tx : string;
  u_nOut : Z
}.

(** [inputData], in its two shapes. *)
Inductive InputData : Type :=
| V1Data (redeemScript witnessScript : option string) (path chainPath : string)
         (txHash : string) (txOutputN txValue value : Z)
| V2Data (redeemScript witnessScript : option string) (index chain : Z)
         (wallet fromWallet : string).

(** [Object.assign({}, unspent, inputData)] *)
Record TxInput : Type := {
  in_unspent : Unspent;
  in_data : InputData
}.

Record OutputData : Type := {
  o_address : string;
  o_value : Z;
  o_valueString : string;
  o_wallet : string;
  o_change : bool
}.

Record TxInfo : Type := {
  inputAmount : Z;
  outputAmount : Z;
  spendAmount : Z;
  inputs : list TxInput;
  outputs : list OutputData;
  externalOutputs : list OutputData;
  changeOutputs : list OutputData;
  minerFee : Z;
  payGoFee : Z;
  ti_unspents : option (list TxInput)
}.

(** An outpoint handed to [TransactionBuilder.addInput]. *)
Record TxIn : Type := {
  prev_hash : string;
  prev_index : option Z
}.

(** [this.recoveryTx]: what the code reads back from the builder is
    [tx.ins.length]. *)
Record TransactionBuilder : Type := {
  ins : list TxIn;
  outs : list (string * Z)
}.

(** Whether the bitcoin library accepts an input or an output; it throws
    otherwise. *)
Class TxLibrary : Type := {
  addInput_ok : list TxIn -> TxIn -> bool;
  addOutput_ok : string -> Z -> bool
}.

Record Tool : Type := {
  sourceCoin : coin;
  recoveryCoin : coin;
  wallets_source : option Wallet;
  wallets_dest : option Wallet;
  addresses_source : option (list AddressRecord);
  addresses_dest : option (list AddressRecord);
  unspents : option (list Unspent);
  recoveryTx : TransactionBuilder;
  txInfo : option TxInfo
}.

Definition set_recoveryTx (t : Tool) (b : TransactionBuilder) : Tool :=
  {| sourceCoin := sourceCoin t; recoveryCoin := recoveryCoin t;
     wallets_source := wallets_source t; wallets_dest := wallets_dest t;
     addresses_source := addresses_source t; addresses_dest := addresses_dest t;
     unspents := unspents t; recoveryTx := b; txInfo := txInfo t |}.

Definition set_txInfo (t : Tool) (ti : option TxInfo) : Tool :=
  {| sourceCoin := sourceCoin t; recoveryCoin := recoveryCoin t;
     wallets_source := wallets_source t; wallets_dest := wallets_dest t;
     addresses_source := addresses_source t; addresses_dest := addresses_dest t;
     unspents := unspents t; recoveryTx := recoveryTx t; txInfo := ti |}.

Definition set_unspents (t : Tool) (us : option (list Unspent)) : Tool :=
  {| sourceCoin := sourceCoin t; recoveryCoin := recoveryCoin t;
     wallets_source := wallets_source t; wallets_dest := wallets_dest t;
     addresses_source := addresses_source t; addresses_dest := addresses_dest t;
     unspents := us; recoveryTx := recoveryTx t; txInfo := txInfo t |}.

(** The constructor, after [Object.assign(this, opts)]: both coin names
    are checked against [supportedCoins], then [_setCoinInstances]
    drops the modifier after the dash. *)
Definition CrossChainRecoveryTool (sourceCoinOpt recoveryType : string) (test : bool)
  : outcome Tool :=
  if negb (bool_decide (sourceCoinOpt ∈ supportedCoins)) then
    Throw (Error "Please set a valid source coin")
  else if negb (bool_decide (recoveryType ∈ supportedCoins)) then
    Throw (Error "Please set a valid recovery type")
  else
    match coin_instance test (default ""%string (head (JS.split_on "-" sourceCoinOpt))),
          coin_instance test (default ""%string (head (JS.split_on "-" recoveryType))) with
    | Some s, Some r =>
        Ok {| sourceCoin := s; recoveryCoin := r;
              wallets_source := None; wallets_dest := None;
              addresses_source := None; addresses_dest := None;
              unspents := None;
              recoveryTx := {| ins := []; outs := [] |};
              txInfo := None |}
    | _, _ => Throw (Error "unsupported coin")
    end.

(** [setWallet] once the wallet and its address list have been fetched. *)
Definition setWallet (t : Tool) (coinType : coin) (w : Wallet)
    (addrs : list AddressRecord) : Tool :=
  let t1 :=
    if coin_eqb (sourceCoin t) coinType then
      {| sourceCoin := sourceCoin t; recoveryCoin := recoveryCoin t;
         wallets_source := Some w; wallets_dest := wallets_dest t;
         addresses_source := Some addrs; addresses_dest := addresses_dest t;
         unspents := unspents t; recoveryTx := recoveryTx t; txInfo := txInfo t |}
    else t in
  if coin_eqb (recoveryCoin t1) coinType then
    {| sourceCoin := sourceCoin t1; recoveryCoin := recoveryCoin t1;
       wallets_source := wallets_source t1; wallets_dest := Some w;
       addresses_source := addresses_source t1; addresses_dest := Some addrs;
       unspents := unspents t1; recoveryTx := recoveryTx t1; txInfo := txInfo t1 |}
  else t1.

(** What a call of [buildInputs] hands back: the [txInfo] it built, or
    [undefined] when the loop is left by its bare [return]. *)
Inductive loop_exit : Type :=
| Finished (ti : TxInfo) (totalFound : Z)
| Returned.

Definition empty_txInfo : TxInfo :=
  {| inputAmount := 0; outputAmount := 0; spendAmount := 0;
     inputs := []; outputs := []; externalOutputs := []; changeOutputs := [];
     minerFee := 0; payGoFee := 0; ti_unspents := None |}.

(** [unspent.id.split(':')] and [parseInt(index, 10)] *)
Definition outpoint (id : string) : TxIn :=
  match JS.split_on ":" id with
  | txHash :: index :: _ => {| prev_hash := txHash; prev_index := JS.parseInt index |}
  | txHash :: [] => {| prev_hash := txHash; prev_index := None |}
  | [] => {| prev_hash := ""; prev_index := None |}
  end.

Definition inputData_of (w : Wallet) (a : AddressRecord) (u : Unspent) : InputData :=
  if w_isV1 w then
    let path := ("/" +:+ pretty (a_chain a) +:+ "/" +:+ pretty (a_index a))%string in
    V1Data (a_redeemScript a) (a_witnessScript a) ("/0/0" +:+ path) path
           (u_tx u) (u_nOut u) (u_value u) (u_value u)
  else
    V2Data (a_redeemScript a) (a_witnessScript a) (a_index a) (a_chain a)
           (w_id w) (w_id w).

Definition push_input (ti : TxInfo) (i : TxInput) (v : Z) : TxInfo :=
  {| inputAmount := inputAmount ti + v; outputAmount := outputAmount ti;
     spendAmount := spendAmount ti;
     inputs := inputs ti ++ [i]; outputs := outputs ti;
     externalOutputs := externalOutputs ti; changeOutputs := changeOutputs ti;
     minerFee := minerFee ti; payGoFee := payGoFee ti;
     ti_unspents := ti_unspents ti |}.

Section WithLibrary.
Context {L : TxLibrary}.

(** The [for (const unspent of unspents)] loop of [buildInputs]. The
    builder is the only part of [this] the loop changes. *)
Fixpoint buildInputs_loop (noSegwit : bool) (dest : option (list AddressRecord))
    (wdest : option Wallet) (us : list Unspent)
    (b : TransactionBuilder) (ti : TxInfo) (totalFound : Z)
  : TransactionBuilder * outcome loop_exit :=
  match us with
  | [] => (b, Ok (Finished ti totalFound))
  | unspent :: rest =>
      if (JS.truthy_str (u_witnessScript unspent) && noSegwit)%bool then
        (b, Throw (Error "Warning! It appears one of the unspents is on a Segwit address. The tool only recovers BCH from non-Segwit BTC addresses. Aborting."))
      else
        match dest with
        | None => (b, Throw (TypeError "Cannot read property 'find' of null"))
        | Some addrs =>
            match List.find (fun a => String.eqb (a_address a) (u_address unspent)) addrs with
            | None =>
                (* This sometimes happens when a wallet has a lot of
                   receive addresses: [return;] *)
                (b, Ok Returned)
            | Some unspentAddress =>
                let i := outpoint (u_id unspent) in
                if negb (addInput_ok (ins b) i) then
                  (b, Throw (Error ("Error adding unspent " +:+ u_id unspent)))
                else
                  let b' := {| ins := ins b ++ [i]; outs := outs b |} in
                  match wdest with
                  | None => (b', Throw (TypeError "Cannot read property 'isV1' of null"))
                  | Some w =>
                      let input := {| in_unspent := unspent;
                                      in_data := inputData_of w unspentAddress unspent |} in
                      buildInputs_loop noSegwit dest wdest rest b'
                        (push_input ti input (u_value unspent))
                        (totalFound + u_value unspent)
                  end
            end
        end
  end.

Definition buildInputs (t : Tool) (arg : option (list Unspent))
  : Tool * outcome (option TxInfo) :=
  match (match arg with Some us => Some us | None => unspents t end) with
  | None =>
      (t, Throw (Error "Could not find unspents. Either supply an argument or call findUnspents"))
  | Some us =>
      let noSegwit :=
        (coin_eqb (recoveryCoin t) btc && coin_eqb (sourceCoin t) bch)%bool in
      match buildInputs_loop noSegwit (addresses_dest t) (wallets_dest t) us
              (recoveryTx t) empty_txInfo 0 with
      | (b, Throw e) => (set_recoveryTx t b, Throw e)
      | (b, Ok Returned) => (set_recoveryTx t b, Ok None)
      | (b, Ok (Finished ti _)) =>
          let ti' :=
            {| inputAmount := inputAmount ti; outputAmount := outputAmount ti;
               spendAmount := spendAmount ti;
               inputs := inputs ti; outputs := outputs ti;
               externalOutputs := externalOutputs ti; changeOutputs := changeOutputs ti;
               minerFee := minerFee ti; payGoFee := payGoFee ti;
               ti_unspents := Some (inputs ti) |} in
          (set_txInfo (set_recoveryTx t b) (Some ti'), Ok (Some ti'))
      end
  end.

(** [setFees()], called without an argument. *)
Definition setFees (t : Tool) : Tool * outcome Z :=
  let feeRate := feeRates (sourceCoin t) in
  let txSize :=
    P2SH_INPUT_SIZE * Z.of_nat (length (ins (recoveryTx t)))
    + OUTPUT_SIZE + TX_OVERHEAD_SIZE in
  let recoveryFee := feeRate * txSize in
  match txInfo t with
  | None => (t, Throw (TypeError "Cannot set property 'minerFee' of undefined"))
  | Some ti =>
      let ti' :=
        {| inputAmount := inputAmount ti; outputAmount := outputAmount ti;
           spendAmount := spendAmount ti;
           inputs := inputs ti; outputs := outputs ti;
           externalOutputs := externalOutputs ti; changeOutputs := changeOutputs ti;
           minerFee := recoveryFee; payGoFee := payGoFee ti;
           ti_unspents := ti_unspents ti |} in
      (set_txInfo t (Some ti'), Ok recoveryFee)
  end.

Definition buildOutputs (t : Tool) (recoveryAddress : string)
    (outputAmountArg recoveryFee : option Z) : Tool * outcome unit :=
  match txInfo t with
  | None =>
      if negb (JS.truthy (JS.VNum <$> outputAmountArg)) then
        (t, Throw (Error "Could not find transaction info. Please provide an output amount, or call buildInputs."))
      else
        (t, Throw (TypeError "Cannot set property 'outputAmount' of undefined"))
  | Some ti =>
      let amount :=
        JS.or_num outputAmountArg
          (inputAmount ti - JS.or_num recoveryFee (minerFee ti)) in
      let ti1 :=
        {| inputAmount := inputAmount ti; outputAmount := amount;
           spendAmount := amount;
           inputs := inputs ti; outputs := outputs ti;
           externalOutputs := externalOutputs ti; changeOutputs := changeOutputs ti;
           minerFee := minerFee ti; payGoFee := payGoFee ti;
           ti_unspents := ti_unspents ti |} in
      let t1 := set_txInfo t (Some ti1) in
      if amount <=? 0 then
        (t1, Throw (Error "This recovery transaction cannot pay its own fees. Aborting."))
      else if negb (addOutput_ok recoveryAddress amount) then
        (t1, Throw (LibError "TransactionBuilder.addOutput"))
      else
        let b := {| ins := ins (recoveryTx t1);
                    outs := outs (recoveryTx t1) ++ [(recoveryAddress, amount)] |} in
        match wallets_source t1 with
        | None => (set_recoveryTx t1 b, Throw (TypeError "Cannot read property 'id' of null"))
        | Some ws =>
            let outputData :=
              {| o_address := recoveryAddress; o_value := amount;
                 o_valueString := pretty amount;
                 o_wallet := w_id ws; o_change := false |} in
            let ti2 :=
              {| inputAmount := inputAmount ti1; outputAmount := outputAmount ti1;
                 spendAmount := spendAmount ti1;
                 inputs := inputs ti1; outputs := outputs ti1 ++ [outputData];
                 externalOutputs := externalOutputs ti1 ++ [outputData];
                 changeOutputs := changeOutputs ti1;
                 minerFee := minerFee ti1; payGoFee := payGoFee ti1;
                 ti_unspents := ti_unspents ti1 |} in
            (set_txInfo (set_recoveryTx t1 b) (Some ti2), Ok tt)
        end
  end.

(** [buildTransaction]: the three awaited calls reach the network;
    their results (both wallets with their address lists, and the
    unspents found for the faulty transaction) are the arguments
    here. Then [buildInputs()], [setFees()],
    [buildOutputs(recoveryAddress)]. *)
Definition buildTransaction (t : Tool)
    (sourceWallet : Wallet) (sourceAddrs : list AddressRecord)
    (recoveryWallet : Wallet) (recoveryAddrs : list AddressRecord)
    (found : list Unspent) (recoveryAddress : string)
  : Tool * outcome TransactionBuilder :=
  let t := setWallet t (sourceCoin t) sourceWallet sourceAddrs in
  let t := setWallet t (recoveryCoin t) recoveryWallet recoveryAddrs in
  let t := set_unspents t (Some found) in
  match buildInputs t None with
  | (t, Throw e) => (t, Throw e)
  | (t, Ok _) =>
      match setFees t with
      | (t, Throw e) => (t, Throw e)
      | (t, Ok _) =>
          match buildOutputs t recoveryAddress None None with
          | (t, Throw e) => (t, Throw e)
          | (t, Ok _) => (t, Ok (recoveryTx t))
          end
      end
  end.

End WithLibrary.

End Recovery.

(** ** [src/bgcl.js]: prompts, split keys and their recovery *)

Module Bgcl.

(** What the code asks of sjcl, secrets.js and the HD key library. The
    entropy pools are one abstract state [Rng], threaded through every
    call that draws from them. A result of [None] stands for a thrown
    exception. *)
Class Crypto : Type := {
  Rng : Type;
  (** [crypto.randomBytes] fed into [sjcl.random] *)
  addEntropy : nat -> Rng -> Rng;
  (** [sjcl.random.addEntropy(userString, ...)] *)
  addUserEntropy : string -> Rng -> Rng;
  (** [sjcl.codec.hex.fromBits(sjcl.random.randomWords(n))] *)
  randomWords : nat -> Rng -> string * Rng;
  (** [HDNode.fromSeedHex(seed)]: the pair [(xpub, xprv)] *)
  fromSeedHex : string -> option (string * string);
  (** [secrets.share(secret, numShares, threshold)] *)
  secrets_share : string -> Z -> Z -> Rng -> option (list string * Rng);
  (** [secrets.combine(shares)] *)
  secrets_combine : list string -> option string;
  (** [bitgo.encrypt({ password, input })], that is [sjcl.encrypt] *)
  encrypt : string -> string -> Rng -> string * Rng;
  (** [sjcl.decrypt(password, ciphertext)] *)
  decrypt : string -> string -> option string
}.

Record Key : Type := {
  seed : string;
  key_xpub : string;
  key_xprv : string
}.

(** The result of [genSplitKey]. *)
Record SplitKey : Type := {
  sk_xpub : string;
  sk_m : option JS.value;
  sk_n : option JS.value;
  sk_seedShares : list string
}.

(** One record of the batch file. *)
Record SplitKeyRecord : Type := {
  index : Z;
  xpub : string;
  m : option JS.value;
  n : option JS.value;
  seedShares : list string
}.

(** One record of the recovery output; [xprv] is [undefined] in
    verify-only mode. *)
Record RecoveredKey : Type := {
  r_index : Z;
  r_xpub : string;
  r_xprv : option string
}.

Inductive File : Type :=
| KeysJson (keys : list SplitKeyRecord)
| Text (rows : list string).

(** The state a handler runs in: the fields of its [UserInput], the
    lines still to come on standard input, the entropy pools and the
    files on disk. *)
Record World {C : Crypto} : Type := {
  input : gmap string JS.value;
  stdin : list string;
  rng : Rng;
  files : gmap string File
}.

(** A handler step either finishes, throws, or waits for a line that
    never comes. *)
Inductive result (S A : Type) : Type :=
| Done (a : A) (s : S)
| Raise (e : exn)
| Blocked.
Arguments Done {S A} a s.
Arguments Raise {S A} e.
Arguments Blocked {S A}.

Definition M {C : Crypto} (A : Type) : Type := World -> result World A.

Global Instance M_ret {C : Crypto} : MRet M := fun A a w => Done a w.

Global Instance M_bind {C : Crypto} : MBind M := fun A B f c w =>
  match c w with
  | Done a w' => f a w'
  | Raise e => Raise e
  | Blocked => Blocked
  end.

Section WithCrypto.
Context {C : Crypto} {K : JS.Coercion}.

Definition throw {A} (e : exn) : M A := fun _ => Raise e.

Definition get_field (name : string) : M (option JS.value) :=
  fun w => Done (input w !! name) w.

Definition set_field (name : string) (v : JS.value) : M unit :=
  fun w => Done tt {| input := <[name := v]> (input w); stdin := stdin w;
                      rng := rng w; files := files w |}.

Definition delete_field (name : string) : M unit :=
  fun w => Done tt {| input := delete name (input w); stdin := stdin w;
                      rng := rng w; files := files w |}.

Definition set_stdin (w : World) (rest : list string) : World :=
  {| input := input w; stdin := rest; rng := rng w; files := files w |}.

Definition set_rng (w : World) (r : Rng) : World :=
  {| input := input w; stdin := stdin w; rng := r; files := files w |}.

Definition write_file (name : string) (f : File) : M unit :=
  fun w => Done tt {| input := input w; stdin := stdin w; rng := rng w;
                      files := <[name := f]> (files w) |}.

(** Run a step that only draws on the entropy pools. *)
Definition with_rng {A} (f : Rng -> outcome (A * Rng)) : M A :=
  fun w =>
    match f (rng w) with
    | Ok (a, r) => Done a (set_rng w r)
    | Throw e => Raise e
    end.

(** *** [UserInput] *)

(** [prompt(question, required)]: lines are trimmed; an empty line is
    asked again when an answer is required. *)
Fixpoint read_line (required : bool) (lines : list string)
  : option (string * list string) :=
  match lines with
  | [] => None
  | line :: rest =>
      let line := JS.trim line in
      if (negb (String.eqb line "") || negb required)%bool then Some (line, rest)
      else read_line required rest
  end.

Definition prompt (required : bool) : M string :=
  fun w =>
    match read_line required (stdin w) with
    | Some (line, rest) => Done line (set_stdin w rest)
    | None => Blocked
    end.

(** [promptPassword(question, allowBlank)]: the entry is taken as
    typed; a blank one is asked again unless allowed. *)
Fixpoint read_password (allowBlank : bool) (lines : list string)
  : option (string * list string) :=
  match lines with
  | [] => None
  | password :: rest =>
      if (negb (String.eqb password "") || allowBlank)%bool then Some (password, rest)
      else read_password false rest
  end.

Definition promptPassword (allowBlank : bool) : M string :=
  fun w =>
    match read_password allowBlank (stdin w) with
    | Some (password, rest) => Done password (set_stdin w rest)
    | None => Blocked
    end.

Definition getVariable (name : string) (required : bool)
    (defaultValue : option JS.value) : M unit :=
  cur ← get_field name;
  if JS.truthy cur then mret tt
  else
    value ← (if (String.eqb name "password" || String.eqb name "passcode")%bool
             then promptPassword false
             else prompt required);
    let value :=
      if (negb (JS.truthy (Some (JS.VStr value))) && JS.truthy defaultValue)%bool
      then default (JS.VStr value) defaultValue
      else JS.VStr value in
    set_field name value.

(** [getPassword(name, question, confirm)]; each round reads at least
    one entry, so the entries left bound the number of rounds. *)
Fixpoint getPassword_rounds (fuel : nat) (name : string) (confirm : bool) : M unit :=
  match fuel with
  | O => fun _ => Blocked
  | S fuel =>
      cur ← get_field name;
      if JS.truthy cur then mret tt
      else
        password ← promptPassword false;
        confirmation ← (if confirm then c ← promptPassword true; mret (Some c) else mret None);
        if (confirm && negb (bool_decide (confirmation = Some password)))%bool
        then getPassword_rounds fuel name confirm
        else set_field name (JS.VStr password)
  end.

Definition getPassword (name : string) (confirm : bool) : M unit :=
  fun w => getPassword_rounds (S (length (stdin w))) name confirm w.

(** The three checks of [getIntVariable]; the message is the one of
    the error thrown. [max] is [None] when the bound passed is not a
    number: no value exceeds it. *)
Definition check_int (cur : option JS.value) (min : Z) (max : option Z) : string + Z :=
  match JS.parseInt_value cur with
  | None => inl "integer value required"%string
  | Some value =>
      if negb (JS.loose_eq_int value cur) then inl "integer value required"%string
      else if value <? min then inl ("value must be at least " +:+ pretty min)%string
      else match max with
           | Some max =>
               if value >? max then inl ("value must be at most " +:+ pretty max)%string
               else inr value
           | None => inr value
           end
  end.

(** [getIntVariable(name, question, required, min, max)]. The first
    round may find the field set from the command line; every later
    round asks for a line. *)
Fixpoint getIntVariable_rounds (fuel : nat) (name : string) (required : bool)
    (min : Z) (max : option Z) : M unit :=
  match fuel with
  | O => fun _ => Blocked
  | S fuel =>
      getVariable name required None;;
      cur ← get_field name;
      match check_int cur min max with
      | inr value => set_field name (JS.VNum value)
      | inl _ =>
          delete_field name;;
          if required then getIntVariable_rounds fuel name required min max
          else mret tt
      end
  end.

Definition getIntVariable (name : string) (required : bool)
    (min : Z) (max : option Z) : M unit :=
  fun w => getIntVariable_rounds (S (S (length (stdin w)))) name required min max w.

(** *** Key generation *)

Definition genKey (r : Rng) : outcome (Key * Rng) :=
  let r := addEntropy 128 r in
  let seedLength := 8%nat in
  let (seed, r) := randomWords seedLength r in
  match fromSeedHex seed with
  | Some (xpub, xprv) => Ok ({| seed := seed; key_xpub := xpub; key_xprv := xprv |}, r)
  | None => Throw (LibError "HDNode.fromSeedHex")
  end.

Definition password_name (i : Z) : string := "password" +:+ pretty i.

(** [shares.map(function(share, shareIndex) { ... encrypt ... })];
    [bitgo.encrypt] insists on a string password. *)
Fixpoint encrypt_shares (params : gmap string JS.value) (shareIndex : nat)
    (shares : list string) (r : Rng) : outcome (list string * Rng) :=
  match shares with
  | [] => Ok ([], r)
  | share :: rest =>
      match params !! password_name (Z.of_nat shareIndex) with
      | Some (JS.VStr password) =>
          let (c, r) := encrypt password share r in
          match encrypt_shares params (S shareIndex) rest r with
          | Ok (cs, r) => Ok (c :: cs, r)
          | Throw e => Throw e
          end
      | _ => Throw (LibError "bitgo.encrypt")
      end
  end.

(** [genSplitKey(params)]; the batch index it is documented to take is
    not used. *)
Definition genSplitKey (params : gmap string JS.value) (r : Rng)
  : outcome (SplitKey * Rng) :=
  match genKey r with
  | Throw e => Throw e
  | Ok (key, r) =>
      let shares :=
        match params !! "n" with
        | Some (JS.VNum 1) => Ok ([seed key], r)
        | Some (JS.VNum n) =>
            match params !! "m" with
            | Some (JS.VNum m) =>
                match secrets_share (seed key) n m r with
                | Some (shares, r) => Ok (shares, r)
                | None => Throw (LibError "secrets.share")
                end
            | _ => Throw (LibError "secrets.share")
            end
        | _ => Throw (LibError "secrets.share")
        end in
      match shares with
      | Throw e => Throw e
      | Ok (shares, r) =>
          match encrypt_shares params 0 shares r with
          | Throw e => Throw e
          | Ok (encryptedShares, r) =>
              Ok ({| sk_xpub := key_xpub key;
                     sk_m := params !! "m";
                     sk_n := params !! "n";
                     sk_seedShares := encryptedShares |}, r)
          end
      end
  end.

(** *** [handleSplitKeys] *)

Record SplitArgs : Type := {
  arg_m : option string;
  arg_n : option string;
  arg_nkeys : option string;
  arg_prefix : option string;
  arg_entropy : option string
}.

(** [new UserInput(this.args)] *)
Definition fields_of (l : list (string * option string)) : gmap string JS.value :=
  list_to_map (omap (fun '(name, v) => (fun s => (name, JS.VStr s)) <$> v) l).

Definition new_UserInput (fields : gmap string JS.value) : M unit :=
  fun w => Done tt {| input := fields; stdin := stdin w; rng := rng w; files := files w |}.

Definition get_input : M (gmap string JS.value) := fun w => Done (input w) w.

(** [i === n] for a counter and a field *)
Definition is_num (v : option JS.value) (i : Z) : bool :=
  match v with
  | Some (JS.VNum z) => i =? z
  | _ => false
  end.

Definition num_of (v : option JS.value) : option Z :=
  match v with
  | Some (JS.VNum z) => Some z
  | _ => None
  end.

(** The inner [getPassword(i, n)]: one confirmed password per share. *)
Fixpoint getSharePasswords (fuel : nat) (i : Z) (n : option JS.value) : M unit :=
  match fuel with
  | O => fun _ => Blocked
  | S fuel =>
      if is_num n i then mret tt
      else
        getPassword (password_name i) true;;
        getSharePasswords fuel (i + 1) n
  end.

(** [_.range(0, end)] of lodash 3: [end] is converted by [+end || 0],
    the length is [max(ceil(end), 0)], which [Array(length)] accepts up
    to 2^32 - 1, and the elements count up from 0. *)
Definition range_length (e : option JS.value) : outcome nat :=
  let e := match e with
           | Some (JS.VNum z) => JS.Finite (inject_Z z)
           | Some (JS.VStr s) => JS.toNumber s
           | None => JS.Finite 0
           end in
  match e with
  | JS.NaN => Ok 0%nat
  | JS.Finite q =>
      if 4294967295 <? Qceiling q then Throw (Error "Invalid array length")
      else Ok (Z.to_nat (Qceiling q))
  | JS.NegInf => Ok 0%nat
  | JS.PosInf => Throw (Error "Invalid array length")
  end.

Definition range0 (e : option JS.value) : outcome (list Z) :=
  match range_length e with
  | Ok len => Ok (Z.of_nat <$> seq 0 len)
  | Throw e => Throw e
  end.

(** The body of [.map(function(index) { ... })] over the range. *)
Fixpoint generate_keys (indices : list Z) : M (list SplitKeyRecord) :=
  match indices with
  | [] => mret []
  | idx :: rest =>
      params ← get_input;
      key ← with_rng (genSplitKey params);
      let record := {| index := idx; xpub := sk_xpub key; m := sk_m key; n := sk_n key;
                       seedShares := sk_seedShares key |} in
      records ← generate_keys rest;
      mret (record :: records)
  end.

(** [x + '...'] for a field *)
Definition to_string (v : option JS.value) : string :=
  match v with
  | Some (JS.VStr s) => s
  | Some (JS.VNum z) => pretty z
  | None => "undefined"
  end.

Definition handleSplitKeys (args : SplitArgs) : M (list SplitKeyRecord) :=
  new_UserInput (fields_of [("m", arg_m args); ("n", arg_n args);
                            ("nkeys", arg_nkeys args); ("prefix", arg_prefix args);
                            ("entropy", arg_entropy args)]%string);;
  getIntVariable "n" true 1 (Some 10);;
  input_n ← get_field "n";
  let mMin := if is_num input_n 1 then 1 else 2 in
  getIntVariable "m" true mMin (num_of input_n);;
  (* the 100000 of the call is a fifth argument, which getVariable
     does not have *)
  getVariable "nkeys" true (Some (JS.VNum 1));;
  getVariable "prefix" false (Some (JS.VStr "keys"));;
  getVariable "entropy" false None;;
  entropy ← get_field "entropy";
  (if JS.truthy entropy
   then fun w => Done tt (set_rng w (addUserEntropy (to_string entropy) (rng w)))
   else mret tt);;
  input_n ← get_field "n";
  (fun w => getSharePasswords (S (length (stdin w))) 0 input_n w);;
  nkeys ← get_field "nkeys";
  match range0 nkeys with
  | Throw e => throw e
  | Ok indices =>
      keys ← generate_keys indices;
      prefix ← get_field "prefix";
      write_file (to_string prefix +:+ ".json") (KeysJson keys);;
      let csvRows := (fun key => pretty (index key) +:+ "," +:+ xpub key) <$> keys in
      write_file (to_string prefix +:+ ".xpub.csv") (Text csvRows);;
      mret keys
  end.

(** *** [handleRecoverKeys] *)

Record RecoverArgs : Type := {
  arg_verifyonly : bool;
  arg_file : option string;
  arg_keys : option string
}.

(** One discovered pair of share index and password. *)
Record Binding : Type := {
  shareIndex : nat;
  password : string
}.

Definition is_bound (passwords : list Binding) (i : nat) : bool :=
  existsb (fun p => Nat.eqb (shareIndex p) i) passwords.

(** [shares.forEach(function(share, shareIndex) { ... })] for one
    entered password: every share is tried; a share that decrypts and
    has no binding yet gets one. *)
Fixpoint try_shares (pw : string) (i : nat) (shares : list string)
    (passwords : list Binding) (found : bool) : list Binding * bool :=
  match shares with
  | [] => (passwords, found)
  | share :: rest =>
      match decrypt pw share with
      | Some _ =>
          if negb (is_bound passwords i)
          then try_shares pw (S i) rest
                 (passwords ++ [{| shareIndex := i; password := pw |}]) true
          else try_shares pw (S i) rest passwords found
      | None => try_shares pw (S i) rest passwords found
      end
  end.

(** The inner [getPassword(i, n, shares)]. *)
Fixpoint getPasswords (fuel : nat) (i : Z) (n : option JS.value)
    (shares : list string) (passwords : list Binding) : M (list Binding) :=
  match fuel with
  | O => fun _ => Blocked
  | S fuel =>
      if is_num n i then mret passwords
      else
        getPassword (password_name i) false;;
        pw ← get_field (password_name i);
        let '(passwords', found) :=
          match pw with
          | Some (JS.VStr pw) => try_shares pw 0 shares passwords false
          | _ => (passwords, false)
          end in
        if found then getPasswords fuel (i + 1) n shares passwords'
        else
          delete_field (password_name i);;
          getPasswords fuel i n shares passwords
  end.

(** [_.uniq] keeps the first of equal elements. *)
Definition uniq (l : list Z) : list Z :=
  foldl (fun acc x => if bool_decide (x ∈ acc) then acc else acc ++ [x]) [] l.

(** [.sort(function(a, b) { return a - b; })]: the numbers in
    ascending order. *)
Definition sort_numeric (l : list Z) : list Z := merge_sort Z.le l.

(** [keys.filter(function(key, index) { return indices.indexOf(index) !== -1; })] *)
Fixpoint select_positions (pos : Z) (keys : list SplitKeyRecord) (indices : list Z)
  : list SplitKeyRecord :=
  match keys with
  | [] => []
  | key :: rest =>
      if bool_decide (pos ∈ indices)
      then key :: select_positions (pos + 1) rest indices
      else select_positions (pos + 1) rest indices
  end.

(** [passwords.map(function(p, i) { return sjcl.decrypt(...); })] *)
Fixpoint decrypt_shares (key : SplitKeyRecord) (passwords : list Binding)
  : outcome (list string) :=
  match passwords with
  | [] => Ok []
  | p :: rest =>
      match seedShares key !! shareIndex p with
      | Some c =>
          match decrypt (password p) c with
          | Some share =>
              match decrypt_shares key rest with
              | Ok shares => Ok (share :: shares)
              | Throw e => Throw e
              end
          | None => Throw (LibError "sjcl.decrypt")
          end
      | None => Throw (LibError "sjcl.decrypt")
      end
  end.

(** The body of [keysToRecover.map(function(key) { ... })]. *)
Definition recoverKey (verifyonly : bool) (passwords : list Binding)
    (key : SplitKeyRecord) : outcome RecoveredKey :=
  match decrypt_shares key passwords with
  | Throw e => Throw e
  | Ok shares =>
      let seed :=
        match shares with
        | [share] => Some share
        | _ => secrets_combine shares
        end in
      match seed with
      | None => Throw (LibError "secrets.combine")
      | Some seed =>
          match fromSeedHex seed with
          | None => Throw (LibError "HDNode.fromSeedHex")
          | Some (xpub', xprv') =>
              if (negb verifyonly && negb (String.eqb xpub' (xpub key)))%bool
              then Throw (Error ("xpubs don't match for key " +:+ pretty (index key)))
              else Ok {| r_index := index key; r_xpub := xpub';
                         r_xprv := if verifyonly then None else Some xprv' |}
          end
      end
  end.

Fixpoint recoverKeys (verifyonly : bool) (passwords : list Binding)
    (keys : list SplitKeyRecord) : outcome (list RecoveredKey) :=
  match keys with
  | [] => Ok []
  | key :: rest =>
      match recoverKey verifyonly passwords key with
      | Throw e => Throw e
      | Ok r =>
          match recoverKeys verifyonly passwords rest with
          | Throw e => Throw e
          | Ok rs => Ok (r :: rs)
          end
      end
  end.

(** [fs.readFileSync(input.file)] then [JSON.parse] *)
Definition read_keys (file : option JS.value) : M (list SplitKeyRecord) :=
  fun w =>
    match files w !! to_string file with
    | Some (KeysJson keys) => Done keys w
    | Some (Text _) => Raise (Error "Unexpected token in JSON")
    | None => Raise (Error "ENOENT: no such file or directory")
    end.

(** The indices asked for: split at commas, read as integers, [NaN]
    dropped, duplicates removed, sorted. *)
Definition parse_indices (keys : string) : list Z :=
  sort_numeric (uniq (omap JS.parseInt (JS.split_on "," keys))).

Definition handleRecoverKeys (args : RecoverArgs) : M (list RecoveredKey) :=
  new_UserInput (fields_of [("file", arg_file args); ("keys", arg_keys args)]%string);;
  getVariable "file" false None;;
  getVariable "keys" false None;;
  file ← get_field "file";
  keys ← read_keys file;
  input_keys ← get_field "keys";
  let indices := parse_indices (to_string input_keys) in
  match indices with
  | [] => throw (Error "no indices")
  | first :: _ =>
      if ((first <? 0) || (default 0 (last indices) >=? Z.of_nat (length keys)))%bool
      then throw (Error ("index out of range: " +:+ pretty (length keys)
                         +:+ " keys in file"))
      else
        let keysToRecover := select_positions 0 keys indices in
        match keysToRecover with
        | [] => throw (TypeError "Cannot read property 'm' of undefined")
        | firstKey :: _ =>
            passwords ← (fun w => getPasswords (S (length (stdin w))) 0
                                    (m firstKey) (seedShares firstKey) [] w);
            match recoverKeys (arg_verifyonly args) passwords keysToRecover with
            | Throw e => throw e
            | Ok recoveredKeys => mret recoveredKeys
            end
        end
  end.

End WithCrypto.

End Bgcl.

(** ** An executable stand-in for the libraries

    Small implementations with the functional behaviour the code relies
    on and none of the secrecy: a linear congruential generator for the
    entropy pools, a cipher that stores the password next to the
    plaintext, Shamir's scheme over the integers modulo 257 applied to
    each character of the secret, and a key derivation that only
    relabels the seed. They serve to run the model on concrete inputs. *)

Module Reference.

Local Open Scope Z_scope.

(** *** Entropy *)

Definition next (r : N) : N :=
  ((r * 6364136223846793005 + 1442695040888963407) mod 18446744073709551616)%N.

Definition hex_digit (d : N) : ascii :=
  match d with
  | 0%N => "0" | 1%N => "1" | 2%N => "2" | 3%N => "3" | 4%N => "4"
  | 5%N => "5" | 6%N => "6" | 7%N => "7" | 8%N => "8" | 9%N => "9"
  | 10%N => "a" | 11%N => "b" | 12%N => "c" | 13%N => "d" | 14%N => "e"
  | _ => "f"
  end%char.

Fixpoint hex_digits (count : nat) (v : N) (acc : string) : string :=
  match count with
  | O => acc
  | S count => hex_digits count (v / 16)%N (String (hex_digit (v mod 16)%N) acc)
  end.

(** [words] 32-bit words as hexadecimal digits. *)
Fixpoint random_hex (words : nat) (r : N) : string * N :=
  match words with
  | O => (EmptyString, r)
  | S words =>
      let r := next r in
      let (rest, r') := random_hex words r in
      (hex_digits 8 (r / 4294967296)%N rest, r')
  end.

(** *** Cipher *)

Fixpoint encode_password (pw : string) : string :=
  match pw with
  | EmptyString => "0"
  | String a rest => String "1" (String a (encode_password rest))
  end.

Fixpoint strip_prefix (pre s : string) : option string :=
  match pre, s with
  | EmptyString, _ => Some s
  | String a pre, String b s => if Ascii.eqb a b then strip_prefix pre s else None
  | String _ _, EmptyString => None
  end.

Definition encrypt (pw input : string) (r : N) : string * N :=
  let r := next r in
  (String (hex_digit (r / 1152921504606846976)%N) (encode_password pw +:+ input), r).

Definition decrypt (pw c : string) : option string :=
  match c with
  | String _ body => strip_prefix (encode_password pw) body
  | EmptyString => None
  end.

(** *** Shamir's scheme modulo 257 *)

Definition p : Z := 257.

Definition finv (a : Z) : Z := ((a mod p) ^ 255) mod p.

(** The value at [x] of the polynomial with coefficients [cs], lowest
    degree first. *)
Definition peval (cs : list Z) (x : Z) : Z :=
  foldr (fun c acc => (c + x * acc) mod p) 0 cs.

(** The value at 0 of the polynomial of degree below the number of
    points that passes through them, by repeated division by
    [x - x1]. *)
Fixpoint interpolate_at_0 (fuel : nat) (pts : list (Z * Z)) : Z :=
  match fuel, pts with
  | S fuel, (x1, y1) :: rest =>
      let quotient := (fun '(x, y) => (x, ((y - y1) * finv (x - x1)) mod p)) <$> rest in
      (y1 - x1 * interpolate_at_0 fuel quotient) mod p
  | _, _ => 0
  end.

(** The quotient of the polynomial [cs] by [x - x1]. *)
Fixpoint quotient (cs : list Z) (x1 : Z) : list Z :=
  match cs with
  | [] => []
  | _ :: rest =>
      match rest with
      | [] => []
      | _ => peval rest x1 :: quotient rest x1
      end
  end.

(** Equality modulo [p]. *)
Definition cong (a b : Z) : Prop := a mod p = b mod p.

Fixpoint draw (count : nat) (r : N) : list Z * N :=
  match count with
  | O => ([], r)
  | S count =>
      let r := next r in
      let (cs, r') := draw count r in
      ((Z.of_N (r / 8589934592) mod p) :: cs, r')
  end.

(** One polynomial per character: the character code, then
    [threshold - 1] drawn coefficients. *)
Fixpoint polynomials (secret : string) (threshold : nat) (r : N) : list (list Z) * N :=
  match secret with
  | EmptyString => ([], r)
  | String a rest =>
      let (cs, r) := draw (threshold - 1) r in
      let (polys, r) := polynomials rest threshold r in
      ((Z.of_nat (nat_of_ascii a) :: cs) :: polys, r)
  end.

Fixpoint encode_values (ys : list Z) : string :=
  match ys with
  | [] => EmptyString
  | y :: ys =>
      String (ascii_of_nat (Z.to_nat (y / 256)))
        (String (ascii_of_nat (Z.to_nat (y mod 256))) (encode_values ys))
  end.

Fixpoint decode_values (s : string) : option (list Z) :=
  match s with
  | EmptyString => Some []
  | String hi (String lo rest) =>
      ys ← decode_values rest;
      Some ((256 * Z.of_nat (nat_of_ascii hi) + Z.of_nat (nat_of_ascii lo)) :: ys)
  | String _ EmptyString => None
  end.

(** A share: its abscissa, then the value of every polynomial there. *)
Definition encode_share (x : Z) (ys : list Z) : string :=
  String (ascii_of_nat (Z.to_nat x)) (encode_values ys).

Definition decode_share (s : string) : option (Z * list Z) :=
  match s with
  | String a rest => ys ← decode_values rest; Some (Z.of_nat (nat_of_ascii a), ys)
  | EmptyString => None
  end.

Definition secrets_share (secret : string) (numShares threshold : Z) (r : N)
  : option (list string * N) :=
  if ((2 <=? numShares) && (numShares <=? 255)
      && (2 <=? threshold) && (threshold <=? numShares))%bool then
    let (polys, r) := polynomials secret (Z.to_nat threshold) r in
    Some ((fun j => let x := Z.of_nat (S j) in
                    encode_share x ((fun cs => peval cs x) <$> polys))
            <$> seq 0 (Z.to_nat numShares), r)
  else None.

Fixpoint string_of_codes (l : list Z) : option string :=
  match l with
  | [] => Some EmptyString
  | v :: l =>
      if v <? 256 then String (ascii_of_nat (Z.to_nat v)) <$> string_of_codes l
      else None
  end.

(** The character codes of a string. *)
Fixpoint codes (s : string) : list Z :=
  match s with
  | EmptyString => []
  | String a rest => Z.of_nat (nat_of_ascii a) :: codes rest
  end.

Definition secrets_combine (shares : list string) : option string :=
  parsed ← mapM decode_share shares;
  match parsed with
  | [] => None
  | (_, ys0) :: _ =>
      string_of_codes
        ((fun k => interpolate_at_0 (length parsed)
                     ((fun '(x, ys) => (x, nth k ys 0)) <$> parsed))
           <$> seq 0 (length ys0))
  end.

(** *** Key derivation *)

Definition is_hex (a : ascii) : bool :=
  let c := nat_of_ascii a in
  ((Nat.leb 48 c && Nat.leb c 57) || (Nat.leb 97 c && Nat.leb c 102))%bool.

Fixpoint all_hex (s : string) : bool :=
  match s with
  | EmptyString => true
  | String a rest => (is_hex a && all_hex rest)%bool
  end.

(** Seeds of 128 to 512 bits are accepted. *)
Definition fromSeedHex (seed : string) : option (string * string) :=
  let len := String.length seed in
  if (Nat.leb 32 len && Nat.leb len 128 && all_hex seed)%bool
  then Some ("xpub" +:+ String.rev seed, "xprv" +:+ seed)
  else None.

Definition crypto : Bgcl.Crypto :=
  {| Bgcl.Rng := N;
     Bgcl.addEntropy := fun bytes r => next (r + N.of_nat bytes);
     Bgcl.addUserEntropy := fun s r => next (r + N.of_nat (String.length s));
     Bgcl.randomWords := random_hex;
     Bgcl.fromSeedHex := fromSeedHex;
     Bgcl.secrets_share := secrets_share;
     Bgcl.secrets_combine := secrets_combine;
     Bgcl.encrypt := encrypt;
     Bgcl.decrypt := decrypt |}.

(** *** ToNumber, for integer literals *)

Fixpoint all_digits (s : string) : bool :=
  match s with
  | EmptyString => true
  | String a rest => (bool_decide (is_Some (JS.digit_of a)) && all_digits rest)%bool
  end.

Definition toNumber (s : string) : JS.num :=
  match JS.trim s with
  | EmptyString => JS.Finite 0
  | String "-"%char (String a rest) =>
      if all_digits (String a rest)
      then JS.Finite (inject_Z (- default 0 (JS.digits (String a rest) None)))
      else JS.NaN
  | String "+"%char (String a rest) =>
      if all_digits (String a rest)
      then JS.Finite (inject_Z (default 0 (JS.digits (String a rest) None)))
      else JS.NaN
  | t =>
      if all_digits t
      then JS.Finite (inject_Z (default 0 (JS.digits t None)))
      else JS.NaN
  end.

Definition coercion : JS.Coercion := {| JS.toNumber := toNumber |}.

Definition world (lines : list string) (r : N) (fs : gmap string Bgcl.File)
  : @Bgcl.World crypto :=
  @Bgcl.Build_World crypto ∅ lines r fs.

End Reference.

(** ** Sample data for the recovery tool

    A stand-in for the bitcoin library's checks and a small wallet, to run
    the model on concrete inputs. *)

Module RecoverySample.
Import Recovery.

Global Instance TxIn_eq_dec : EqDecision TxIn.
Proof. solve_decision. Defined.

(** The builder refuses an outpoint without an index or one it already
    spends, an empty address and a negative amount. *)
Definition lib : TxLibrary :=
  {| addInput_ok := fun ins i =>
       (bool_decide (is_Some (prev_index i)) && negb (bool_decide (i ∈ ins)))%bool;
     addOutput_ok := fun a v => (negb (String.eqb a "") && (0 <=? v))%bool |}.

Definition sourceWallet : Wallet := {| w_id := "bch-wallet"; w_isV1 := false |}.
Definition recoveryWallet : Wallet := {| w_id := "btc-wallet"; w_isV1 := false |}.

Definition addr (s : string) (i : Z) : AddressRecord :=
  {| a_address := s; a_chain := 0; a_index := i;
     a_redeemScript := Some ("redeem-" +:+ s)%string; a_witnessScript := None |}.

Definition recoveryAddrs : list AddressRecord := [addr "3A" 0; addr "3B" 1].

Definition unspent (id a : string) (v : Z) : Unspent :=
  {| u_id := id; u_address := a; u_value := v; u_witnessScript := None;
     u_tx := id; u_nOut := 0 |}.

Definition found : list Unspent :=
  [unspent "aa:0" "3A" 60000; unspent "bb:1" "3B" 40000].

(** The second unspent is on a known address, the first is not. *)
Definition found_with_stranger : list Unspent :=
  [unspent "cc:0" "3Z" 50000; unspent "aa:0" "3A" 60000].

Definition tool : Tool :=
  match CrossChainRecoveryTool "bch" "btc" false with
  | Ok t => t
  | Throw _ =>
      {| sourceCoin := bch; recoveryCoin := btc;
         wallets_source := None; wallets_dest := None;
         addresses_source := None; addresses_dest := None;
         unspents := None; recoveryTx := {| ins := []; outs := [] |};
         txInfo := None |}
  end.

Definition built : Tool * outcome TransactionBuilder :=
  @buildTransaction lib tool sourceWallet [] recoveryWallet recoveryAddrs found "recovery-address".

Definition built_with_stranger : Tool * outcome TransactionBuilder :=
  @buildTransaction lib tool sourceWallet [] recoveryWallet recoveryAddrs
    found_with_stranger "recovery-address".

(** [count] unspents of 10000 satoshis each on the address [3A]: the
    outputs 0 to [count - 1] of one transaction. *)
Definition sweep_tx : string :=
  "aaaaaaaaaaaaaaaaaaaaaaaaaaaaaaaaaaaaaaaaaaaaaaaaaaaaaaaaaaaaaaaa".

Definition sweep (count : nat) : list Unspent :=
  (fun j => {| u_id := sweep_tx +:+ ":" +:+ pretty (Z.of_nat j); u_address := "3A";
               u_value := 10000; u_witnessScript := None;
               u_tx := sweep_tx; u_nOut := Z.of_nat j |}) <$> seq 0 count.

End RecoverySample.

(** ** Sample runs of the split-key commands *)

Module BgclSample.
Import Bgcl.

(** [bitgo splitkeys -n 3 -m 2 -N nkeys], the prompts for the prefix and
    the entropy answered by an empty line, then three passwords, each
    typed twice. *)
Definition split_args (nkeys : string) : SplitArgs :=
  {| arg_m := Some "2"; arg_n := Some "3"; arg_nkeys := Some nkeys;
     arg_prefix := None; arg_entropy := None |}%string.

Definition split_lines (p0 p1 p2 : string) : list string :=
  [""; ""; p0; p0; p1; p1; p2; p2]%string.

Definition split_world (p0 p1 p2 : string) : @World Reference.crypto :=
  Reference.world (split_lines p0 p1 p2) 7%N ∅.

Definition split_run (nkeys p0 p1 p2 : string) : result World (list SplitKeyRecord) :=
  @handleSplitKeys Reference.crypto Reference.coercion (split_args nkeys)
    (split_world p0 p1 p2).

(** What a run returned or threw; [None] when it is left waiting. *)
Definition outcome_of {A} (r : result (@World Reference.crypto) A) : option (outcome A) :=
  match r with
  | Done a _ => Some (Ok a)
  | Raise e => Some (Throw e)
  | Blocked => None
  end.

Definition keys_of (r : result (@World Reference.crypto) (list SplitKeyRecord))
  : list SplitKeyRecord :=
  match r with
  | Done keys _ => keys
  | _ => []
  end.

Definition world_of {A} (r : result (@World Reference.crypto) A) : @World Reference.crypto :=
  match r with
  | Done _ w => w
  | _ => Reference.world [] 0%N ∅
  end.

Definition files_of {A} (r : result (@World Reference.crypto) A) : gmap string File :=
  files (world_of r).

Definition finished {A} (r : result (@World Reference.crypto) A) : bool :=
  match r with
  | Done _ _ => true
  | _ => false
  end.

(** Two keys, shares under the passwords [a], [b] and [c]. *)
Definition batch : result World (list SplitKeyRecord) :=
  Eval vm_compute in split_run "2" "a" "b" "c".

(** One key whose first two shares are under the same password. *)
Definition batch_shared_password : result World (list SplitKeyRecord) :=
  Eval vm_compute in split_run "1" "a" "a" "c".

(** The encrypted shares of the first key of a batch. *)
Definition first_shares (r : result (@World Reference.crypto) (list SplitKeyRecord))
  : list string :=
  match keys_of r with
  | k :: _ => seedShares k
  | [] => []
  end.

(** [bitgo recoverkeys -f keys.json -k keys] on the files of a run, with
    the given lines typed at the password prompts. *)
Definition recover_world (fs : gmap string File) (lines : list string)
  : @World Reference.crypto :=
  Reference.world lines 11%N fs.

Definition recover_run (verifyonly : bool) (fs : gmap string File) (keys : string)
    (lines : list string) : result World (list RecoveredKey) :=
  @handleRecoverKeys Reference.crypto
    {| arg_verifyonly := verifyonly; arg_file := Some "keys.json"%string;
       arg_keys := Some keys |}
    (recover_world fs lines).

(** The first record of the batch with another public key, and the batch
    with that record in its place. *)
Definition tampered_key : SplitKeyRecord :=
  Eval vm_compute in
    match keys_of batch with
    | k :: _ => {| index := index k; xpub := "xpub-of-another-key";
                   m := m k; n := n k; seedShares := seedShares k |}
    | [] => {| index := 0; xpub := ""; m := None; n := None; seedShares := [] |}
    end.

Definition tampered_files : gmap string File :=
  Eval vm_compute in
    {[ "keys.json"%string := KeysJson (tampered_key :: tail (keys_of batch)) ]}.

(** The bindings found by entering [a] then [b], and what they give for
    the tampered record: the plain shares, the seed and the key pair. *)
Definition bindings_a_b : list Binding :=
  [ {| shareIndex := 0; password := "a" |}; {| shareIndex := 1; password := "b" |} ].

Definition tampered_plain : list string :=
  Eval vm_compute in
    match @decrypt_shares Reference.crypto tampered_key bindings_a_b with
    | Ok l => l
    | Throw _ => []
    end.

Definition tampered_seed : string :=
  Eval vm_compute in default ""%string (Reference.secrets_combine tampered_plain).

Definition tampered_pair : string * string :=
  Eval vm_compute in default (""%string, ""%string) (Reference.fromSeedHex tampered_seed).

(** One [genSplitKey] call: 2 of 3 shares under the passwords [a], [b]
    and [c]; the key it split, the record of the result and a batch file
    with that record alone. *)
Definition key_params : gmap string JS.value :=
  list_to_map [("n", JS.VNum 3); ("m", JS.VNum 2); ("password0", JS.VStr "a");
               ("password1", JS.VStr "b"); ("password2", JS.VStr "c")]%string.

Definition key_rng : N := 7%N.

Definition plain_key : Key * N :=
  Eval vm_compute in
    match @genKey Reference.crypto key_rng with
    | Ok kr => kr
    | Throw _ => ({| seed := ""; key_xpub := ""; key_xprv := "" |}, 0%N)
    end.

Definition split_key : SplitKey * N :=
  Eval vm_compute in
    match @genSplitKey Reference.crypto key_params key_rng with
    | Ok kr => kr
    | Throw _ => ({| sk_xpub := ""; sk_m := None; sk_n := None; sk_seedShares := [] |}, 0%N)
    end.

Definition split_record : SplitKeyRecord :=
  Eval vm_compute in
    {| index := 0; xpub := sk_xpub split_key.1; m := sk_m split_key.1;
       n := sk_n split_key.1; seedShares := sk_seedShares split_key.1 |}.

Definition split_files : gmap string File :=
  Eval vm_compute in {[ "keys.json"%string := KeysJson [split_record] ]}.

(** A password prompt answered by [x], then [a], then [b]. *)
Definition entry_world : @World Reference.crypto :=
  Reference.world ["x"; "a"; "b"]%string 11%N ∅.

(** The record of [batch_shared_password] and the batch file. *)
Definition shared_record : SplitKeyRecord :=
  Eval vm_compute in
    match keys_of batch_shared_password with
    | k :: _ => k
    | [] => {| index := 0; xpub := ""; m := None; n := None; seedShares := [] |}
    end.

Definition shared_files : gmap string File :=
  Eval vm_compute in files_of batch_shared_password.

(** [bitgo splitkeys -n 2 -m 2 -N 1], both shares under the password
    [a], and the batch file it wrote. *)
Definition two_of_two : result World (list SplitKeyRecord) :=
  Eval vm_compute in
    @handleSplitKeys Reference.crypto Reference.coercion
      {| arg_m := Some "2"; arg_n := Some "2"; arg_nkeys := Some "1";
         arg_prefix := None; arg_entropy := None |}%string
      (Reference.world [""; ""; "a"; "a"; "a"; "a"]%string 7%N ∅).

Definition two_of_two_record : SplitKeyRecord :=
  Eval vm_compute in
    match keys_of two_of_two with
    | k :: _ => k
    | [] => {| index := 0; xpub := ""; m := None; n := None; seedShares := [] |}
    end.

Definition two_of_two_files : gmap string File :=
  Eval vm_compute in files_of two_of_two.

(** The bindings made by entering [a] once, for a key whose shares 0 and
    1 are both under [a]. *)
Definition bindings_a_a : list Binding :=
  [ {| shareIndex := 0; password := "a" |}; {| shareIndex := 1; password := "a" |} ].

End BgclSample.

(** ** Statements about shares and bindings *)

(** The password of share [i] in the parameters of [genSplitKey]. *)
Definition share_password (params : gmap string JS.value) (i : nat) : option string :=
  match params !! Bgcl.password_name (Z.of_nat i) with
  | Some (JS.VStr pw) => Some pw
  | _ => None
  end.

(** The shares at the positions [idxs], each decrypted with the password
    of its position. *)
Definition decrypt_selected {C : Bgcl.Crypto} (params : gmap string JS.value)
    (encrypted : list string) (idxs : list nat) : option (list string) :=
  mapM (fun i => c ← encrypted !! i; pw ← share_password params i; Bgcl.decrypt pw c) idxs.

(** The recombination of [handleRecoverKeys], as its
    [keysToRecover.map] computes [seed] from the decrypted shares: a
    single share is the seed, several go through [secrets.combine]. *)
Definition recombine {C : Bgcl.Crypto} (shares : list string) : option string :=
  match shares with
  | [share] => Some share
  | _ => Bgcl.secrets_combine shares
  end.

(** The bindings an entered password adds: one for every share, from
    position [i] on, that it decrypts and that has no binding in
    [passwords]. *)
Fixpoint new_bindings {C : Bgcl.Crypto} (pw : string) (i : nat) (shares : list string)
    (passwords : list Bgcl.Binding) : list Bgcl.Binding :=
  match shares with
  | [] => []
  | share :: rest =>
      if (bool_decide (is_Some (Bgcl.decrypt pw share))
          && negb (Bgcl.is_bound passwords i))%bool
      then {| Bgcl.shareIndex := i; Bgcl.password := pw |}
           :: new_bindings pw (S i) rest passwords
      else new_bindings pw (S i) rest passwords
  end.

(** An entered password is bound to at most one share index. *)
Definition binds_at_most_one : Prop :=
  forall (C : Bgcl.Crypto) pw shares passwords,
    (length (fst (Bgcl.try_shares pw 0 shares passwords false))
     <= S (length passwords))%nat.

(** A recombined key whose public key differs from the recorded one makes
    the recovery of that key throw, naming its index. *)
Definition mismatch_is_fatal {C : Bgcl.Crypto} (verifyonly : bool) : Prop :=
  forall passwords key shares sd xpub' xprv',
    Bgcl.decrypt_shares key passwords = Ok shares ->
    match shares with [share] => Some share | _ => Bgcl.secrets_combine shares end = Some sd ->
    Bgcl.fromSeedHex sd = Some (xpub', xprv') ->
    xpub' <> Bgcl.xpub key ->
    Bgcl.recoverKey verifyonly passwords key
    = Throw (Error ("xpubs don't match for key " +:+ pretty (Bgcl.index key))).

(** A per-chain band [lo .. hi] is enforced when every transaction that
    [buildTransaction] builds, with a tool that has built no [txInfo]
    before, carries a fee inside it. *)
Definition fee_band_enforced {L : Recovery.TxLibrary} (lo hi : Recovery.coin -> Z) : Prop :=
  forall t0 sw sa rw ra found addr t' b ti,
    Recovery.txInfo t0 = None ->
    Recovery.buildTransaction t0 sw sa rw ra found addr = (t', Ok b) ->
    Recovery.txInfo t' = Some ti ->
    lo (Recovery.sourceCoin t0) <= Recovery.minerFee ti <= hi (Recovery.sourceCoin t0).

(** The total value of a list of unspents. *)
Definition sum_values (us : list Recovery.Unspent) : Z :=
  foldr (fun u acc => Recovery.u_value u + acc) 0 us.

(** A step leaves the field [k] of the [UserInput] alone. *)
Definition preserves {C : Bgcl.Crypto} {A} (k : string) (c : Bgcl.M A) : Prop :=
  forall w a w', c w = Bgcl.Done a w' -> Bgcl.input w' !! k = Bgcl.input w !! k.

(** A record of the batch file made by [genSplitKey] from [params]. *)
Definition generated_by {C : Bgcl.Crypto} (params : gmap string JS.value)
    (record : Bgcl.SplitKeyRecord) : Prop :=
  exists r sk r',
    Bgcl.genSplitKey params r = Ok (sk, r')
    /\ Bgcl.xpub record = Bgcl.sk_xpub sk /\ Bgcl.m record = Bgcl.sk_m sk
    /\ Bgcl.n record = Bgcl.sk_n sk
    /\ Bgcl.seedShares record = Bgcl.sk_seedShares sk.

(** The world with other fields of the [UserInput] and other lines left
    to read. *)
Definition with_input {C : Bgcl.Crypto} (w : Bgcl.World) (fields : gmap string JS.value)
    (rest : list string) : Bgcl.World :=
  {| Bgcl.input := fields; Bgcl.stdin := rest; Bgcl.rng := Bgcl.rng w;
     Bgcl.files := Bgcl.files w |}.

(** The bindings of the share indices [idxs] to their passwords. *)
Definition bindings_for (pws : list string) (idxs : list nat)
  : list Bgcl.Binding :=
  (fun idx => {| Bgcl.shareIndex := idx;
                 Bgcl.password := default ""%string (pws !! idx) |}) <$> idxs.

(** ** [src/recovery.js]: the calls that reach the service

    [setWallet], [findUnspents], [getKeys] and [signTransaction] await
    the wallet service. What a call resolved to, or the status of the
    error it threw, is an argument of the model. *)

Module RecoveryCalls.
Import Recovery.

(** An awaited call: the value it resolved to, or the [status] of the
    error it threw ([None] for an error without one). *)
Inductive response (A : Type) : Type :=
| Resolved (a : A)
| Rejected (status : option Z).
Arguments Resolved {A} a.
Arguments Rejected {A} status.

(** [coin.type] *)
Definition coin_type (c : coin) : string :=
  match c with
  | btc => "btc"
  | bch => "bch"
  | tbtc => "tbtc"
  | tbch => "tbch"
  end.

(** [s.endsWith(suffix)] *)
Definition endsWith (s suffix : string) : bool :=
  let n := String.length s in
  let k := String.length suffix in
  (Nat.leb k n && String.eqb (String.substring (n - k) k s) suffix)%bool.

(** [e.status !== a && e.status !== b] *)
Definition status_not (status : option Z) (codes : list Z) : bool :=
  match status with
  | Some s => negb (bool_decide (s ∈ codes))
  | None => true
  end.

Definition set_isV1 (w : Wallet) : Wallet := {| w_id := w_id w; w_isV1 := true |}.

(** [setWallet(coinType, walletId)]. [v2] is the outcome of
    [bitgo.coin(coinType).wallets().get], [v1] that of
    [bitgo.wallets().get], [addrs] what [wallet.addresses({})] resolves
    to. *)
Definition setWallet (t : Tool) (coinType walletId : string)
    (v2 v1 : response Wallet) (addrs : list AddressRecord) : outcome Tool :=
  if negb (JS.truthy_str (Some coinType)) then
    Throw (Error "Please provide coin type")
  else if negb (JS.truthy_str (Some walletId)) then
    Throw (Error "Please provide wallet id")
  else if (negb (String.eqb (coin_type (sourceCoin t)) coinType)
           && negb (String.eqb (coin_type (recoveryCoin t)) coinType))%bool then
    Throw (Error "Cannot set a wallet for this coin type - this is not a coin involved in the recovery tx.")
  else
    let first :=
      match v2 with
      | Resolved w => Ok (Some w)
      | Rejected status =>
          if status_not status [404; 400] then Throw (LibError "coin.wallets.get")
          else Ok None
      end in
    match first with
    | Throw e => Throw e
    | Ok wallet =>
        let second :=
          match wallet with
          | Some w => Ok (Some w)
          | None =>
              if endsWith coinType "btc" then
                match v1 with
                | Resolved w => Ok (Some (set_isV1 w))
                | Rejected status =>
                    if status_not status [404] then Throw (LibError "bitgo.wallets.get")
                    else Ok None
                end
              else Ok None
          end in
        match second with
        | Throw e => Throw e
        | Ok None => Throw (Error ("Cannot find " +:+ coinType +:+ " wallet."))
        | Ok (Some w) =>
            let c := if String.eqb (coin_type (sourceCoin t)) coinType
                     then sourceCoin t else recoveryCoin t in
            Ok (Recovery.setWallet t c w addrs)
        end
    end.

(** The addresses [findUnspents] asks unspents for: the outputs of the
    faulty transaction that [_.find] has a record for in
    [this.addresses.dest]. *)
Definition outputAddresses (dest : option (list AddressRecord)) (outputs : list string)
  : list string :=
  List.filter
    (fun address =>
       match dest with
       | Some addrs =>
           bool_decide (is_Some (List.find (fun a => String.eqb (a_address a) address) addrs))
       | None => false
       end)
    outputs.

(** [findUnspents(faultyTxId)]. [outputs] are the output addresses of
    the faulty transaction as the service reports them; [service] is its
    answer to the query for the unspents of a list of addresses. *)
Definition findUnspents (t : Tool) (faultyTxId : string) (outputs : list string)
    (service : list string -> list Unspent) : outcome (Tool * list Unspent) :=
  if negb (JS.truthy_str (Some faultyTxId)) then
    Throw (Error "Please provide a faultyTxId")
  else
    let unspents := service (outputAddresses (addresses_dest t) outputs) in
    Ok (set_unspents t (Some unspents), unspents).

(** The user keychain of a wallet. *)
Record Keychain : Type := {
  encryptedPrv : string;
  kc_path : option string;
  kc_xprv : option string
}.

(** What [getKeys] resolves to: [{ keychain }] or [{ prv }]. *)
Inductive Keys : Type :=
| KeychainOnly (keychain : Keychain)
| PrvOnly (prv : option string).

(** [keys.prv] *)
Definition keys_prv (k : Keys) : option string :=
  match k with
  | KeychainOnly _ => None
  | PrvOnly prv => prv
  end.

Section WithCrypto.
Context {C : Bgcl.Crypto}.

(** [getKeys(passphrase)]. [fetched] is the outcome of
    [this.wallets.dest.getEncryptedUserKeychain()]; [bitgo.decrypt] is
    [sjcl.decrypt]. *)
Definition getKeys (t : Tool) (fetched : response Keychain) (passphrase : option string)
  : outcome Keys :=
  match wallets_dest t with
  | None => Throw (TypeError "Cannot read property 'getEncryptedUserKeychain' of null")
  | Some dest =>
      let got :=
        match fetched with
        | Resolved k => Ok (Some k)
        | Rejected status =>
            if status_not status [404] then Throw (LibError "getEncryptedUserKeychain")
            else Ok None
        end in
      match got with
      | Throw e => Throw e
      | Ok keychain =>
          if negb (JS.truthy_str passphrase) then
            Throw (Error "You have an encrypted user keychain - please provide the passphrase to decrypt it")
          else if (w_isV1 dest && negb (bool_decide (is_Some keychain)))%bool then
            Throw (Error "V1 wallets need a user keychain - could not find the proper keychain. Aborting")
          else
            let decrypted :=
              match keychain with
              | Some k =>
                  match Bgcl.decrypt (default ""%string passphrase) (encryptedPrv k) with
                  | Some prv => Ok (Some prv)
                  | None =>
                      Throw (Error "Error reading private key. Please check that you have the correct wallet passphrase")
                  end
              | None => Ok None
              end in
            match decrypted with
            | Throw e => Throw e
            | Ok prv =>
                if w_isV1 dest then
                  match keychain with
                  | Some k =>
                      Ok (KeychainOnly
                            {| encryptedPrv := encryptedPrv k;
                               kc_path := if JS.truthy_str (kc_path k) then kc_path k
                                          else Some ""%string;
                               kc_xprv := prv |})
                  | None => Throw (TypeError "Cannot set property 'xprv' of undefined")
                  end
                else Ok (PrvOnly prv)
            end
      end
  end.

(** [signTransaction({ prv, passphrase })]: what is handed to
    [sourceCoin.signTransaction], that is [txPrebuild.txHex],
    [txPrebuild.txInfo] and [prv]. [hex] is the outcome of
    [recoveryTx.buildIncomplete().toHex()]. *)
Definition signTransaction (t : Tool) (hex : outcome string) (prv : option string)
    (passphrase : option string) (fetched : response Keychain)
  : outcome (string * TxInfo * option string) :=
  match txInfo t with
  | None => Throw (Error "Could not find txInfo. Please build a transaction")
  | Some ti =>
      match hex with
      | Throw e => Throw e
      | Ok transactionHex =>
          if negb (JS.truthy_str prv) then
            match getKeys t fetched passphrase with
            | Throw e => Throw e
            | Ok keys => Ok (transactionHex, ti, keys_prv keys)
            end
          else Ok (transactionHex, ti, prv)
      end
  end.

End WithCrypto.

End RecoveryCalls.

(** ** [src/bgcl.js]: labels of the session *)

Module Session.

(** One label of [this.labels[address]]. *)
Record Label : Type := {
  walletId : string;
  label : string
}.

(** The [labels.forEach] of [labelForAddress]: the callback's
    [return false] does not end a [forEach], every label is visited. *)
Definition foundLabel (wallet : string) (labels : list Label) : option string :=
  foldl (fun found l => if String.eqb (walletId l) wallet then Some (label l) else found)
        None labels.

(** [labelForAddress(address)]. [wallet] is [this.wallet.id()], absent
    when no wallet is selected; [labels] is [this.labels]. *)
Definition labelForAddress (wallet : option string)
    (labels : option (gmap string (list Label))) (address : string)
  : outcome (option string) :=
  match labels ≫= (fun m => m !! address) with
  | None => Ok None
  | Some [] => Ok None
  | Some [l] => Ok (Some (label l))
  | Some (l0 :: ls) =>
      match wallet with
      | None => Throw (TypeError "Cannot read property 'id' of undefined")
      | Some id =>
          let found := foundLabel id (l0 :: ls) in
          if JS.truthy_str found then Ok found else Ok (Some (label l0))
      end
  end.

End Session.

(** ** [src/bgcl.js]: the recovery commands *)

Module Commands.
Import Bgcl.

Section WithCrypto.
Context {C : Crypto}.

(** The four questions every recovery command starts with. *)
Definition getRecoveryVariables : M unit :=
  getVariable "sourceWallet" true None;;
  getVariable "recoveryWallet" true None;;
  getVariable "txid" true None;;
  getVariable "recoveryAddress" true None.

(** A recovery command up to [new RecoveryTool({ sourceCoin,
    recoveryType, test })]; [rest] is what the command does with the
    tool. *)
Definition recoveryCommand {A} (sourceCoin recoveryType : string)
    (fields : gmap string JS.value) (test : bool)
    (rest : Recovery.Tool -> M A) : M A :=
  new_UserInput fields;;
  getRecoveryVariables;;
  match Recovery.CrossChainRecoveryTool sourceCoin recoveryType test with
  | Throw e => throw e
  | Ok tool => rest tool
  end.

Definition handleRecoverBCHFromBTCNonSegWit {A} := @recoveryCommand A "bch" "btc".
Definition handleRecoverBTCFromBCH {A} := @recoveryCommand A "btc" "bch".
Definition handleRecoverLitecoin {A} := @recoveryCommand A "ltc" "btc".

(** The end of a recovery command, before [signTransaction]: the wallet
    passphrase, then the private key when the passphrase is blank.
    [confirmPrv] is the third argument of the second [getPassword]:
    [true] in [handleRecoverBCHFromBTCNonSegWit], absent in the other
    commands. *)
Definition getSigningSecret (confirmPrv : bool) : M unit :=
  getPassword "passphrase" false;;
  passphrase ← get_field "passphrase";
  if negb (JS.truthy passphrase) then getPassword "prv" confirmPrv
  else mret tt.

End WithCrypto.

End Commands.

(** ** Statements about the further code *)

(** The part of the tool that [buildInputs], [setFees] and
    [buildOutputs] leave alone. *)
Definition same_wallets (t t' : Recovery.Tool) : Prop :=
  Recovery.sourceCoin t' = Recovery.sourceCoin t
  /\ Recovery.recoveryCoin t' = Recovery.recoveryCoin t
  /\ Recovery.wallets_source t' = Recovery.wallets_source t
  /\ Recovery.wallets_dest t' = Recovery.wallets_dest t
  /\ Recovery.addresses_source t' = Recovery.addresses_source t
  /\ Recovery.addresses_dest t' = Recovery.addresses_dest t
  /\ Recovery.unspents t' = Recovery.unspents t.

(** The address list has a record for the address. *)
Definition has_record (addrs : list Recovery.AddressRecord) (address : string) : Prop :=
  is_Some (List.find (fun a => String.eqb (Recovery.a_address a) address) addrs).

(** The amount [buildOutputs] settles on:
    [outputAmount || inputAmount - (recoveryFee || minerFee)]. *)
Definition chosen_amount (ti : Recovery.TxInfo) (outputAmount recoveryFee : option Z) : Z :=
  JS.or_num outputAmount
    (Recovery.inputAmount ti - JS.or_num recoveryFee (Recovery.minerFee ti)).

(** A step leaves the files alone. *)
Definition keeps_files {C : Bgcl.Crypto} {A} (c : Bgcl.M A) : Prop :=
  forall w a w', c w = Bgcl.Done a w' -> Bgcl.files w' = Bgcl.files w.

(** No password field of the input holds anything but a string that is
    not blank. *)
Definition passwords_not_blank (fields : gmap string JS.value) : Prop :=
  forall i v,
    fields !! Bgcl.password_name i = Some v ->
    exists pw, v = JS.VStr pw /\ pw <> ""%string.

(** Bindings are sound for a list of encrypted shares when no share
    index is bound twice and every password decrypts the share it is
    bound to. *)
Definition sound_bindings {C : Bgcl.Crypto} (shares : list string)
    (passwords : list Bgcl.Binding) : Prop :=
  NoDup (Bgcl.shareIndex <$> passwords)
  /\ Forall (fun b => exists share,
               shares !! Bgcl.shareIndex b = Some share
               /\ is_Some (Bgcl.decrypt (Bgcl.password b) share)) passwords.

(** ** Sample inputs for the further code *)

Module MoreSamples.
Import Recovery.

(** The tool of [RecoverySample] with both wallets set and the unspents
    found. *)
Definition ready : Tool :=
  Eval vm_compute in
    set_unspents
      (Recovery.setWallet
         (Recovery.setWallet RecoverySample.tool bch RecoverySample.sourceWallet [])
         btc RecoverySample.recoveryWallet RecoverySample.recoveryAddrs)
      (Some RecoverySample.found).

Definition inputs_built : Tool * outcome (option TxInfo) :=
  Eval vm_compute in @buildInputs RecoverySample.lib ready None.

Definition built_txInfo : TxInfo :=
  Eval vm_compute in
    match snd inputs_built with
    | Ok (Some ti) => ti
    | _ => empty_txInfo
    end.

Definition fees_set : Tool :=
  Eval vm_compute in fst (setFees (fst inputs_built)).

Definition fees_txInfo : TxInfo :=
  Eval vm_compute in default empty_txInfo (txInfo fees_set).

(** The same with the unspent on an unknown address first. *)
Definition ready_with_stranger : Tool :=
  Eval vm_compute in set_unspents ready (Some RecoverySample.found_with_stranger).

(** The same with an unspent on a known address first and one on an
    unknown address after it. *)
Definition ready_then_stranger : Tool :=
  Eval vm_compute in
    set_unspents ready
      (Some [RecoverySample.unspent "aa:0" "3A" 60000;
             RecoverySample.unspent "cc:0" "3Z" 50000]).

(** A tool for the source coin [btc] and the recovery type
    [btc-segwit], and the transaction it builds. *)
Definition same_coin_tool : Tool :=
  Eval vm_compute in
    match CrossChainRecoveryTool "btc" "btc-segwit" false with
    | Ok t => t
    | Throw _ => RecoverySample.tool
    end.

Definition same_coin_built : Tool * outcome TransactionBuilder :=
  Eval vm_compute in
    @buildTransaction RecoverySample.lib same_coin_tool
      RecoverySample.sourceWallet [] RecoverySample.recoveryWallet
      RecoverySample.recoveryAddrs RecoverySample.found "recovery-address".

Definition same_coin_tx : TransactionBuilder :=
  Eval vm_compute in
    match snd same_coin_built with
    | Ok b => b
    | Throw _ => {| ins := []; outs := [] |}
    end.

(** A service that knows the unspents of [found_with_stranger]. *)
Definition service (addresses : list string) : list Unspent :=
  List.filter (fun u => bool_decide (u_address u ∈ addresses))
    RecoverySample.found_with_stranger.

Definition wallets_set : Tool :=
  Eval vm_compute in set_unspents ready None.

(** A wallet found among the V1 wallets only. *)
Definition v1_lookup : outcome Tool :=
  Eval vm_compute in
    RecoveryCalls.setWallet (set_unspents RecoverySample.tool None) "btc" "btc-wallet"
      (RecoveryCalls.Rejected (Some 404)) (RecoveryCalls.Resolved RecoverySample.recoveryWallet)
      RecoverySample.recoveryAddrs.

Definition v1_tool : Tool :=
  Eval vm_compute in
    match v1_lookup with
    | Ok t => set_txInfo t (Some built_txInfo)
    | Throw _ => RecoverySample.tool
    end.

(** A user keychain under the passphrase [secret]. *)
Definition keychain : RecoveryCalls.Keychain :=
  Eval vm_compute in
    {| RecoveryCalls.encryptedPrv := fst (Reference.encrypt "secret" "xprv-of-the-user" 5%N);
       RecoveryCalls.kc_path := None;
       RecoveryCalls.kc_xprv := None |}.

Definition v1_keys : outcome RecoveryCalls.Keys :=
  Eval vm_compute in
    @RecoveryCalls.getKeys Reference.crypto v1_tool (RecoveryCalls.Resolved keychain)
      (Some "secret"%string).

(** Labels of an address in two wallets. *)
Definition labels : gmap string (list Session.Label) :=
  {[ "3A"%string :=
       [ {| Session.walletId := "w1"; Session.label := "first" |};
         {| Session.walletId := "w2"; Session.label := "savings" |};
         {| Session.walletId := "w2"; Session.label := "cold" |};
         {| Session.walletId := "w3"; Session.label := "last" |} ] ]}.

(** Worlds with chosen fields and lines to read. *)
Definition typed (fields : list (string * option string)) (lines : list string)
  : @Bgcl.World Reference.crypto :=
  @Bgcl.Build_World Reference.crypto (Bgcl.fields_of fields) lines 3%N ∅.

Definition result_of {A} (d : A) (r : Bgcl.result (@Bgcl.World Reference.crypto) A) : A :=
  match r with
  | Bgcl.Done a _ => a
  | _ => d
  end.

End MoreSamples.

(** * Properties *)

Import Recovery.

Section RecoveryFacts.
Context {L : TxLibrary}.

Lemma sum_values_app us vs : sum_values (us ++ vs) = sum_values us + sum_values vs.
Proof. induction us as [|u us IH]; simpl; lia. Qed.

(** When the loop runs to its end, every unspent became one input of the
    builder and one entry of [txInfo.inputs], in order, and the running
    totals grew by the sum of the values. *)
Lemma buildInputs_loop_finished noSegwit dest wdest us :
  forall b ti tot b' ti' tot',
    buildInputs_loop noSegwit dest wdest us b ti tot = (b', Ok (Finished ti' tot')) ->
    ins b' = ins b ++ map (fun u => outpoint (u_id u)) us
    /\ outs b' = outs b
    /\ map in_unspent (inputs ti') = map in_unspent (inputs ti) ++ us
    /\ inputAmount ti' = inputAmount ti + sum_values us
    /\ tot' = tot + sum_values us
    /\ minerFee ti' = minerFee ti
    /\ outputs ti' = outputs ti
    /\ externalOutputs ti' = externalOutputs ti.
Proof.
  induction us as [|u us IH]; intros b ti tot b' ti' tot' H; simpl in H.
  - inversion H; subst. rewrite !app_nil_r. simpl. repeat split; lia.
  - destruct (JS.truthy_str (u_witnessScript u) && noSegwit)%bool; [discriminate|].
    destruct dest as [addrs|]; [|discriminate].
    destruct (List.find _ addrs) as [a|]; [|discriminate].
    destruct (negb (addInput_ok (ins b) (outpoint (u_id u)))); [discriminate|].
    destruct wdest as [w|]; [|discriminate].
    apply IH in H. simpl in H.
    destruct H as (H1 & H2 & H3 & H4 & H5 & H6 & H7 & H8).
    rewrite H1, H2, H3, H4, H5, H6, H7, H8.
    rewrite map_app. simpl. rewrite <- !app_assoc. simpl.
    repeat split; lia.
Qed.

(** An unspent whose address has no record makes the loop leave without
    a [txInfo], whatever follows it in the list. *)
Lemma buildInputs_loop_missing noSegwit dest wdest us :
  forall b ti tot addrs u,
    dest = Some addrs ->
    u ∈ us ->
    List.find (fun a => String.eqb (a_address a) (u_address u)) addrs = None ->
    forall b' ti' tot',
      buildInputs_loop noSegwit dest wdest us b ti tot <> (b', Ok (Finished ti' tot')).
Proof.
  induction us as [|v us IH]; intros b ti tot addrs u Hd Hin Hf b' ti' tot' H.
  - inversion Hin.
  - simpl in H. subst dest.
    destruct (JS.truthy_str (u_witnessScript v) && noSegwit)%bool; [discriminate|].
    destruct (List.find (fun a => String.eqb (a_address a) (u_address v)) addrs) as [a|] eqn:Hv;
      [|discriminate].
    destruct (negb (addInput_ok (ins b) (outpoint (u_id v)))); [discriminate|].
    destruct wdest as [w|]; [|discriminate].
    apply elem_of_cons in Hin as [->|Hin]; [congruence|].
    eapply IH in H; eauto.
Qed.

Lemma setWallet_keeps t c w addrs :
  sourceCoin (setWallet t c w addrs) = sourceCoin t
  /\ recoveryCoin (setWallet t c w addrs) = recoveryCoin t
  /\ recoveryTx (setWallet t c w addrs) = recoveryTx t
  /\ txInfo (setWallet t c w addrs) = txInfo t.
Proof.
  unfold setWallet.
  destruct (coin_eqb (sourceCoin t) c); simpl;
    destruct (coin_eqb (recoveryCoin t) c); simpl; auto.
Qed.

(** [setFees] then [buildOutputs(recoveryAddress)], when both return. *)
Lemma setFees_buildOutputs_ok t t1 t2 fee addr :
  setFees t = (t1, Ok fee) ->
  buildOutputs t1 addr None None = (t2, Ok tt) ->
  exists ti0 ti,
    txInfo t = Some ti0
    /\ txInfo t2 = Some ti
    /\ sourceCoin t2 = sourceCoin t
    /\ ins (recoveryTx t2) = ins (recoveryTx t)
    /\ outs (recoveryTx t2) = outs (recoveryTx t) ++ [(addr, outputAmount ti)]
    /\ inputs ti = inputs ti0
    /\ inputAmount ti = inputAmount ti0
    /\ minerFee ti = fee
    /\ fee = feeRates (sourceCoin t)
             * (P2SH_INPUT_SIZE * Z.of_nat (length (ins (recoveryTx t)))
                + OUTPUT_SIZE + TX_OVERHEAD_SIZE)
    /\ outputAmount ti = inputAmount ti - minerFee ti
    /\ 0 < outputAmount ti
    /\ outputs ti = outputs ti0
                    ++ [{| o_address := addr; o_value := outputAmount ti;
                           o_valueString := pretty (outputAmount ti);
                           o_wallet := default ""%string (w_id <$> wallets_source t);
                           o_change := false |}].
Proof.
  unfold setFees, buildOutputs.
  destruct (txInfo t) as [ti0|] eqn:Hti; [|discriminate].
  intros H1; inversion H1; subst t1 fee; clear H1. simpl.
  set (fee := feeRates (sourceCoin t) * _).
  destruct (inputAmount ti0 - fee <=? 0) eqn:Hle; [discriminate|].
  destruct (negb (addOutput_ok addr (inputAmount ti0 - fee))); [discriminate|].
  destruct (wallets_source t) as [ws|]; [|discriminate].
  intros H2; inversion H2; subst t2; clear H2. simpl.
  apply Z.leb_gt in Hle.
  exists ti0. eexists. split; [reflexivity|]. split; [reflexivity|]. simpl.
  repeat split; try reflexivity; lia.
Qed.

(** What a successful [buildTransaction] leaves behind, for a tool that
    has not built a [txInfo] before. *)
Lemma buildTransaction_ok t0 sw sa rw ra found addr t' b :
  txInfo t0 = None ->
  buildTransaction t0 sw sa rw ra found addr = (t', Ok b) ->
  exists ti,
    txInfo t' = Some ti
    /\ recoveryTx t' = b
    /\ sourceCoin t' = sourceCoin t0
    /\ ins b = ins (recoveryTx t0) ++ map (fun u => outpoint (u_id u)) found
    /\ outs b = outs (recoveryTx t0) ++ [(addr, outputAmount ti)]
    /\ map in_unspent (inputs ti) = found
    /\ inputAmount ti = sum_values found
    /\ minerFee ti =
         feeRates (sourceCoin t0)
         * (P2SH_INPUT_SIZE * Z.of_nat (length (ins b)) + OUTPUT_SIZE + TX_OVERHEAD_SIZE)
    /\ outputAmount ti = inputAmount ti - minerFee ti
    /\ 0 < outputAmount ti.
Proof.
  intros Hfresh. unfold buildTransaction.
  set (t1 := setWallet t0 (sourceCoin t0) sw sa).
  set (t2 := setWallet t1 (recoveryCoin t1) rw ra).
  destruct (setWallet_keeps t0 (sourceCoin t0) sw sa) as (Hs1 & Hr1 & Hb1 & Hi1).
  destruct (setWallet_keeps t1 (recoveryCoin t1) rw ra) as (Hs2 & Hr2 & Hb2 & Hi2).
  fold t1 in Hs1, Hr1, Hb1, Hi1. fold t2 in Hs2, Hr2, Hb2, Hi2.
  unfold buildInputs. cbn [unspents set_unspents].
  destruct (buildInputs_loop _ _ _ found _ _ _) as [bl [ex|e]] eqn:Hloop; [|discriminate].
  destruct ex as [til totl|].
  - apply buildInputs_loop_finished in Hloop.
    destruct Hloop as (L1 & L2 & L3 & L4 & L5 & L6 & L7 & L8).
    cbn in L1, L2, L3, L4.
    match goal with |- context [setFees ?t] => destruct (setFees t) as [t3 [fee|e]] eqn:Hfee end;
      [|discriminate].
    match goal with |- context [buildOutputs ?t ?a None None] =>
      destruct (buildOutputs t a None None) as [t4 [[]|e]] eqn:Hout end; [|discriminate].
    intros H; inversion H; subst t' b; clear H.
    destruct (setFees_buildOutputs_ok _ _ _ _ _ Hfee Hout)
      as (ti0 & ti & E0 & E1 & E2 & E3 & E4 & E5 & E6 & E7 & E8 & E9 & E10 & E11).
    cbn in E0. inversion E0; subst ti0; clear E0. cbn in E2, E3, E4, E5, E6, E8.
    exists ti. split; [exact E1|]. split; [reflexivity|].
    split; [congruence|].
    split; [rewrite E3, L1; congruence|].
    split; [rewrite E4, L2; congruence|].
    split; [rewrite E5; exact L3|].
    split; [lia|].
    split; [rewrite E7, E8, E3; congruence|].
    split; [exact E9|exact E10].
  - unfold setFees. cbn. rewrite Hi2, Hi1, Hfresh. discriminate.
Qed.

(** The same without assuming a fresh tool: whatever [buildInputs] did,
    the fee and the output are computed from the [txInfo] at hand. *)
Lemma buildTransaction_finalized t0 sw sa rw ra found addr t' b :
  buildTransaction t0 sw sa rw ra found addr = (t', Ok b) ->
  exists ti,
    txInfo t' = Some ti
    /\ recoveryTx t' = b
    /\ sourceCoin t' = sourceCoin t0
    /\ minerFee ti =
         feeRates (sourceCoin t0)
         * (P2SH_INPUT_SIZE * Z.of_nat (length (ins b)) + OUTPUT_SIZE + TX_OVERHEAD_SIZE)
    /\ outputAmount ti = inputAmount ti - minerFee ti
    /\ 0 < outputAmount ti
    /\ last (outs b) = Some (addr, outputAmount ti).
Proof.
  unfold buildTransaction.
  set (t1 := setWallet t0 (sourceCoin t0) sw sa).
  set (t2 := setWallet t1 (recoveryCoin t1) rw ra).
  destruct (setWallet_keeps t0 (sourceCoin t0) sw sa) as (Hs1 & _).
  destruct (setWallet_keeps t1 (recoveryCoin t1) rw ra) as (Hs2 & _).
  fold t1 in Hs1. fold t2 in Hs2.
  destruct (buildInputs (set_unspents t2 (Some found)) None) as [t3 [r|e]] eqn:Hin;
    [|discriminate].
  assert (Hc : sourceCoin t3 = sourceCoin t0).
  { unfold buildInputs in Hin. cbn [unspents set_unspents] in Hin.
    destruct (buildInputs_loop _ _ _ found _ _ _) as [bl [[til totl|]|e]];
      inversion Hin; subst; simpl; congruence. }
  destruct (setFees t3) as [t4 [fee|e]] eqn:Hfee; [|discriminate].
  destruct (buildOutputs t4 addr None None) as [t5 [[]|e]] eqn:Hout; [|discriminate].
  intros H; inversion H; subst t' b; clear H.
  destruct (setFees_buildOutputs_ok _ _ _ _ _ Hfee Hout)
    as (ti0 & ti & E0 & E1 & E2 & E3 & E4 & E5 & E6 & E7 & E8 & E9 & E10 & E11).
  exists ti. split; [exact E1|]. split; [reflexivity|].
  split; [congruence|].
  split; [rewrite E7, E8, E3; congruence|].
  split; [exact E9|]. split; [exact E10|].
  rewrite E4. apply last_snoc.
Qed.

End RecoveryFacts.

Example sample_build_result :
  snd RecoverySample.built
  = Ok {| ins := [ {| prev_hash := "aa"; prev_index := Some 0 |};
                   {| prev_hash := "bb"; prev_index := Some 1 |} ];
          outs := [("recovery-address"%string, 100000 - 20 * (295 * 2 + 34 + 10))] |}.
Proof. vm_compute. reflexivity. Qed.

(** ** The recovery transaction: conservation and fees *)

(** C3. Every transaction assembled by [buildTransaction] ([buildInputs],
    [setFees], then [buildOutputs] without an explicit amount) has
    [inputAmount = outputAmount + minerFee] and a positive [outputAmount]
    in its [txInfo], the single output carrying that amount; and
    [buildOutputs] throws "cannot pay its own fees" whenever the amount
    left after the fee is not positive. *)
Theorem buildTransaction_conservation {L : TxLibrary} :
  (forall t0 sw sa rw ra found addr t' b,
      buildTransaction t0 sw sa rw ra found addr = (t', Ok b) ->
      exists ti,
        txInfo t' = Some ti
        /\ inputAmount ti = outputAmount ti + minerFee ti
        /\ 0 < outputAmount ti
        /\ last (outs b) = Some (addr, outputAmount ti))
  /\ (forall t ti addr,
         txInfo t = Some ti ->
         inputAmount ti - minerFee ti <= 0 ->
         snd (buildOutputs t addr None None)
         = Throw (Error "This recovery transaction cannot pay its own fees. Aborting.")).
Proof.
  split.
  - intros t0 sw sa rw ra found addr t' b H.
    destruct (buildTransaction_finalized _ _ _ _ _ _ _ _ _ H)
      as (ti & E1 & _ & _ & _ & E5 & E6 & E7).
    exists ti. repeat split; auto. lia.
  - intros t ti addr Hti Hle. unfold buildOutputs. rewrite Hti. simpl.
    destruct (inputAmount ti - minerFee ti <=? 0) eqn:E; [reflexivity|].
    apply Z.leb_gt in E. lia.
Qed.

Lemma buildTransaction_conservation_witness :
  (exists ti,
      txInfo (fst RecoverySample.built) = Some ti
      /\ inputAmount ti = outputAmount ti + minerFee ti
      /\ 0 < outputAmount ti
      /\ last (outs {| ins := [ {| prev_hash := "aa"; prev_index := Some 0 |};
                                {| prev_hash := "bb"; prev_index := Some 1 |} ];
                       outs := [("recovery-address"%string, 87320)] |})
         = Some ("recovery-address"%string, outputAmount ti))
  /\ snd (@buildOutputs RecoverySample.lib
            (set_txInfo RecoverySample.tool
               (Some {| inputAmount := 5000; outputAmount := 0; spendAmount := 0;
                        inputs := []; outputs := []; externalOutputs := [];
                        changeOutputs := []; minerFee := 6780; payGoFee := 0;
                        ti_unspents := None |}))
            "recovery-address" None None)
     = Throw (Error "This recovery transaction cannot pay its own fees. Aborting.").
Proof.
  split.
  - apply (proj1 (@buildTransaction_conservation RecoverySample.lib)
             RecoverySample.tool RecoverySample.sourceWallet []
             RecoverySample.recoveryWallet RecoverySample.recoveryAddrs
             RecoverySample.found "recovery-address").
    vm_compute. reflexivity.
  - eapply (proj2 (@buildTransaction_conservation RecoverySample.lib)).
    + reflexivity.
    + simpl. lia.
Defined.

(** C8. [setFees] records [minerFee = feeRate * txSize] with
    [txSize = 295 * inputCount + 34 + 10], the fee rate being 20 for
    bch and tbch and 80 for btc and tbtc; in a transaction built by a tool
    fresh from its constructor, [inputCount] is the number of inputs of
    [txInfo]. *)
Theorem setFees_minerFee {L : TxLibrary} :
  (forall t ti,
      txInfo t = Some ti ->
      exists t' ti' fee,
        setFees t = (t', Ok fee)
        /\ txInfo t' = Some ti'
        /\ minerFee ti' = fee
        /\ fee = feeRates (sourceCoin t)
                 * (295 * Z.of_nat (length (ins (recoveryTx t))) + 34 + 10))
  /\ (forall src rec test t0 sw sa rw ra found addr t' b,
         CrossChainRecoveryTool src rec test = Ok t0 ->
         buildTransaction t0 sw sa rw ra found addr = (t', Ok b) ->
         exists ti,
           txInfo t' = Some ti
           /\ length (ins b) = length (inputs ti)
           /\ minerFee ti
              = feeRates (sourceCoin t0)
                * (295 * Z.of_nat (length (inputs ti)) + 34 + 10))
  /\ feeRates bch = 20 /\ feeRates tbch = 20
  /\ feeRates btc = 80 /\ feeRates tbtc = 80.
Proof.
  split; [|split].
  - intros t ti Hti. unfold setFees. rewrite Hti.
    do 3 eexists. split; [reflexivity|]. split; [reflexivity|]. split; reflexivity.
  - intros src rec test t0 sw sa rw ra found addr t' b Hnew Hrun.
    assert (Hfresh : txInfo t0 = None /\ ins (recoveryTx t0) = []).
    { unfold CrossChainRecoveryTool in Hnew.
      repeat match type of Hnew with
             | (if ?c then _ else _) = _ => destruct c; [discriminate|]
             | match ?c with Some _ => _ | None => _ end = _ => destruct c; [|discriminate]
             end.
      inversion Hnew; subst; simpl; auto. }
    destruct Hfresh as [Hf Hi].
    destruct (buildTransaction_ok _ _ _ _ _ _ _ _ _ Hf Hrun)
      as (ti & E1 & E2 & E3 & E4 & E5 & E6 & E7 & E8 & E9 & E10).
    exists ti. split; [exact E1|].
    assert (Hlen : length (ins b) = length (inputs ti)).
    { rewrite E4, Hi. simpl. rewrite length_map.
      rewrite <- E6 at 1. now rewrite length_map. }
    split; [exact Hlen|].
    rewrite E8, Hlen. reflexivity.
  - repeat split.
Qed.

Lemma setFees_minerFee_witness :
  exists ti,
    txInfo (fst RecoverySample.built) = Some ti
    /\ length (ins {| ins := [ {| prev_hash := "aa"; prev_index := Some 0 |};
                               {| prev_hash := "bb"; prev_index := Some 1 |} ];
                      outs := [("recovery-address"%string, 87320)] |})
       = length (inputs ti)
    /\ minerFee ti
       = feeRates (sourceCoin RecoverySample.tool)
         * (295 * Z.of_nat (length (inputs ti)) + 34 + 10).
Proof.
  apply (proj1 (proj2 (@setFees_minerFee RecoverySample.lib))
           "bch"%string "btc"%string false
           RecoverySample.tool RecoverySample.sourceWallet []
           RecoverySample.recoveryWallet RecoverySample.recoveryAddrs
           RecoverySample.found "recovery-address").
  - vm_compute. reflexivity.
  - vm_compute. reflexivity.
Defined.

(** ** Unspents on addresses without a record *)

(** Whatever the tool and the list: when one unspent is on an address that
    has no record, [buildInputs] does not produce a [txInfo]. *)
Lemma buildInputs_missing_record {L : TxLibrary} t us addrs u :
  addresses_dest t = Some addrs ->
  u ∈ us ->
  List.find (fun a => String.eqb (a_address a) (u_address u)) addrs = None ->
  forall ti, snd (buildInputs t (Some us)) <> Ok (Some ti).
Proof.
  intros Hd Hin Hf ti. unfold buildInputs.
  destruct (buildInputs_loop _ _ _ us _ _ _) as [b [[til totl|]|e]] eqn:Hloop;
    simpl; try discriminate.
  exfalso. eapply buildInputs_loop_missing in Hloop; eauto.
Qed.

(** C4. On the unspents [cc:0] (address [3Z], no record) and [aa:0]
    (address [3A], recorded), [buildInputs] returns [undefined] at the
    first one: [this.txInfo] is not set, no input is added for [aa:0],
    and [buildTransaction] then fails in [setFees]. The claim asks for the
    first unspent to be skipped and the second to be processed. *)
Theorem buildInputs_returns_at_missing_record :
  let t := set_unspents
             (setWallet
                (setWallet RecoverySample.tool bch RecoverySample.sourceWallet [])
                btc RecoverySample.recoveryWallet RecoverySample.recoveryAddrs)
             (Some RecoverySample.found_with_stranger) in
  snd (@buildInputs RecoverySample.lib t None) = Ok None
  /\ txInfo (fst (@buildInputs RecoverySample.lib t None)) = None
  /\ ins (recoveryTx (fst (@buildInputs RecoverySample.lib t None))) = []
  /\ snd RecoverySample.built_with_stranger
     = Throw (TypeError "Cannot set property 'minerFee' of undefined").
Proof. vm_compute. repeat split. Qed.

(** With the two unspents in the other order the recorded one is added to
    the builder before the loop is left, and still no [txInfo] results. *)
Example buildInputs_returns_after_partial_work :
  let t := set_unspents
             (setWallet
                (setWallet RecoverySample.tool bch RecoverySample.sourceWallet [])
                btc RecoverySample.recoveryWallet RecoverySample.recoveryAddrs)
             (Some (rev RecoverySample.found_with_stranger)) in
  snd (@buildInputs RecoverySample.lib t None) = Ok None
  /\ txInfo (fst (@buildInputs RecoverySample.lib t None)) = None
  /\ ins (recoveryTx (fst (@buildInputs RecoverySample.lib t None)))
     = [ {| prev_hash := "aa"; prev_index := Some 0 |} ].
Proof. vm_compute. repeat split. Qed.

(** ** No absolute band on the fee *)

(** The characters of a string are its bytes, in order; a character of
    ASCII that is no white space stays where it is. *)
Lemma bytes_cons ch l : JS.bytes (ch :: l) = (snd ch +:+ JS.bytes l)%string.
Proof. reflexivity. Qed.

Lemma chars_bytes_le n : forall s, (String.length s <= n)%nat -> JS.bytes (JS.chars s) = s.
Proof.
  induction n as [|n IH]; intros s Hs.
  - destruct s; [reflexivity|simpl in Hs; lia].
  - destruct s as [|a [|b [|c [|d r4]]]]; try reflexivity.
    + cbn [JS.chars]. destruct (JS.is_seq2 a b); reflexivity.
    + cbn [JS.chars]. destruct (JS.is_seq2 a b).
      * reflexivity.
      * destruct (JS.is_seq3 a b c); [reflexivity|].
        cbn [JS.bytes foldr snd]. destruct (JS.is_seq2 b c); reflexivity.
    + simpl in Hs.
      assert (H1 : JS.bytes (JS.chars (String b (String c (String d r4))))
                   = String b (String c (String d r4))) by (apply IH; simpl; lia).
      assert (H2 : JS.bytes (JS.chars (String c (String d r4))) = String c (String d r4))
        by (apply IH; simpl; lia).
      assert (H3 : JS.bytes (JS.chars (String d r4)) = String d r4)
        by (apply IH; simpl; lia).
      assert (H4 : JS.bytes (JS.chars r4) = r4) by (apply IH; simpl; lia).
      change (JS.chars (String a (String b (String c (String d r4)))))
        with (if JS.is_seq2 a b
              then (JS.code2 a b, String a (String b EmptyString))
                   :: JS.chars (String c (String d r4))
              else if JS.is_seq3 a b c
                   then (JS.code3 a b c, String a (String b (String c EmptyString)))
                        :: JS.chars (String d r4)
                   else if JS.is_seq4 a b c d
                        then (JS.code4 a b c d,
                              String a (String b (String c (String d EmptyString))))
                             :: JS.chars r4
                        else (N_of_ascii a, String a EmptyString)
                             :: JS.chars (String b (String c (String d r4)))).
      destruct (JS.is_seq2 a b); [|destruct (JS.is_seq3 a b c); [|destruct (JS.is_seq4 a b c d)]];
        rewrite bytes_cons; [rewrite H2|rewrite H3|rewrite H4|rewrite H1]; reflexivity.
Qed.

Lemma chars_bytes s : JS.bytes (JS.chars s) = s.
Proof. now apply (chars_bytes_le (String.length s)). Qed.

Lemma chars_ascii a t :
  (N_of_ascii a < 128)%N ->
  JS.chars (String a t) = (N_of_ascii a, String a EmptyString) :: JS.chars t.
Proof.
  intros Ha.
  assert (E2 : forall b, JS.is_seq2 a b = false).
  { intros b. unfold JS.is_seq2. replace (194 <=? N_of_ascii a)%N with false; [reflexivity|].
    symmetry. apply N.leb_gt. lia. }
  assert (E3 : forall b c, JS.is_seq3 a b c = false).
  { intros b c. unfold JS.is_seq3. replace (224 <=? N_of_ascii a)%N with false; [reflexivity|].
    symmetry. apply N.leb_gt. lia. }
  assert (E4 : forall b c d, JS.is_seq4 a b c d = false).
  { intros b c d. unfold JS.is_seq4.
    replace (240 <=? N_of_ascii a)%N with false; [reflexivity|].
    symmetry. apply N.leb_gt. lia. }
  destruct t as [|b [|c [|d r4]]]; cbn [JS.chars]; rewrite ?E2, ?E3, ?E4; reflexivity.
Qed.

Lemma ltrim_ascii a t :
  (N_of_ascii a < 128)%N -> JS.is_white (N_of_ascii a) = false ->
  JS.ltrim (String a t) = String a t.
Proof.
  intros Ha Hw. unfold JS.ltrim. rewrite chars_ascii by exact Ha.
  cbn [JS.drop_white fst]. rewrite Hw, bytes_cons, chars_bytes. reflexivity.
Qed.

(** Decimal numerals read back by [parseInt]. *)
Lemma digit_of_pretty_N_char d :
  (d < 10)%N -> JS.digit_of (pretty_N_char d) = Some (Z.of_N d).
Proof.
  intros H.
  assert (E : (d = 0 \/ d = 1 \/ d = 2 \/ d = 3 \/ d = 4 \/ d = 5 \/ d = 6
               \/ d = 7 \/ d = 8 \/ d = 9)%N) by lia.
  repeat (destruct E as [->|E]; [reflexivity|]). subst d. reflexivity.
Qed.

Lemma parseInt_digit d t :
  (d < 10)%N ->
  JS.parseInt (String (pretty_N_char d) t) = JS.digits (String (pretty_N_char d) t) None.
Proof.
  intros H.
  assert (E : (d = 0 \/ d = 1 \/ d = 2 \/ d = 3 \/ d = 4 \/ d = 5 \/ d = 6
               \/ d = 7 \/ d = 8 \/ d = 9)%N) by lia.
  unfold JS.parseInt.
  repeat (destruct E as [->|E]; [rewrite ltrim_ascii by reflexivity; reflexivity|]).
  subst d. rewrite ltrim_ascii by reflexivity. reflexivity.
Qed.

Lemma pretty_N_go_head x :
  forall s, (0 < x)%N ->
  exists d t, (d < 10)%N /\ pretty_N_go x s = String (pretty_N_char d) t.
Proof.
  induction (N.lt_wf_0 x) as [x _ IH]. intros s Hx.
  rewrite pretty_N_go_step by exact Hx.
  destruct (decide (x `div` 10 = 0)%N) as [E|E].
  - rewrite E, pretty_N_go_0. eexists _, _. split; [|reflexivity].
    now apply N.mod_lt.
  - apply IH; [apply N.div_lt; lia|now apply N.neq_0_lt_0].
Qed.

Lemma digits_pretty_N_go x :
  forall s, (0 < x)%N ->
  JS.digits (pretty_N_go x s) None = JS.digits s (Some (Z.of_N x)).
Proof.
  induction (N.lt_wf_0 x) as [x _ IH]. intros s Hx.
  rewrite pretty_N_go_step by exact Hx.
  assert (Hd : JS.digit_of (pretty_N_char (x `mod` 10)) = Some (Z.of_N (x `mod` 10)))
    by (apply digit_of_pretty_N_char; now apply N.mod_lt).
  pose proof (N.div_mod x 10 ltac:(lia)) as Hdm.
  destruct (decide (x `div` 10 = 0)%N) as [E|E].
  - rewrite E, pretty_N_go_0. simpl. rewrite Hd. simpl. do 2 f_equal. lia.
  - rewrite IH; [|apply N.div_lt; lia|now apply N.neq_0_lt_0].
    simpl. rewrite Hd. simpl.
    do 2 f_equal. lia.
Qed.

Lemma parseInt_pretty_nat j : JS.parseInt (pretty (Z.of_nat j)) = Some (Z.of_nat j).
Proof.
  destruct j as [|j]; [reflexivity|].
  change (Z.of_nat (S j)) with (Z.pos (Pos.of_succ_nat j)).
  unfold pretty at 1, pretty_Z, pretty at 1, pretty_positive, pretty at 1, pretty_N.
  rewrite decide_False by discriminate.
  destruct (pretty_N_go_head (N.pos (Pos.of_succ_nat j)) "" ltac:(lia))
    as (d & t & Hd & E).
  rewrite E, parseInt_digit by exact Hd. rewrite <- E.
  rewrite digits_pretty_N_go by lia. reflexivity.
Qed.

Lemma split_on_pretty_N_go x :
  forall s hd tl,
    JS.split_on ":" s = hd :: tl ->
    JS.split_on ":" (pretty_N_go x s) = pretty_N_go x hd :: tl.
Proof.
  induction (N.lt_wf_0 x) as [x _ IH]. intros s hd tl Hs.
  destruct (decide (x = 0)%N) as [->|Hx]; [now rewrite !pretty_N_go_0|].
  rewrite !(pretty_N_go_step x) by lia.
  apply IH; [apply N.div_lt; lia|].
  simpl. rewrite Hs.
  assert (Hc : Ascii.eqb (pretty_N_char (x `mod` 10)) ":" = false)
    by (unfold pretty_N_char; repeat case_match; reflexivity).
  now rewrite Hc.
Qed.

Lemma outpoint_output j :
  outpoint (RecoverySample.sweep_tx +:+ ":" +:+ pretty (Z.of_nat j))
  = {| prev_hash := RecoverySample.sweep_tx; prev_index := Some (Z.of_nat j) |}.
Proof.
  assert (Hs : JS.split_on ":" (pretty (Z.of_nat j)) = [pretty (Z.of_nat j)]).
  { destruct j as [|j]; [reflexivity|].
    change (Z.of_nat (S j)) with (Z.pos (Pos.of_succ_nat j)).
    unfold pretty, pretty_Z, pretty, pretty_positive, pretty, pretty_N.
    rewrite decide_False by discriminate.
    now apply split_on_pretty_N_go. }
  assert (Hp : forall s, JS.split_on ":" (RecoverySample.sweep_tx +:+ ":" +:+ s)
                         = RecoverySample.sweep_tx :: JS.split_on ":" s)
    by reflexivity.
  unfold outpoint. rewrite Hp, Hs. cbv beta iota. now rewrite parseInt_pretty_nat.
Qed.

(** The sample builder takes the unspents of a list whose outpoints all
    have an output number, are different from one another and are not
    spent yet. *)
Lemma buildInputs_loop_distinct noSegwit addrs w us :
  Forall (fun u => (JS.truthy_str (u_witnessScript u) && noSegwit)%bool = false
                   /\ is_Some (List.find (fun a => String.eqb (a_address a) (u_address u))
                                 addrs)
                   /\ is_Some (prev_index (outpoint (u_id u)))) us ->
  NoDup ((fun u => outpoint (u_id u)) <$> us) ->
  forall b ti tot,
    (forall u, u ∈ us -> outpoint (u_id u) ∉ ins b) ->
    exists b' ti' tot',
      @buildInputs_loop RecoverySample.lib noSegwit (Some addrs) (Some w) us b ti tot
      = (b', Ok (Finished ti' tot')).
Proof.
  induction us as [|u us IH]; intros Hall Hnd b ti tot Hfresh; simpl.
  - eauto.
  - apply Forall_cons in Hall as [(Hw & [a Ha] & Hidx) Hall].
    rewrite fmap_cons in Hnd. apply NoDup_cons in Hnd as [Hu Hnd].
    rewrite Hw, Ha.
    rewrite bool_decide_eq_true_2 by exact Hidx.
    rewrite bool_decide_eq_false_2 by (apply Hfresh, list_elem_of_here).
    simpl. apply IH; [exact Hall|exact Hnd|].
    intros u' Hu'. cbn [ins]. rewrite elem_of_app, list_elem_of_singleton.
    intros [Hin|Heq].
    + revert Hin. apply Hfresh. now apply list_elem_of_further.
    + apply Hu. rewrite <- Heq. apply list_elem_of_fmap. eauto.
Qed.

Lemma sum_values_sweep k : sum_values (RecoverySample.sweep k) = 10000 * Z.of_nat k.
Proof.
  unfold RecoverySample.sweep. generalize 0%nat.
  induction k as [|k IH]; intros j0; simpl; [reflexivity|]. rewrite IH. lia.
Qed.

(** C5, as stated, fails: no pair of bounds holds for every transaction
    the tool builds. Sweeping enough outputs of 10000 satoshis each of
    one transaction makes the fee exceed any proposed upper bound, and
    the transaction is built. *)
Lemma fee_band_not_enforced :
  ~ exists lo hi, @fee_band_enforced RecoverySample.lib lo hi.
Proof.
  intros (lo & hi & Hband).
  set (k := S (Z.to_nat (Z.max 0 (hi bch)))).
  assert (Hk : hi bch < Z.of_nat k /\ 1 <= Z.of_nat k) by (unfold k; lia).
  clearbody k.
  assert (Ht : RecoverySample.tool
               = {| sourceCoin := bch; recoveryCoin := btc;
                    wallets_source := None; wallets_dest := None;
                    addresses_source := None; addresses_dest := None;
                    unspents := None; recoveryTx := {| ins := []; outs := [] |};
                    txInfo := None |}) by reflexivity.
  destruct (buildInputs_loop_distinct true RecoverySample.recoveryAddrs
              RecoverySample.recoveryWallet (RecoverySample.sweep k))
    with (b := {| ins := []; outs := [] |}) (ti := empty_txInfo) (tot := 0)
    as (b' & ti' & tot' & Hloop).
  { apply Forall_forall. intros u Hu.
    apply list_elem_of_fmap in Hu as (j & -> & _). cbn [u_witnessScript u_address u_id].
    split; [reflexivity|]. split; [eexists; reflexivity|].
    rewrite outpoint_output. eexists. reflexivity. }
  { unfold RecoverySample.sweep. rewrite <- list_fmap_compose.
    apply NoDup_fmap_2; [|apply NoDup_seq].
    intros i j E. unfold compose in E. cbn [u_id] in E.
    rewrite !outpoint_output in E. inversion E. lia. }
  { intros u _. cbn [ins]. apply not_elem_of_nil. }
  pose proof (@buildInputs_loop_finished RecoverySample.lib _ _ _ _ _ _ _ _ _ _ Hloop)
    as (L1 & L2 & L3 & L4 & L5 & L6 & L7 & L8).
  simpl in L1, L2, L4. rewrite sum_values_sweep in L4.
  assert (Hlen : length (ins b') = k).
  { rewrite L1, length_map. unfold RecoverySample.sweep.
    now rewrite length_fmap, length_seq. }
  assert (Hrun : exists t' b ti,
             @buildTransaction RecoverySample.lib RecoverySample.tool
               RecoverySample.sourceWallet [] RecoverySample.recoveryWallet
               RecoverySample.recoveryAddrs (RecoverySample.sweep k)
               "recovery-address" = (t', Ok b)
             /\ txInfo t' = Some ti
             /\ minerFee ti = 20 * (295 * Z.of_nat k + 34 + 10)).
  { rewrite Ht. unfold buildTransaction, buildInputs, setWallet.
    cbn -[buildInputs_loop RecoverySample.sweep].
    rewrite Hloop. unfold setFees, buildOutputs. cbn -[Z.mul Z.add Z.sub Z.leb].
    rewrite Hlen, L4. unfold P2SH_INPUT_SIZE, OUTPUT_SIZE, TX_OVERHEAD_SIZE.
    destruct (0 + 10000 * Z.of_nat k - 20 * (295 * Z.of_nat k + 34 + 10) <=? 0) eqn:E.
    { apply Z.leb_le in E. lia. }
    rewrite L2. cbn -[Z.mul Z.add Z.sub Z.leb].
    assert (Ho : (0 <=? 0 + 10000 * Z.of_nat k - 20 * (295 * Z.of_nat k + 34 + 10)) = true)
      by (apply Z.leb_le; apply Z.leb_gt in E; lia).
    rewrite ?Ho. cbn -[Z.mul Z.add Z.sub Z.leb].
    do 3 eexists. split; [reflexivity|]. split; reflexivity. }
  destruct Hrun as (t' & b & ti & Hrun & Hti & Hfee).
  specialize (Hband RecoverySample.tool _ _ _ _ _ _ t' b ti eq_refl Hrun Hti).
  rewrite Ht in Hband. simpl in Hband. rewrite Hfee in Hband. lia.
Qed.

(** C5, amended. A transaction is built only when its fee is strictly
    below the total of its inputs: [buildOutputs] throws when the fee
    leaves nothing to pay out. The fee of a built transaction is
    [feeRate * (295 * inputCount + 34 + 10)], hence at least
    [44 * feeRate]; built by a tool that had no [txInfo] before, as the
    constructor leaves it, the transaction has at least one input and
    the fee is at least [339 * feeRate]. *)
Theorem fee_below_input_total {L : TxLibrary} :
  (forall t0 sw sa rw ra found addr t' b,
      buildTransaction t0 sw sa rw ra found addr = (t', Ok b) ->
      exists ti,
        txInfo t' = Some ti
        /\ minerFee ti
           = feeRates (sourceCoin t0) * (295 * Z.of_nat (length (ins b)) + 34 + 10)
        /\ 44 * feeRates (sourceCoin t0) <= minerFee ti < inputAmount ti
        /\ (txInfo t0 = None ->
            (1 <= length (ins b))%nat
            /\ 339 * feeRates (sourceCoin t0) <= minerFee ti))
  /\ (forall t ti addr,
         txInfo t = Some ti ->
         inputAmount ti <= minerFee ti ->
         exists e, snd (buildOutputs t addr None None) = Throw e).
Proof.
  split.
  - intros t0 sw sa rw ra found addr t' b H.
    destruct (buildTransaction_finalized _ _ _ _ _ _ _ _ _ H)
      as (ti & E1 & _ & _ & E4 & E5 & E6 & _).
    exists ti. split; [exact E1|]. split; [exact E4|].
    unfold P2SH_INPUT_SIZE, OUTPUT_SIZE, TX_OVERHEAD_SIZE in *.
    assert (Hrate : 0 < feeRates (sourceCoin t0)) by (destruct (sourceCoin t0); simpl; lia).
    split; [rewrite E4; split; [nia|lia]|].
    intros Hfresh.
    destruct (buildTransaction_ok _ _ _ _ _ _ _ _ _ Hfresh H)
      as (ti' & F1 & _ & _ & F4 & _ & _ & F7 & _).
    rewrite E1 in F1. inversion F1; subst ti'; clear F1.
    assert (Hne : found <> []).
    { intros ->. simpl in F7. nia. }
    assert (Hlen : (1 <= length (ins b))%nat).
    { rewrite F4, length_app, length_map. destruct found; [contradiction|simpl; lia]. }
    split; [exact Hlen|]. rewrite E4. nia.
  - intros t ti addr Hti Hle. unfold buildOutputs. rewrite Hti. simpl.
    destruct (inputAmount ti - minerFee ti <=? 0) eqn:E; [eauto|].
    apply Z.leb_gt in E. lia.
Qed.

Lemma fee_below_input_total_witness :
  (exists ti,
      txInfo (fst RecoverySample.built) = Some ti
      /\ minerFee ti
         = feeRates (sourceCoin RecoverySample.tool)
           * (295 * Z.of_nat (length
                (ins {| ins := [ {| prev_hash := "aa"; prev_index := Some 0 |};
                                 {| prev_hash := "bb"; prev_index := Some 1 |} ];
                        outs := [("recovery-address"%string, 87320)] |})) + 34 + 10)
      /\ 44 * feeRates (sourceCoin RecoverySample.tool) <= minerFee ti < inputAmount ti
      /\ (txInfo RecoverySample.tool = None ->
          Nat.le 1 (length
                  (ins {| ins := [ {| prev_hash := "aa"; prev_index := Some 0 |};
                                   {| prev_hash := "bb"; prev_index := Some 1 |} ];
                          outs := [("recovery-address"%string, 87320)] |}))
          /\ 339 * feeRates (sourceCoin RecoverySample.tool) <= minerFee ti))
  /\ exists e,
      snd (@buildOutputs RecoverySample.lib
             (set_txInfo RecoverySample.tool
                (Some {| inputAmount := 6780; outputAmount := 0; spendAmount := 0;
                         inputs := []; outputs := []; externalOutputs := [];
                         changeOutputs := []; minerFee := 6780; payGoFee := 0;
                         ti_unspents := None |}))
             "recovery-address" None None) = Throw e.
Proof.
  split.
  - apply (proj1 (@fee_below_input_total RecoverySample.lib)
             RecoverySample.tool RecoverySample.sourceWallet []
             RecoverySample.recoveryWallet RecoverySample.recoveryAddrs
             RecoverySample.found "recovery-address").
    vm_compute. reflexivity.
  - eapply (proj2 (@fee_below_input_total RecoverySample.lib)).
    + reflexivity.
    + simpl. lia.
Defined.

(** ** Handler steps *)

Import Bgcl.

Section HandlerFacts.
Context {C : Crypto} {K : JS.Coercion}.

Lemma bind_done {A B} (c : M A) (f : A -> M B) w b w' :
  (c ≫= f) w = Done b w' <-> exists a w1, c w = Done a w1 /\ f a w1 = Done b w'.
Proof.
  unfold mbind, M_bind. split.
  - destruct (c w) as [a w1| |]; try discriminate. eauto.
  - intros (a & w1 & -> & H). exact H.
Qed.

Lemma generate_keys_indices indices :
  forall w keys w',
    generate_keys indices w = Done keys w' ->
    index <$> keys = indices /\ files w' = files w /\ input w' = input w.
Proof.
  induction indices as [|idx rest IH]; intros w keys w' H; simpl in H.
  - inversion H; subst. auto.
  - apply bind_done in H as (params & w1 & H1 & H).
    inversion H1; subst w1 params; clear H1.
    apply bind_done in H as (key & w2 & H2 & H).
    apply bind_done in H as (records & w3 & H3 & H).
    inversion H; subst; clear H.
    apply IH in H3 as (E1 & E2 & E3).
    unfold with_rng in H2. destruct (genSplitKey _ _) as [[a r]|e]; [|discriminate].
    inversion H2; subst; clear H2. simpl in *.
    repeat split; congruence.
Qed.

Lemma range0_counts e indices :
  range0 e = Ok indices -> indices = Z.of_nat <$> seq 0 (length indices).
Proof.
  unfold range0. destruct (range_length e) as [len|]; [|discriminate].
  intros H; inversion H; subst. now rewrite length_fmap, length_seq.
Qed.

(** In a list whose [index] fields count up from [p], selecting by
    position and selecting by field are the same. *)
Lemma select_positions_by_index keys :
  forall (p : nat) indices,
    index <$> keys = Z.of_nat <$> seq p (length keys) ->
    select_positions (Z.of_nat p) keys indices
    = filter (fun key => index key ∈ indices) keys.
Proof.
  induction keys as [|key keys IH]; intros p indices H; simpl in *; [reflexivity|].
  inversion H as [[H1 H2]].
  assert (E : Z.of_nat p + 1 = Z.of_nat (S p)) by lia.
  rewrite filter_cons, H1, E.
  destruct (decide (Z.of_nat p ∈ indices)) as [Hin|Hin].
  - rewrite bool_decide_eq_true_2 by exact Hin. f_equal. now apply IH.
  - rewrite bool_decide_eq_false_2 by exact Hin. now apply IH.
Qed.

Lemma getVariable_set name required d w :
  JS.truthy (input w !! name) = true ->
  getVariable name required d w = Done tt w.
Proof.
  intros H. unfold getVariable, get_field, mbind, M_bind. now rewrite H.
Qed.

Lemma recoverKeys_indices verifyonly passwords keys :
  forall recovered,
    recoverKeys verifyonly passwords keys = Ok recovered ->
    Forall2 (fun key r => r_index r = index key
                          /\ (verifyonly = false -> r_xpub r = xpub key /\ is_Some (r_xprv r)))
            keys recovered.
Proof.
  induction keys as [|key keys IH]; intros recovered H; simpl in H.
  - inversion H. constructor.
  - destruct (recoverKey verifyonly passwords key) as [r|] eqn:Hr; [|discriminate].
    destruct (recoverKeys verifyonly passwords keys) as [rs|]; [|discriminate].
    inversion H; subst. constructor; [|now apply IH].
    unfold recoverKey in Hr.
    destruct (decrypt_shares key passwords) as [shares|]; [|discriminate].
    destruct (match shares with [share] => Some share | _ => secrets_combine shares end)
      as [sd|]; [|discriminate].
    destruct (fromSeedHex sd) as [[xpub' xprv']|]; [|discriminate].
    destruct verifyonly; simpl in Hr.
    + inversion Hr; subst; simpl. split; [reflexivity|discriminate].
    + destruct (String.eqb xpub' (xpub key)) eqn:E; simpl in Hr; [|discriminate].
      apply String.eqb_eq in E. inversion Hr; subst; simpl. eauto.
Qed.

Lemma uniq_NoDup l : NoDup (uniq l).
Proof.
  unfold uniq.
  assert (G : forall acc, NoDup acc ->
            NoDup (foldl (fun acc x => if bool_decide (x ∈ acc) then acc else acc ++ [x]) acc l)).
  { induction l as [|x l IH]; intros acc Hacc; simpl; [exact Hacc|].
    apply IH. destruct (decide (x ∈ acc)) as [Hin|Hin].
    - now rewrite bool_decide_eq_true_2.
    - rewrite bool_decide_eq_false_2 by exact Hin.
      apply NoDup_app. split; [exact Hacc|]. split.
      + intros y Hy Hy'. apply list_elem_of_singleton in Hy'. subst. contradiction.
      + apply NoDup_singleton. }
  apply G. constructor.
Qed.

(** The parsed indices are in strictly ascending order. *)
Lemma parse_indices_sorted ks : StronglySorted Z.lt (parse_indices ks).
Proof.
  unfold parse_indices, sort_numeric.
  set (l := uniq _).
  assert (Hs : StronglySorted Z.le (merge_sort Z.le l)).
  { apply StronglySorted_merge_sort; apply _. }
  assert (Hn : NoDup (merge_sort Z.le l)).
  { rewrite merge_sort_Permutation. apply uniq_NoDup. }
  induction Hs as [|x xs Hxs IH Hall]; [constructor|].
  apply NoDup_cons in Hn as [Hx Hn].
  constructor; [now apply IH|].
  apply Forall_forall. intros y Hy.
  rewrite Forall_forall in Hall. specialize (Hall y Hy).
  assert (x <> y) by (intros ->; contradiction). lia.
Qed.

Lemma filter_ext_elem {A} (P Q : A -> Prop) `{!forall x, Decision (P x)}
    `{!forall x, Decision (Q x)} (xs : list A) :
  (forall x, x ∈ xs -> (P x <-> Q x)) -> filter P xs = filter Q xs.
Proof.
  induction xs as [|x xs IH]; intros Heq; [reflexivity|].
  rewrite !filter_cons.
  assert (Hx : P x <-> Q x) by (apply Heq; apply list_elem_of_here).
  assert (Hxs : filter P xs = filter Q xs).
  { apply IH. intros y Hy. apply Heq. now apply list_elem_of_further. }
  destruct (decide (P x)), (decide (Q x)); try tauto; now rewrite Hxs.
Qed.

(** Filtering the positions [p .. p + len - 1] by membership in a
    strictly ascending list of positions of that range gives the list
    back. *)
Lemma filter_positions len :
  forall (p : nat) (l : list Z),
    StronglySorted Z.lt l ->
    Forall (fun x => Z.of_nat p <= x < Z.of_nat (p + len)) l ->
    filter (fun x => x ∈ l) (Z.of_nat <$> seq p len) = l.
Proof.
  induction len as [|len IH]; intros p l Hs Hr; simpl.
  - destruct l as [|x l]; [reflexivity|]. inversion Hr; subst. lia.
  - rewrite filter_cons.
    destruct l as [|x l].
    + rewrite decide_False by (apply not_elem_of_nil).
      apply (IH (S p) []); constructor.
    + inversion Hs as [|? ? Hs' Hlt]; subst. inversion Hr as [|? ? Hx Hr']; subst.
      rewrite Forall_forall in Hlt, Hr'.
      destruct (decide (x = Z.of_nat p)) as [->|Hne].
      * rewrite decide_True by (apply list_elem_of_here). f_equal.
        transitivity (filter (fun y => y ∈ l) (Z.of_nat <$> seq (S p) len)).
        -- apply filter_ext_elem. intros y Hy.
           apply list_elem_of_fmap in Hy as (k & -> & Hk).
           apply elem_of_seq in Hk.
           split; [|apply list_elem_of_further].
           intros Hin. apply elem_of_cons in Hin as [Heq|Hin]; [lia|exact Hin].
        -- apply IH; [exact Hs'|].
           apply Forall_forall. intros y Hy.
           specialize (Hlt y Hy). specialize (Hr' y Hy). lia.
      * rewrite decide_False.
        -- apply IH; [exact Hs|].
           constructor; [lia|]. apply Forall_forall. intros y Hy.
           specialize (Hlt y Hy). specialize (Hr' y Hy). lia.
        -- intros Hin. apply elem_of_cons in Hin as [Heq|Hin]; [lia|].
           specialize (Hlt _ Hin). lia.
Qed.

End HandlerFacts.

(** ** The batch file: index fields and positions *)

Section BatchFile.
Context {C : Crypto} {K : JS.Coercion}.

Lemma append_inj_r (p a b : string) : p +:+ a = p +:+ b -> a = b.
Proof. induction p as [|c p IH]; simpl; intros H; [exact H|]. inversion H. auto. Qed.

(** What a finished [handleSplitKeys] wrote. *)
Lemma handleSplitKeys_done args w keys w' :
  handleSplitKeys args w = Done keys w' ->
  exists prefix nkeys len,
    files w' !! (prefix +:+ ".json") = Some (KeysJson keys)
    /\ range_length nkeys = Ok len
    /\ index <$> keys = Z.of_nat <$> seq 0 len.
Proof.
  unfold handleSplitKeys. intros H.
  repeat (apply bind_done in H as (? & ? & ? & H)).
  destruct (range0 _) as [indices|e] eqn:Hrange; [|discriminate].
  match goal with H : get_field "nkeys" _ = _ |- _ => rename H into Hn end.
  repeat (apply bind_done in H as (? & ? & ? & H)).
  inversion H; subst; clear H.
  match goal with H : generate_keys _ _ = _ |- _ => apply generate_keys_indices in H as (E1 & E2 & E3) end.
  unfold range0 in Hrange. destruct (range_length _) as [len|] eqn:Hlen; [|discriminate].
  inversion Hrange; subst indices; clear Hrange.
  match goal with H : get_field "prefix" _ = _ |- _ => inversion H; subst; clear H end.
  repeat match goal with H : write_file _ _ _ = _ |- _ => inversion H; subst; clear H end.
  simpl. eexists _, _, len. split; [|split; [exact Hlen|congruence]].
  rewrite lookup_insert_ne.
  - apply lookup_insert_eq.
  - intros Heq. apply append_inj_r in Heq. discriminate.
Qed.

Lemma recover_fields name ks :
  let fields := fields_of [("file", Some name); ("keys", Some ks)]%string in
  fields !! "file" = Some (JS.VStr name) /\ fields !! "keys" = Some (JS.VStr ks).
Proof.
  unfold fields_of. simpl. split.
  - apply lookup_insert_eq.
  - rewrite lookup_insert_ne by discriminate. apply lookup_insert_eq.
Qed.

Lemma truthy_nonempty s : s <> ""%string -> JS.truthy (Some (JS.VStr s)) = true.
Proof. intros H. simpl. destruct s; [contradiction|reflexivity]. Qed.

(** [handleRecoverKeys] with both arguments given on the command line:
    the records handed to [recoverKeys] are those at the parsed
    positions of the file. *)
Lemma handleRecoverKeys_done verifyonly name ks w keys recovered w' :
  name <> ""%string -> ks <> ""%string ->
  files w !! name = Some (KeysJson keys) ->
  handleRecoverKeys {| arg_verifyonly := verifyonly; arg_file := Some name;
                       arg_keys := Some ks |} w = Done recovered w' ->
  exists passwords,
    recoverKeys verifyonly passwords (select_positions 0 keys (parse_indices ks))
    = Ok recovered
    /\ Forall (fun x => 0 <= x < Z.of_nat (length keys)) (parse_indices ks).
Proof.
  intros Hname Hks Hfile. unfold handleRecoverKeys. cbn [arg_file arg_keys arg_verifyonly].
  destruct (recover_fields name ks) as [Ff Fk].
  intros H.
  apply bind_done in H as ([] & w1 & H1 & H).
  inversion H1; subst w1; clear H1.
  rewrite bind_done in H. destruct H as ([] & w1 & H1 & H).
  rewrite getVariable_set in H1 by (cbn [input]; rewrite Ff; now apply truthy_nonempty).
  inversion H1; subst w1; clear H1.
  rewrite bind_done in H. destruct H as ([] & w1 & H1 & H).
  rewrite getVariable_set in H1 by (cbn [input]; rewrite Fk; now apply truthy_nonempty).
  inversion H1; subst w1; clear H1.
  unfold get_field, read_keys, mbind, M_bind in H. cbn [input files] in H.
  rewrite Ff in H. cbn [to_string] in H. rewrite Hfile in H. cbn [input] in H.
  rewrite Fk in H. cbn [to_string] in H.
  pose proof (parse_indices_sorted ks) as Hsorted.
  destruct (parse_indices ks) as [|first rest] eqn:Hind; [discriminate|].
  destruct ((first <? 0) || _)%bool eqn:Hrange; [discriminate|].
  apply orb_false_iff in Hrange as [Hlo Hhi].
  apply Z.ltb_ge in Hlo. rewrite Z.geb_leb in Hhi. apply Z.leb_gt in Hhi.
  destruct (select_positions 0 keys (first :: rest)) as [|firstKey others] eqn:Hsel;
    [discriminate|].
  match type of H with
  | match ?c with _ => _ end = _ => destruct c as [passwords w2| |] eqn:Hpw; try discriminate
  end.
  destruct (recoverKeys verifyonly passwords (firstKey :: others)) as [rs|] eqn:Hrec;
    [|discriminate].
  inversion H; subst; clear H.
  exists passwords. split; [exact Hrec|].
  (* the smallest index is not negative, the largest is below the length *)
  destruct (last (first :: rest)) as [x|] eqn:Hl;
    [|apply last_None in Hl; discriminate].
  pose proof Hl as E. apply last_Some in E as [l E]. simpl in Hhi.
  apply Forall_forall. intros y Hy.
  inversion Hsorted as [|? ? Hs' Hlt]; subst.
  rewrite Forall_forall in Hlt.
  assert (Hge : first <= y).
  { apply elem_of_cons in Hy as [->|Hy]; [lia|]. specialize (Hlt y Hy). lia. }
  split; [lia|].
  rewrite E in Hsorted, Hy.
  apply StronglySorted_app in Hsorted as (Hcross & _ & _).
  apply elem_of_app in Hy as [Hy|Hy].
  - specialize (Hcross y x Hy (list_elem_of_here _ _)). lia.
  - apply list_elem_of_singleton in Hy. lia.
Qed.

Lemma index_filter (l : list Z) (keys : list SplitKeyRecord) :
  index <$> filter (fun key => index key ∈ l) keys
  = filter (fun x => x ∈ l) (index <$> keys).
Proof.
  induction keys as [|key keys IH]; [reflexivity|].
  rewrite fmap_cons, !filter_cons.
  destruct (decide (index key ∈ l)); [rewrite fmap_cons|]; now rewrite IH.
Qed.

End BatchFile.

(** ** Validation of the split parameters *)

Section SplitParameters.
Context {C : Crypto} {K : JS.Coercion}.

Lemma preserves_ret {A} k (a : A) : preserves k (mret a).
Proof. intros w b w' H. inversion H; subst. reflexivity. Qed.

Lemma preserves_bind {A B} k (c : M A) (f : A -> M B) :
  preserves k c -> (forall a, preserves k (f a)) -> preserves k (c ≫= f).
Proof.
  intros Hc Hf w b w' H. apply bind_done in H as (a & w1 & H1 & H2).
  rewrite (Hf a _ _ _ H2). exact (Hc _ _ _ H1).
Qed.

Lemma preserves_get k name : preserves k (get_field name).
Proof. intros w a w' H. inversion H; subst. reflexivity. Qed.

Lemma preserves_set k name v : k <> name -> preserves k (set_field name v).
Proof.
  intros Hne w a w' H. inversion H; subst. simpl. now apply lookup_insert_ne.
Qed.

Lemma preserves_delete k name : k <> name -> preserves k (delete_field name).
Proof.
  intros Hne w a w' H. inversion H; subst. simpl. now apply lookup_delete_ne.
Qed.

Lemma preserves_prompt k required : preserves k (prompt required).
Proof.
  intros w a w' H. unfold prompt in H.
  destruct (read_line required (stdin w)) as [[line rest]|]; inversion H; subst.
  reflexivity.
Qed.

Lemma preserves_promptPassword k allowBlank : preserves k (promptPassword allowBlank).
Proof.
  intros w a w' H. unfold promptPassword in H.
  destruct (read_password allowBlank (stdin w)) as [[pw rest]|]; inversion H; subst.
  reflexivity.
Qed.

Lemma preserves_getVariable k name required d :
  k <> name -> preserves k (getVariable name required d).
Proof.
  intros Hne. unfold getVariable.
  apply preserves_bind; [apply preserves_get|]. intros cur.
  destruct (JS.truthy cur); [apply preserves_ret|].
  apply preserves_bind.
  - destruct (_ || _)%bool; [apply preserves_promptPassword|apply preserves_prompt].
  - intros value. now apply preserves_set.
Qed.

Lemma preserves_getPassword k name confirm :
  k <> name -> preserves k (getPassword name confirm).
Proof.
  intros Hne.
  assert (G : forall fuel, preserves k (getPassword_rounds fuel name confirm)).
  { induction fuel as [|fuel IH]; simpl; [intros w a w' H; discriminate|].
    apply preserves_bind; [apply preserves_get|]. intros cur.
    destruct (JS.truthy cur); [apply preserves_ret|].
    apply preserves_bind; [apply preserves_promptPassword|]. intros pw.
    apply preserves_bind.
    - destruct confirm; [|apply preserves_ret].
      apply preserves_bind; [apply preserves_promptPassword|].
      intros c. apply preserves_ret.
    - intros confirmation. destruct (_ && _)%bool; [exact IH|now apply preserves_set]. }
  intros w a w' H. exact (G _ _ _ _ H).
Qed.

Lemma preserves_getIntVariable k name required min max :
  k <> name -> preserves k (getIntVariable name required min max).
Proof.
  intros Hne.
  assert (G : forall fuel, preserves k (getIntVariable_rounds fuel name required min max)).
  { induction fuel as [|fuel IH]; simpl; [intros w a w' H; discriminate|].
    apply preserves_bind; [now apply preserves_getVariable|]. intros [].
    apply preserves_bind; [apply preserves_get|]. intros cur.
    destruct (check_int cur min max); [|now apply preserves_set].
    apply preserves_bind; [now apply preserves_delete|]. intros [].
    destruct required; [exact IH|apply preserves_ret]. }
  intros w a w' H. exact (G _ _ _ _ H).
Qed.

Lemma password_name_not k i :
  (forall s, k <> ("password" +:+ s)%string) -> k <> password_name i.
Proof. intros H. apply H. Qed.

Lemma preserves_getSharePasswords k n :
  (forall s, k <> ("password" +:+ s)%string) ->
  forall fuel i, preserves k (getSharePasswords fuel i n).
Proof.
  intros Hk. induction fuel as [|fuel IH]; intros i; simpl;
    [intros w a w' H; discriminate|].
  destruct (is_num n i); [apply preserves_ret|].
  apply preserves_bind; [apply preserves_getPassword, password_name_not, Hk|].
  intros []. apply IH.
Qed.

Lemma check_int_inr cur min max v :
  check_int cur min (Some max) = inr v -> min <= v <= max.
Proof.
  unfold check_int. destruct (JS.parseInt_value cur) as [value|]; [|discriminate].
  destruct (negb _); [discriminate|].
  destruct (value <? min) eqn:E1; [discriminate|].
  destruct (value >? max) eqn:E2; [discriminate|].
  intros H; inversion H; subst. apply Z.ltb_ge in E1.
  rewrite Z.gtb_ltb in E2. apply Z.ltb_ge in E2. lia.
Qed.

(** A required integer, once [getIntVariable] returns, is a number
    within the bounds asked for. *)
Lemma getIntVariable_valid name min max w w' :
  getIntVariable name true min (Some max) w = Done tt w' ->
  exists v, input w' !! name = Some (JS.VNum v) /\ min <= v <= max.
Proof.
  unfold getIntVariable. generalize (S (S (length (stdin w)))). intros fuel.
  revert w. induction fuel as [|fuel IH]; intros w H; simpl in H; [discriminate|].
  apply bind_done in H as ([] & w1 & H1 & H).
  apply bind_done in H as (cur & w2 & H2 & H).
  destruct (check_int cur min (Some max)) as [msg|v] eqn:Hc.
  - apply bind_done in H as ([] & w3 & H3 & H). now apply IH in H.
  - inversion H; subst; clear H. exists v. simpl.
    split; [apply lookup_insert_eq|now apply check_int_inr in Hc].
Qed.

Lemma generate_keys_generated indices :
  forall w keys w',
    generate_keys indices w = Done keys w' -> Forall (generated_by (input w)) keys.
Proof.
  induction indices as [|idx rest IH]; intros w keys w' H; simpl in H.
  - inversion H. constructor.
  - apply bind_done in H as (params & w1 & H1 & H).
    inversion H1; subst w1 params; clear H1.
    apply bind_done in H as (key & w2 & H2 & H).
    apply bind_done in H as (records & w3 & H3 & H).
    inversion H; subst; clear H.
    unfold with_rng in H2.
    destruct (genSplitKey (input w) (rng w)) as [[sk r]|e] eqn:Hg; [|discriminate].
    inversion H2; subst; clear H2.
    constructor.
    + exists (rng w), key, r. simpl. auto.
    + apply IH in H3. exact H3.
Qed.

(** The records of a batch were all generated from one set of parameters,
    whose [n] and [m] passed [getIntVariable]: [n] in 1..10, and [m] in
    2..[n], or 1 when [n] is 1. *)
Lemma handleSplitKeys_records args w keys w' :
  handleSplitKeys args w = Done keys w' ->
  exists params nv mv,
    params !! "n" = Some (JS.VNum nv)
    /\ params !! "m" = Some (JS.VNum mv)
    /\ 1 <= nv <= 10
    /\ (if nv =? 1 then 1 else 2) <= mv <= nv
    /\ Forall (generated_by params) keys.
Proof.
  unfold handleSplitKeys. intros H.
  repeat (apply bind_done in H as (? & ? & ? & H)).
  destruct (range0 _) as [indices|e] eqn:Hrange; [|discriminate].
  repeat (apply bind_done in H as (? & ? & ? & H)).
  repeat match goal with
         | H : get_field _ _ = Done _ _ |- _ => inversion H; subst; clear H
         | H : write_file _ _ _ = Done _ _ |- _ => inversion H; subst; clear H
         | H : mret _ _ = Done _ _ |- _ => inversion H; subst; clear H
         | H : new_UserInput _ _ = Done _ _ |- _ => inversion H; subst; clear H
         end.
  match goal with H : generate_keys _ _ = _ |- _ =>
    pose proof (generate_keys_generated _ _ _ _ H) as Hgen; clear H end.
  match goal with H : getIntVariable "n" _ _ _ _ = Done ?u _ |- _ =>
    destruct u; pose proof (getIntVariable_valid _ _ _ _ _ H) as (nv & Hn & Hnr); clear H end.
  match goal with H : getIntVariable "m" _ _ _ _ = Done ?u _ |- _ =>
    destruct u; rewrite Hn in H; cbn [num_of is_num] in H;
    pose proof (getIntVariable_valid _ _ _ _ _ H) as (mv & Hm & Hmr);
    pose proof (preserves_getIntVariable "n" "m" _ _ _ ltac:(discriminate) _ _ _ H) as Pn;
    clear H end.
  match goal with H : getVariable "nkeys" _ _ _ = _ |- _ =>
    pose proof (preserves_getVariable "n" "nkeys" _ _ ltac:(discriminate) _ _ _ H) as Pn1;
    pose proof (preserves_getVariable "m" "nkeys" _ _ ltac:(discriminate) _ _ _ H) as Pm1;
    clear H end.
  match goal with H : getVariable "prefix" _ _ _ = _ |- _ =>
    pose proof (preserves_getVariable "n" "prefix" _ _ ltac:(discriminate) _ _ _ H) as Pn2;
    pose proof (preserves_getVariable "m" "prefix" _ _ ltac:(discriminate) _ _ _ H) as Pm2;
    clear H end.
  match goal with H : getVariable "entropy" _ _ _ = _ |- _ =>
    pose proof (preserves_getVariable "n" "entropy" _ _ ltac:(discriminate) _ _ _ H) as Pn3;
    pose proof (preserves_getVariable "m" "entropy" _ _ ltac:(discriminate) _ _ _ H) as Pm3;
    clear H end.
  match goal with H : getSharePasswords _ _ _ _ = _ |- _ =>
    pose proof (preserves_getSharePasswords "n" _ ltac:(discriminate) _ _ _ _ _ H) as Pn4;
    pose proof (preserves_getSharePasswords "m" _ ltac:(discriminate) _ _ _ _ _ H) as Pm4;
    clear H end.
  match goal with H : (if JS.truthy ?e then _ else _) ?w0 = Done _ ?w1 |- _ =>
    assert (Pe : input w1 = input w0) by
      (destruct (JS.truthy e); inversion H; subst; reflexivity); clear H end.
  eexists _, nv, mv. split; [|split; [|split; [exact Hnr|split; [|exact Hgen]]]].
  - rewrite Pn4, Pe, Pn3, Pn2, Pn1, Pn. exact Hn.
  - rewrite Pm4, Pe, Pm3, Pm2, Pm1. exact Hm.
  - rewrite Z.eqb_sym. exact Hmr.
Qed.

Lemma split_fields_nkeys args s :
  arg_nkeys args = Some s ->
  fields_of [("m", arg_m args); ("n", arg_n args); ("nkeys", arg_nkeys args);
             ("prefix", arg_prefix args); ("entropy", arg_entropy args)]%string
    !! "nkeys" = Some (JS.VStr s).
Proof.
  intros ->. unfold fields_of.
  destruct (arg_m args), (arg_n args), (arg_prefix args), (arg_entropy args); simpl;
    repeat (rewrite lookup_insert_ne by discriminate); apply lookup_insert_eq.
Qed.

(** The number of keys generated is the one [_.range] makes of the
    [nkeys] argument as it was typed: nothing compares it with 1 or
    100000. *)
Lemma handleSplitKeys_count args s w keys w' :
  arg_nkeys args = Some s -> s <> ""%string ->
  handleSplitKeys args w = Done keys w' ->
  range_length (Some (JS.VStr s)) = Ok (length keys).
Proof.
  intros Hs Hne. unfold handleSplitKeys. intros H.
  repeat (apply bind_done in H as (? & ? & ? & H)).
  destruct (range0 _) as [indices|e] eqn:Hrange; [|discriminate].
  repeat (apply bind_done in H as (? & ? & ? & H)).
  repeat match goal with
         | H : get_field _ _ = Done _ _ |- _ => inversion H; subst; clear H
         | H : write_file _ _ _ = Done _ _ |- _ => inversion H; subst; clear H
         | H : mret _ _ = Done _ _ |- _ => inversion H; subst; clear H
         | H : new_UserInput _ _ = Done _ _ |- _ => inversion H; subst; clear H
         end.
  match goal with H : generate_keys _ _ = _ |- _ =>
    apply generate_keys_indices in H as (Hidx & _ & _) end.
  match goal with H : getIntVariable "n" _ _ _ _ = Done _ _ |- _ =>
    pose proof (preserves_getIntVariable "nkeys" "n" _ _ _ ltac:(discriminate) _ _ _ H) as P1;
    clear H end.
  match goal with H : getIntVariable "m" _ _ _ _ = Done _ _ |- _ =>
    pose proof (preserves_getIntVariable "nkeys" "m" _ _ _ ltac:(discriminate) _ _ _ H) as P2;
    clear H end.
  cbn [input] in P1. rewrite (split_fields_nkeys _ _ Hs) in P1.
  match goal with H : getVariable "nkeys" _ _ ?w0 = Done _ _ |- _ =>
    rewrite getVariable_set in H
      by (rewrite P2, P1; now apply truthy_nonempty);
    inversion H; subst; clear H end.
  match goal with H : getVariable "prefix" _ _ _ = _ |- _ =>
    pose proof (preserves_getVariable "nkeys" "prefix" _ _ ltac:(discriminate) _ _ _ H) as P3;
    clear H end.
  match goal with H : getVariable "entropy" _ _ _ = _ |- _ =>
    pose proof (preserves_getVariable "nkeys" "entropy" _ _ ltac:(discriminate) _ _ _ H) as P4;
    clear H end.
  match goal with H : getSharePasswords _ _ _ _ = _ |- _ =>
    pose proof (preserves_getSharePasswords "nkeys" _ ltac:(discriminate) _ _ _ _ _ H) as P5;
    clear H end.
  match goal with H : (if JS.truthy ?e then _ else _) ?w0 = Done _ ?w1 |- _ =>
    assert (Pe : input w1 = input w0) by
      (destruct (JS.truthy e); inversion H; subst; reflexivity); clear H end.
  rewrite P5, Pe, P4, P3, P2, P1 in Hrange.
  unfold range0 in Hrange.
  destruct (range_length (Some (JS.VStr s))) as [len|]; [|discriminate].
  inversion Hrange as [Hr]; clear Hrange.
  apply (f_equal length) in Hr. rewrite !length_fmap, length_seq in Hr.
  now rewrite Hr.
Qed.

End SplitParameters.

(** C10. In a batch file written by [handleSplitKeys] the [index] fields
    count up from 0, one record after the other, so that the record at
    position [i] has [index = i]; for [nkeys] given on the command line
    as a string that converts to the integer [k], there are [k] records
    and their [index] fields are 0 to [k - 1]. [handleRecoverKeys] picks
    records by position, which for such a file is the same as picking
    them by their [index] field, and the records it returns carry
    exactly the indices that were asked for. *)
Theorem batch_index_is_position {C : Crypto} {K : JS.Coercion} args w keys w' :
  handleSplitKeys args w = Done keys w' ->
  (exists name, files w' !! name = Some (KeysJson keys))
  /\ index <$> keys = Z.of_nat <$> seq 0 (length keys)
  /\ (forall i record, keys !! i = Some record -> index record = Z.of_nat i)
  /\ (forall s k,
         arg_nkeys args = Some s -> s <> ""%string ->
         JS.toNumber s = JS.Finite (inject_Z k) ->
         length keys = Z.to_nat k
         /\ index <$> keys = Z.of_nat <$> seq 0 (Z.to_nat k))
  /\ (forall indices,
         select_positions 0 keys indices
         = filter (fun key => index key ∈ indices) keys)
  /\ (forall verifyonly name ks w2 recovered w3,
         name <> ""%string -> ks <> ""%string ->
         files w2 !! name = Some (KeysJson keys) ->
         handleRecoverKeys {| arg_verifyonly := verifyonly; arg_file := Some name;
                              arg_keys := Some ks |} w2 = Done recovered w3 ->
         r_index <$> recovered = parse_indices ks).
Proof.
  intros H.
  destruct (handleSplitKeys_done _ _ _ _ H) as (prefix & nkeys & len & Hfile & _ & Hidx).
  assert (Hlen : len = length keys).
  { apply (f_equal length) in Hidx. rewrite !length_fmap, length_seq in Hidx. lia. }
  subst len.
  assert (Hsel : forall indices,
             select_positions 0 keys indices
             = filter (fun key => index key ∈ indices) keys).
  { intros indices. apply (select_positions_by_index keys 0%nat). exact Hidx. }
  split; [eauto|]. split; [exact Hidx|]. split; [|split; [|split; [exact Hsel|]]].
  - intros i record Hi.
    assert (E : (index <$> keys) !! i = Some (index record))
      by (rewrite list_lookup_fmap, Hi; reflexivity).
    rewrite Hidx, list_lookup_fmap in E.
    destruct (seq 0 (length keys) !! i) as [j|] eqn:Hj; [|discriminate].
    apply lookup_seq in Hj as [-> _]. simpl in E. congruence.
  - intros s k Hs Hne Hnum.
    pose proof (handleSplitKeys_count _ _ _ _ _ Hs Hne H) as Hc.
    unfold range_length in Hc. rewrite Hnum in Hc.
    assert (E : Qceiling (inject_Z k) = k).
    { unfold Qceiling, Qfloor, inject_Z, Qopp. simpl. rewrite Z.div_1_r. lia. }
    rewrite E in Hc. destruct (4294967295 <? k); [discriminate|].
    inversion Hc as [Hl]. split; [now rewrite Hl|]. rewrite Hl. exact Hidx.
  - intros verifyonly name ks w2 recovered w3 Hname Hks Hf Hrun.
    destruct (handleRecoverKeys_done _ _ _ _ _ _ _ Hname Hks Hf Hrun)
      as (passwords & Hrec & Hrange).
    apply recoverKeys_indices in Hrec.
    assert (E : r_index <$> recovered
                = index <$> select_positions 0 keys (parse_indices ks)).
    { clear -Hrec. set (sel := select_positions 0 keys (parse_indices ks)) in *.
      clearbody sel. induction Hrec as [|key r ks' rs [Hi _] _ IH]; [reflexivity|].
      now rewrite !fmap_cons, Hi, IH. }
    rewrite E, Hsel, index_filter, Hidx.
    apply filter_positions; [apply parse_indices_sorted|exact Hrange].
Qed.

(** C9. The code checks [n] and [m] but not [nkeys], which it reads with
    [getVariable]: that function takes the 1 of the call for a default
    value and has no parameter for the 100000. With [-n 3 -m 2] and
    [nkeys] given as [0], as [-5] or as [lots], the command runs to its
    end and writes a batch file and an index file without a key in
    them; the claim has every value outside 1..100000 rejected before
    anything is generated or written. *)
Theorem handleSplitKeys_nkeys_unchecked :
  Forall (fun nkeys =>
     BgclSample.keys_of (BgclSample.split_run nkeys "a" "b" "c") = []
     /\ BgclSample.files_of (BgclSample.split_run nkeys "a" "b" "c") !! "keys.json"%string
        = Some (KeysJson [])
     /\ BgclSample.files_of (BgclSample.split_run nkeys "a" "b" "c") !! "keys.xpub.csv"%string
        = Some (Text []))
    ["0"; "-5"; "lots"]%string
  /\ @range_length Reference.coercion (Some (JS.VStr "100001")) = Ok (Z.to_nat 100001).
Proof.
  split.
  - repeat (constructor; [vm_compute; repeat split|]). constructor.
  - assert (E : Reference.toNumber "100001" = JS.Finite (inject_Z 100001))
      by (vm_compute; reflexivity).
    unfold range_length. cbn [JS.toNumber Reference.coercion]. rewrite E.
    change (Qceiling (inject_Z 100001)) with 100001. reflexivity.
Qed.

(** ** Password discovery *)

Section PasswordDiscovery.
Context {C : Crypto}.

Lemma is_bound_app ps qs i : is_bound (ps ++ qs) i = (is_bound ps i || is_bound qs i)%bool.
Proof. unfold is_bound. apply existsb_app. Qed.

Lemma new_bindings_ext pw shares :
  forall i ps qs,
    (forall j, (i <= j)%nat -> is_bound qs j = is_bound ps j) ->
    new_bindings pw i shares qs = new_bindings pw i shares ps.
Proof.
  induction shares as [|share rest IH]; intros i ps qs H; simpl; [reflexivity|].
  rewrite (H i) by lia.
  rewrite (IH (S i) ps qs) by (intros j Hj; apply H; lia).
  reflexivity.
Qed.

(** What the [forEach] over the shares computes. *)
Lemma try_shares_spec pw shares :
  forall i ps found,
    try_shares pw i shares ps found
    = (ps ++ new_bindings pw i shares ps,
       (found || negb (bool_decide (new_bindings pw i shares ps = [])))%bool).
Proof.
  induction shares as [|share rest IH]; intros i ps found; simpl.
  - now rewrite app_nil_r, orb_false_r.
  - destruct (decrypt pw share) as [plain|] eqn:Hd; simpl.
    + destruct (is_bound ps i) eqn:Hb; simpl.
      * apply IH.
      * rewrite IH.
        rewrite (new_bindings_ext pw rest (S i) ps).
        -- rewrite <- app_assoc. simpl. now rewrite orb_true_r.
        -- intros j Hj. rewrite is_bound_app. simpl.
           replace (Nat.eqb i j) with false by (symmetry; apply Nat.eqb_neq; lia).
           now rewrite !orb_false_r.
    + apply IH.
Qed.

Lemma new_bindings_elem pw shares :
  forall i ps b,
    b ∈ new_bindings pw i shares ps <->
    password b = pw
    /\ (i <= shareIndex b)%nat
    /\ (exists share, shares !! (shareIndex b - i)%nat = Some share
                      /\ is_Some (decrypt pw share))
    /\ is_bound ps (shareIndex b) = false.
Proof.
  induction shares as [|share rest IH]; intros i ps b; simpl.
  - split; [intros H; inversion H|]. intros (_ & _ & (share & H & _) & _). discriminate.
  - assert (Hrest : b ∈ new_bindings pw (S i) rest ps <->
              password b = pw /\ (S i <= shareIndex b)%nat
              /\ (exists share, rest !! (shareIndex b - S i)%nat = Some share
                                /\ is_Some (decrypt pw share))
              /\ is_bound ps (shareIndex b) = false) by apply IH.
    assert (Hshift : forall j, (S i <= j)%nat ->
              (share :: rest) !! (j - i)%nat = rest !! (j - S i)%nat).
    { intros j Hj. replace (j - i)%nat with (S (j - S i)) by lia. reflexivity. }
    destruct (bool_decide (is_Some (decrypt pw share)) && negb (is_bound ps i))%bool eqn:E.
    + apply andb_prop in E as [E1 E2]. apply bool_decide_eq_true in E1.
      apply negb_true_iff in E2.
      rewrite elem_of_cons, Hrest. split.
      * intros [->|(H1 & H2 & (s & H3 & H4) & H5)]; simpl.
        -- split; [reflexivity|]. split; [lia|]. split; [|exact E2].
           exists share. rewrite Nat.sub_diag. auto.
        -- split; [exact H1|]. split; [lia|]. split; [|exact H5].
           exists s. rewrite Hshift by lia. auto.
      * intros (H1 & H2 & (s & H3 & H4) & H5).
        destruct (decide (shareIndex b = i)) as [Hi|Hi].
        -- left. destruct b as [bi bp]. simpl in *. now subst.
        -- right. split; [exact H1|]. split; [lia|]. split; [|exact H5].
           exists s. rewrite <- Hshift by lia. auto.
    + rewrite Hrest. split.
      * intros (H1 & H2 & (s & H3 & H4) & H5).
        split; [exact H1|]. split; [lia|]. split; [|exact H5].
        exists s. rewrite Hshift by lia. auto.
      * intros (H1 & H2 & (s & H3 & H4) & H5).
        destruct (decide (shareIndex b = i)) as [Hi|Hi].
        -- exfalso. rewrite Hi, Nat.sub_diag in H3. simpl in H3. inversion H3; subst s.
           rewrite Hi in H5. rewrite H5 in E. simpl in E.
           rewrite bool_decide_eq_true_2 in E by exact H4. discriminate.
        -- split; [exact H1|]. split; [lia|]. split; [|exact H5].
           exists s. rewrite <- Hshift by lia. auto.
Qed.

(** A password that decrypts at most one share adds at most one
    binding. *)
Lemma new_bindings_at_most_one pw shares :
  forall i ps,
    (forall j k sj sk,
        shares !! j = Some sj -> shares !! k = Some sk ->
        is_Some (decrypt pw sj) -> is_Some (decrypt pw sk) -> j = k) ->
    (length (new_bindings pw i shares ps) <= 1)%nat.
Proof.
  induction shares as [|share rest IH]; intros i ps Huniq; simpl; [lia|].
  assert (Hrest : (length (new_bindings pw (S i) rest ps) <= 1)%nat).
  { apply IH. intros j k sj sk Hj Hk Dj Dk.
    assert (S j = S k) by (eapply Huniq; eauto). lia. }
  destruct (bool_decide (is_Some (decrypt pw share))) eqn:E; simpl; [|exact Hrest].
  apply bool_decide_eq_true in E.
  assert (Hnone : new_bindings pw (S i) rest ps = []).
  { destruct (new_bindings pw (S i) rest ps) as [|b l] eqn:Hnb; [reflexivity|].
    assert (Hb : b ∈ new_bindings pw (S i) rest ps) by (rewrite Hnb; apply list_elem_of_here).
    apply new_bindings_elem in Hb as (_ & _ & (s & Hs & Ds) & _).
    assert (0%nat = S (shareIndex b - S i)) by (eapply Huniq; eauto).
    lia. }
  rewrite Hnone. destruct (negb (is_bound ps i)); simpl; lia.
Qed.

End PasswordDiscovery.

(** ** Splitting a key *)

Section SplitKey.
Context {C : Crypto}.

Lemma encrypt_shares_spec params shares :
  forall i0 r cs r',
    encrypt_shares params i0 shares r = Ok (cs, r') ->
    length cs = length shares
    /\ forall j share,
        shares !! j = Some share ->
        exists pw rr,
          params !! password_name (Z.of_nat (i0 + j)) = Some (JS.VStr pw)
          /\ cs !! j = Some (encrypt pw share rr).1.
Proof.
  induction shares as [|share rest IH]; intros i0 r cs r' H; simpl in H.
  - inversion H; subst. split; [reflexivity|]. intros j s Hj. discriminate.
  - destruct (params !! password_name (Z.of_nat i0)) as [[pw|z]|] eqn:Hp; try discriminate.
    destruct (encrypt pw share r) as [c r1] eqn:He.
    destruct (encrypt_shares params (S i0) rest r1) as [[cs' r2]|e] eqn:Hrest; [|discriminate].
    inversion H; subst; clear H.
    apply IH in Hrest as [Hlen Hall]. split; [simpl; lia|].
    intros [|j] s Hj; simpl in Hj.
    + inversion Hj; subst s. exists pw, r. rewrite Nat.add_0_r. split; [exact Hp|].
      simpl. now rewrite He.
    + destruct (Hall j s Hj) as (pw' & rr & H1 & H2).
      exists pw', rr. replace (i0 + S j)%nat with (S i0 + j)%nat by lia. auto.
Qed.

(** The way [genSplitKey] goes once [genKey] has returned [key]: the
    plain shares are the seed alone when [n] is 1 and the result of
    [secrets.share] otherwise, and the [i]-th encrypted share is the
    [i]-th plain share under the password of position [i]. *)
Lemma genSplitKey_shape params r key r1 sk r' nn :
  genKey r = Ok (key, r1) ->
  genSplitKey params r = Ok (sk, r') ->
  params !! "n" = Some (JS.VNum nn) ->
  exists shares,
    (nn = 1 /\ shares = [seed key]
     \/ nn <> 1 /\ exists mm r2,
          params !! "m" = Some (JS.VNum mm)
          /\ secrets_share (seed key) nn mm r1 = Some (shares, r2))
    /\ sk_xpub sk = key_xpub key
    /\ sk_m sk = params !! "m"
    /\ sk_n sk = Some (JS.VNum nn)
    /\ length (sk_seedShares sk) = length shares
    /\ forall j share,
        shares !! j = Some share ->
        exists pw rr,
          params !! password_name (Z.of_nat j) = Some (JS.VStr pw)
          /\ sk_seedShares sk !! j = Some (encrypt pw share rr).1.
Proof.
  intros Hkey Hgen Hn. unfold genSplitKey in Hgen. rewrite Hkey, Hn in Hgen.
  assert (Hfin : forall shares r2,
            match encrypt_shares params 0 shares r2 with
            | Ok (encryptedShares, r3) =>
                Ok ({| sk_xpub := key_xpub key; sk_m := params !! "m";
                       sk_n := Some (JS.VNum nn); sk_seedShares := encryptedShares |}, r3)
            | Throw e => Throw e
            end = Ok (sk, r') ->
            sk_xpub sk = key_xpub key /\ sk_m sk = params !! "m"
            /\ sk_n sk = Some (JS.VNum nn)
            /\ length (sk_seedShares sk) = length shares
            /\ forall j share,
                shares !! j = Some share ->
                exists pw rr,
                  params !! password_name (Z.of_nat j) = Some (JS.VStr pw)
                  /\ sk_seedShares sk !! j = Some (encrypt pw share rr).1).
  { intros shares r2 H.
    destruct (encrypt_shares params 0 shares r2) as [[cs r3]|e] eqn:He; [|discriminate].
    inversion H; subst; clear H. simpl.
    apply encrypt_shares_spec in He as [Hlen Hall]. auto. }
  destruct (decide (nn = 1)) as [->|Hne].
  - exists [seed key]. split; [left; auto|]. now apply (Hfin _ r1).
  - assert (Hgen' :
      match
        match params !! "m" with
        | Some (JS.VNum mm) =>
            match secrets_share (seed key) nn mm r1 with
            | Some (shares, r2) => Ok (shares, r2)
            | None => Throw (LibError "secrets.share")
            end
        | _ => Throw (LibError "secrets.share")
        end
      with
      | Ok (shares, r2) =>
          match encrypt_shares params 0 shares r2 with
          | Ok (encryptedShares, r3) =>
              Ok ({| sk_xpub := key_xpub key; sk_m := params !! "m";
                     sk_n := Some (JS.VNum nn); sk_seedShares := encryptedShares |}, r3)
          | Throw e => Throw e
          end
      | Throw e => Throw e
      end = Ok (sk, r')).
    { destruct nn as [|[q|q|]|q]; try exact Hgen. contradiction. }
    clear Hgen.
    destruct (params !! "m") as [[s|mm]|] eqn:Hm; try discriminate.
    destruct (secrets_share (seed key) nn mm r1) as [[shares r2]|] eqn:Hs; [|discriminate].
    exists shares. split; [right; split; [exact Hne|]; eauto|].
    now apply (Hfin _ r2).
Qed.

End SplitKey.

(** ** Splitting and recombining *)

Section Threshold.
Context {C : Crypto}.

(** Decryption under the password of the encryption gives the plaintext
    back. *)
Hypothesis decrypt_encrypt :
  forall pw x r, decrypt pw (encrypt pw x r).1 = Some x.

(** Any [threshold] shares of a secret, in any order, recombine to it. *)
Hypothesis share_combine :
  forall secret numShares threshold r shares r',
    secrets_share secret numShares threshold r = Some (shares, r') ->
    length shares = Z.to_nat numShares
    /\ forall idxs,
        NoDup idxs -> length idxs = Z.to_nat threshold ->
        (forall i, i ∈ idxs -> (i < length shares)%nat) ->
        secrets_combine ((fun i => default ""%string (shares !! i)) <$> idxs) = Some secret.

(** [secrets.share] throws for a threshold below 2. *)
Hypothesis share_threshold :
  forall secret numShares threshold r shares r',
    secrets_share secret numShares threshold r = Some (shares, r') ->
    2 <= threshold.

Lemma decrypt_selected_plain params encrypted shares idxs :
  (forall j share,
      shares !! j = Some share ->
      exists pw rr,
        params !! password_name (Z.of_nat j) = Some (JS.VStr pw)
        /\ encrypted !! j = Some (encrypt pw share rr).1) ->
  (forall i, i ∈ idxs -> (i < length shares)%nat) ->
  decrypt_selected params encrypted idxs
  = Some ((fun i => default ""%string (shares !! i)) <$> idxs).
Proof.
  intros Hall Hlt. unfold decrypt_selected.
  apply mapM_Some, Forall2_fmap_r, Forall_Forall2_diag, Forall_forall.
  intros i Hi. apply Hlt in Hi.
  destruct (lookup_lt_is_Some_2 shares i Hi) as [share Hs].
  destruct (Hall i share Hs) as (pw & rr & Hp & Hc).
  unfold compose. rewrite Hc, Hs. simpl. unfold share_password. rewrite Hp. simpl.
  apply decrypt_encrypt.
Qed.

(** [recoverKey] recombines with [recombine]. *)
Lemma recoverKey_recombine verifyonly passwords key shares :
  decrypt_shares key passwords = Ok shares ->
  recoverKey verifyonly passwords key
  = match recombine shares with
    | None => Throw (LibError "secrets.combine")
    | Some sd =>
        match fromSeedHex sd with
        | None => Throw (LibError "HDNode.fromSeedHex")
        | Some (xpub', xprv') =>
            if (negb verifyonly && negb (String.eqb xpub' (xpub key)))%bool
            then Throw (Error ("xpubs don't match for key " +:+ pretty (index key)))
            else Ok {| r_index := index key; r_xpub := xpub';
                       r_xprv := if verifyonly then None else Some xprv' |}
        end
    end.
Proof. intros H. unfold recoverKey, recombine. rewrite H. reflexivity. Qed.

(** C2. For [1 <= m <= n <= 10] and a key produced by [genSplitKey]
    from the parameters [n] and [m]: the key is labelled with that [n]
    and [m], carries the [xpub] of the seed and [n] encrypted shares,
    and [m] is 1 only when [n] is 1. Take any [m] distinct positions
    among the shares and decrypt each share with the password of its
    position: these are [m] plain shares, and recombining them the way
    [handleRecoverKeys] does (a single share is the seed, several go
    through [secrets.combine]) gives the seed [genKey] drew for that
    key; for [n] other than 1 it is [secrets.combine] that returns
    it. *)
Theorem split_roundtrip params r key r1 sk r' nn mm idxs :
  genKey r = Ok (key, r1) ->
  genSplitKey params r = Ok (sk, r') ->
  params !! "n" = Some (JS.VNum nn) ->
  params !! "m" = Some (JS.VNum mm) ->
  1 <= mm <= nn -> nn <= 10 ->
  NoDup idxs -> length idxs = Z.to_nat mm ->
  (forall i, i ∈ idxs -> (i < Z.to_nat nn)%nat) ->
  sk_n sk = Some (JS.VNum nn) /\ sk_m sk = Some (JS.VNum mm)
  /\ sk_xpub sk = key_xpub key
  /\ length (sk_seedShares sk) = Z.to_nat nn
  /\ (nn = 1 \/ 2 <= mm)
  /\ exists shares,
      decrypt_selected params (sk_seedShares sk) idxs = Some shares
      /\ length shares = Z.to_nat mm
      /\ recombine shares = Some (seed key)
      /\ (nn <> 1 -> secrets_combine shares = Some (seed key)).
Proof.
  intros Hkey Hgen Hn Hm Hmn Hn10 Hnd Hlen Hlt.
  destruct (genSplitKey_shape _ _ _ _ _ _ _ Hkey Hgen Hn)
    as (shares & Hcase & Hskx & Hskm & Hskn & Hlen' & Hall).
  split; [exact Hskn|]. split; [now rewrite Hskm|]. split; [exact Hskx|].
  destruct Hcase as [[-> ->]|(Hne & mm' & r2 & Hm' & Hshare)].
  - split; [rewrite Hlen'; reflexivity|]. split; [now left|].
    assert (mm = 1) by lia. subst mm.
    destruct idxs as [|i [|j idxs]]; try discriminate.
    assert (i = 0%nat) by (specialize (Hlt i (list_elem_of_here _ _)); simpl in Hlt; lia).
    subst i.
    exists [seed key]. split; [|split; [reflexivity|split; [reflexivity|congruence]]].
    apply (decrypt_selected_plain _ _ [seed key]); [exact Hall|].
    intros i Hi. apply list_elem_of_singleton in Hi. subst i. simpl. lia.
  - rewrite Hm in Hm'. inversion Hm'; subst mm'; clear Hm'.
    destruct (share_combine _ _ _ _ _ _ Hshare) as [Hl Hcomb].
    pose proof (share_threshold _ _ _ _ _ _ Hshare) as Hth.
    split; [congruence|]. split; [right; lia|].
    assert (Hc : secrets_combine ((fun i => default ""%string (shares !! i)) <$> idxs)
                 = Some (seed key)).
    { apply Hcomb; [exact Hnd|exact Hlen|]. intros i Hi. rewrite Hl. now apply Hlt. }
    eexists. split; [|split; [|split; [|intros _; exact Hc]]].
    + apply (decrypt_selected_plain _ _ shares); [exact Hall|].
      intros i Hi. rewrite Hl. now apply Hlt.
    + now rewrite length_fmap.
    + unfold recombine.
      destruct idxs as [|i [|j idxs']]; simpl in Hlen; try lia; exact Hc.
Qed.

End Threshold.

(** ** The password loop of [handleRecoverKeys] *)

Section PasswordLoop.
Context {C : Crypto}.

(** With the field unset, [getPassword] takes the next entry that is not
    blank. *)
Lemma getPassword_reads name pw rest w :
  input w !! name = None ->
  stdin w = pw :: rest ->
  pw <> ""%string ->
  getPassword name false w
  = Done tt (with_input w (<[name := JS.VStr pw]> (input w)) rest).
Proof.
  intros Hf Hs Hpw. unfold getPassword. rewrite Hs. simpl.
  unfold mbind, M_bind, get_field. rewrite Hf. simpl.
  unfold promptPassword. rewrite Hs. simpl.
  destruct pw as [|a pw]; [contradiction|]. simpl.
  reflexivity.
Qed.

(** One round of the loop, for a slot [i] still to fill and an entry
    [pw]: when [pw] adds no binding the round is played again for the
    same slot with the bindings unchanged, otherwise the loop moves to
    slot [i + 1] with the new bindings appended. *)
Lemma getPasswords_step fuel i n shares ps w pw rest :
  is_num n i = false ->
  input w !! password_name i = None ->
  stdin w = pw :: rest ->
  pw <> ""%string ->
  getPasswords (S fuel) i n shares ps w
  = if bool_decide (new_bindings pw 0 shares ps = [])
    then getPasswords fuel i n shares ps (with_input w (input w) rest)
    else getPasswords fuel (i + 1) n shares (ps ++ new_bindings pw 0 shares ps)
           (with_input w (<[password_name i := JS.VStr pw]> (input w)) rest).
Proof.
  intros Hn Hf Hs Hpw. simpl. rewrite Hn.
  unfold mbind at 1. unfold M_bind at 1.
  rewrite (getPassword_reads _ pw rest) by assumption.
  unfold mbind at 1. unfold M_bind at 1. unfold get_field at 1.
  cbn [input with_input]. rewrite lookup_insert_eq.
  rewrite try_shares_spec. simpl.
  destruct (bool_decide (new_bindings pw 0 shares ps = [])); simpl.
  - unfold mbind, M_bind, delete_field. cbn [input stdin rng files with_input].
    rewrite delete_insert_id by exact Hf. reflexivity.
  - reflexivity.
Qed.

End PasswordLoop.

(** The entry [a] on a batch whose first two shares are both under [a]. *)
Example a_binds_shares_0_and_1 :
  @try_shares Reference.crypto "a" 0
    (BgclSample.first_shares BgclSample.batch_shared_password) [] false
  = ([ {| shareIndex := 0; password := "a" |}; {| shareIndex := 1; password := "a" |} ], true).
Proof. vm_compute. reflexivity. Qed.

(** One round of the loop. The entered password is tried on every share
    of the first key; every share index that it decrypts and that has no
    binding yet gets one, in the order of the shares; that is at most one
    index when the password decrypts at most one share. An entry that
    adds no binding is turned down and the same slot is asked again, the
    bindings unchanged; otherwise the loop moves on to the next slot. *)
Lemma password_binding {C : Crypto} :
  (forall pw shares ps,
      try_shares pw 0 shares ps false
      = (ps ++ new_bindings pw 0 shares ps,
         negb (bool_decide (new_bindings pw 0 shares ps = []))))
  /\ (forall pw shares ps b,
         b ∈ new_bindings pw 0 shares ps <->
         password b = pw
         /\ (exists share, shares !! shareIndex b = Some share /\ is_Some (decrypt pw share))
         /\ is_bound ps (shareIndex b) = false)
  /\ (forall pw shares ps,
         (forall j k sj sk,
             shares !! j = Some sj -> shares !! k = Some sk ->
             is_Some (decrypt pw sj) -> is_Some (decrypt pw sk) -> j = k) ->
         (length (new_bindings pw 0 shares ps) <= 1)%nat)
  /\ (forall fuel i n shares ps w pw rest,
         is_num n i = false ->
         input w !! password_name i = None ->
         stdin w = pw :: rest ->
         pw <> ""%string ->
         getPasswords (S fuel) i n shares ps w
         = if bool_decide (new_bindings pw 0 shares ps = [])
           then getPasswords fuel i n shares ps (with_input w (input w) rest)
           else getPasswords fuel (i + 1) n shares (ps ++ new_bindings pw 0 shares ps)
                  (with_input w (<[password_name i := JS.VStr pw]> (input w)) rest)).
Proof.
  split; [|split; [|split]].
  - intros pw shares ps. now rewrite try_shares_spec.
  - intros pw shares ps b. rewrite new_bindings_elem. rewrite Nat.sub_0_r.
    split; [intros (H1 & _ & H3 & H4); auto|].
    intros (H1 & H3 & H4). split; [exact H1|]. split; [lia|]. auto.
  - intros pw shares ps H. now apply new_bindings_at_most_one.
  - intros. now apply getPasswords_step.
Qed.

(** ** Recovering a key from its shares *)

Lemma password_name_inj i j : password_name i = password_name j -> i = j.
Proof.
  unfold password_name. intros H. apply append_inj_r in H.
  now apply (inj pretty) in H.
Qed.

Lemma genKey_derives {C : Crypto} r key r1 :
  genKey r = Ok (key, r1) ->
  fromSeedHex (seed key) = Some (key_xpub key, key_xprv key).
Proof.
  unfold genKey. destruct (randomWords 8 (addEntropy 128 r)) as [sd r2].
  destruct (fromSeedHex sd) as [[xpub' xprv']|] eqn:E; [|discriminate].
  intros H; inversion H; subst; simpl. exact E.
Qed.

Lemma select_positions_past {C : Crypto} keys :
  forall a b : Z, a < b -> select_positions b keys [a] = [].
Proof.
  induction keys as [|key keys IH]; intros a b Hab; [reflexivity|]. simpl.
  rewrite bool_decide_eq_false_2
    by (intros H; apply list_elem_of_singleton in H; lia).
  apply IH. lia.
Qed.

Lemma select_positions_single {C : Crypto} keys :
  forall (p k : nat) record,
    keys !! k = Some record ->
    select_positions (Z.of_nat p) keys [Z.of_nat (p + k)] = [record].
Proof.
  induction keys as [|key keys IH]; intros p k record Hk; [discriminate|]. simpl.
  destruct k as [|k]; simpl in Hk.
  - inversion Hk; subst. rewrite Nat.add_0_r.
    rewrite bool_decide_eq_true_2 by (apply list_elem_of_here). f_equal.
    apply select_positions_past. lia.
  - rewrite bool_decide_eq_false_2
      by (intros H; apply list_elem_of_singleton in H; lia).
    assert (E : Z.of_nat p + 1 = Z.of_nat (S p)) by lia. rewrite E.
    replace (p + S k)%nat with (S p + k)%nat by lia. now apply IH.
Qed.

Lemma new_bindings_unique {C : Crypto} pw idx ps cs :
  forall i,
    (forall j c, cs !! j = Some c -> (i + j)%nat <> idx -> decrypt pw c = None) ->
    (forall c, (i <= idx)%nat -> cs !! (idx - i)%nat = Some c -> is_Some (decrypt pw c)) ->
    is_bound ps idx = false ->
    new_bindings pw i cs ps
    = if decide (i <= idx < i + length cs)%nat
      then [{| shareIndex := idx; password := pw |}] else [].
Proof.
  induction cs as [|c rest IH]; intros i Hother Hown Hfree; simpl.
  - rewrite decide_False by lia. reflexivity.
  - assert (Hrest : new_bindings pw (S i) rest ps
                    = if decide (S i <= idx < S i + length rest)%nat
                      then [{| shareIndex := idx; password := pw |}] else []).
    { apply IH; [| |exact Hfree].
      - intros j c' Hj Hne. apply (Hother (S j) c'); [exact Hj|lia].
      - intros c' Hle Hc'. apply Hown; [lia|].
        replace (idx - i)%nat with (S (idx - S i)) by lia. exact Hc'. }
    destruct (decide (i = idx)) as [->|Hne].
    + assert (Hd : is_Some (decrypt pw c)).
      { apply Hown; [lia|]. now rewrite Nat.sub_diag. }
      rewrite bool_decide_eq_true_2 by exact Hd. rewrite Hfree. simpl.
      rewrite Hrest, decide_False by lia. rewrite decide_True by lia. reflexivity.
    + rewrite (Hother 0%nat c eq_refl) by lia.
      rewrite bool_decide_eq_false_2 by (apply is_Some_None). simpl.
      rewrite Hrest.
      destruct (decide (S i <= idx < S i + length rest)%nat);
        [rewrite decide_True by lia|rewrite decide_False by lia]; reflexivity.
Qed.

Section Recovering.
Context {C : Crypto}.

Hypothesis decrypt_encrypt :
  forall pw x r, decrypt pw (encrypt pw x r).1 = Some x.

(** Decryption under another password fails. *)
Hypothesis decrypt_other :
  forall pw pw' x r, pw' <> pw -> decrypt pw' (encrypt pw x r).1 = None.

Section Shares.
(** The encrypted shares [cs] of one key, the plain shares behind them
    and the passwords they are under, position by position. *)
Variables (cs shares pws : list string).
Hypothesis length_cs : length cs = length pws.
Hypothesis length_shares : length shares = length pws.
Hypothesis encrypted :
  forall j share pw,
    shares !! j = Some share -> pws !! j = Some pw ->
    exists rr, cs !! j = Some (encrypt pw share rr).1.
Hypothesis distinct : NoDup pws.
Hypothesis not_blank : forall pw, pw ∈ pws -> pw <> ""%string.

Lemma decrypt_own j pw c :
  pws !! j = Some pw -> cs !! j = Some c -> decrypt pw c = shares !! j.
Proof.
  intros Hp Hc.
  assert (Hj : (j < length shares)%nat)
    by (rewrite length_shares; now apply lookup_lt_Some in Hp).
  destruct (lookup_lt_is_Some_2 shares j Hj) as [share Hs].
  destruct (encrypted j share pw Hs Hp) as [rr Hc']. rewrite Hc in Hc'.
  inversion Hc'; subst c. rewrite Hs. apply decrypt_encrypt.
Qed.

Lemma decrypt_foreign j k pw c :
  pws !! k = Some pw -> cs !! j = Some c -> j <> k -> decrypt pw c = None.
Proof.
  intros Hp Hc Hne.
  assert (Hj : (j < length pws)%nat)
    by (rewrite <- length_cs; now apply lookup_lt_Some in Hc).
  destruct (lookup_lt_is_Some_2 pws j Hj) as [pwj Hpj].
  assert (Hjs : (j < length shares)%nat) by (rewrite length_shares; exact Hj).
  destruct (lookup_lt_is_Some_2 shares j Hjs) as [share Hs].
  destruct (encrypted j share pwj Hs Hpj) as [rr Hc']. rewrite Hc in Hc'.
  inversion Hc'; subst c. apply decrypt_other.
  intros ->. apply Hne. eapply NoDup_lookup; eauto.
Qed.

(** Entering the password of share [idx] adds the binding of [idx], and
    only that one. *)
Lemma new_bindings_own idx pw ps :
  pws !! idx = Some pw ->
  is_bound ps idx = false ->
  new_bindings pw 0 cs ps = [{| shareIndex := idx; password := pw |}].
Proof.
  intros Hp Hfree.
  rewrite (new_bindings_unique pw idx ps cs 0).
  - apply lookup_lt_Some in Hp. rewrite decide_True; [reflexivity|]. lia.
  - intros j c Hc Hne. simpl in Hne. eapply decrypt_foreign; eauto.
  - intros c _ Hc. rewrite Nat.sub_0_r in Hc.
    rewrite (decrypt_own idx pw c Hp Hc).
    apply lookup_lt_is_Some_2. rewrite length_shares. now apply lookup_lt_Some in Hp.
  - exact Hfree.
Qed.

Local Notation bindings_of := (bindings_for pws).

Lemma is_bound_bindings_of idxs idx :
  idx ∉ idxs -> is_bound (bindings_of idxs) idx = false.
Proof.
  induction idxs as [|i idxs IH]; intros Hnot; [reflexivity|].
  apply not_elem_of_cons in Hnot as [Hne Hnot]. simpl.
  rewrite (IH Hnot), orb_false_r. apply Nat.eqb_neq. congruence.
Qed.

(** The loop, fed the passwords of the shares [todo] after those of the
    shares [done], ends with one binding per share, in the order of
    entry. *)
Lemma getPasswords_run mm rest todo :
  forall done w fuel,
    NoDup (done ++ todo) ->
    (forall i, i ∈ todo -> (i < length pws)%nat) ->
    length (done ++ todo) = Z.to_nat mm -> 0 <= mm ->
    (forall i', Z.of_nat (length done) <= i' -> input w !! password_name i' = None) ->
    stdin w = ((fun i => default ""%string (pws !! i)) <$> todo) ++ rest ->
    (length todo < fuel)%nat ->
    exists w',
      getPasswords fuel (Z.of_nat (length done)) (Some (JS.VNum mm)) cs (bindings_of done) w
      = Done (bindings_of (done ++ todo)) w'
      /\ stdin w' = rest /\ files w' = files w.
Proof.
  induction todo as [|idx todo IH]; intros done w fuel Hnd Hlt Hlen Hmm Hunset Hstdin Hfuel.
  - destruct fuel as [|fuel]; [simpl in Hfuel; lia|]. simpl.
    rewrite app_nil_r in *.
    replace (Z.of_nat (length done) =? mm) with true by (symmetry; apply Z.eqb_eq; lia).
    exists w. auto.
  - destruct fuel as [|fuel]; [simpl in Hfuel; lia|].
    assert (Hidx : (idx < length pws)%nat) by (apply Hlt, list_elem_of_here).
    destruct (lookup_lt_is_Some_2 pws idx Hidx) as [pw Hpw].
    simpl in Hstdin. rewrite Hpw in Hstdin. simpl in Hstdin.
    assert (Hfree : is_bound (bindings_of done) idx = false).
    { apply is_bound_bindings_of. apply NoDup_app in Hnd as (_ & Hd & _).
      intros Hin. apply (Hd idx Hin). apply list_elem_of_here. }
    rewrite (getPasswords_step fuel _ _ cs _ w pw
               (((fun i => default ""%string (pws !! i)) <$> todo) ++ rest)).
    + rewrite (new_bindings_own idx pw _ Hpw Hfree).
      rewrite bool_decide_eq_false_2 by discriminate.
      assert (Hb : bindings_of done ++ [{| shareIndex := idx; password := pw |}]
                   = bindings_of (done ++ [idx])).
      { unfold bindings_for. rewrite fmap_app. simpl. now rewrite Hpw. }
      rewrite Hb.
      assert (Hi : Z.of_nat (length done) + 1 = Z.of_nat (length (done ++ [idx])))
        by (rewrite length_app; simpl; lia).
      rewrite Hi.
      destruct (IH (done ++ [idx])
                  (with_input w (<[password_name (Z.of_nat (length done)) := JS.VStr pw]>
                                   (input w))
                     (((fun i => default ""%string (pws !! i)) <$> todo) ++ rest))
                  fuel) as (w' & Hrun & Hs & Hf).
      * now rewrite <- app_assoc.
      * intros i Hi'. apply Hlt. now apply list_elem_of_further.
      * now rewrite <- app_assoc.
      * exact Hmm.
      * intros i' Hi'. cbn [input with_input].
        rewrite lookup_insert_ne.
        -- apply Hunset. rewrite length_app in Hi'. simpl in Hi'. lia.
        -- intros Heq. apply password_name_inj in Heq.
           rewrite length_app in Hi'. simpl in Hi'. lia.
      * reflexivity.
      * simpl in Hfuel. lia.
      * exists w'. rewrite <- app_assoc in Hrun. simpl in Hrun. auto.
    + simpl. apply Z.eqb_neq. rewrite length_app in Hlen. simpl in Hlen. lia.
    + apply Hunset. lia.
    + exact Hstdin.
    + apply not_blank. eapply list_elem_of_lookup_2. exact Hpw.
Qed.

(** Decrypting, for a record with these shares, under the bindings of
    [idxs]. *)
Lemma decrypt_shares_bindings record idxs :
  seedShares record = cs ->
  (forall i, i ∈ idxs -> (i < length pws)%nat) ->
  decrypt_shares record (bindings_of idxs)
  = Ok ((fun i => default ""%string (shares !! i)) <$> idxs).
Proof.
  intros Hcs. induction idxs as [|idx idxs IH]; intros Hlt; [reflexivity|].
  assert (Hidx : (idx < length pws)%nat) by (apply Hlt, list_elem_of_here).
  destruct (lookup_lt_is_Some_2 pws idx Hidx) as [pw Hpw].
  assert (Hc : (idx < length cs)%nat) by (rewrite length_cs; exact Hidx).
  destruct (lookup_lt_is_Some_2 cs idx Hc) as [c Hcc].
  assert (Hs : (idx < length shares)%nat) by (rewrite length_shares; exact Hidx).
  destruct (lookup_lt_is_Some_2 shares idx Hs) as [share Hshare].
  simpl. rewrite Hcs, Hcc, Hpw. simpl.
  rewrite (decrypt_own idx pw c Hpw Hcc), Hshare.
  rewrite IH by (intros i Hi; apply Hlt; now apply list_elem_of_further).
  reflexivity.
Qed.

End Shares.

Hypothesis share_combine :
  forall secret numShares threshold r shares r',
    secrets_share secret numShares threshold r = Some (shares, r') ->
    length shares = Z.to_nat numShares
    /\ forall idxs,
        NoDup idxs -> length idxs = Z.to_nat threshold ->
        (forall i, i ∈ idxs -> (i < length shares)%nat) ->
        secrets_combine ((fun i => default ""%string (shares !! i)) <$> idxs) = Some secret.

Lemma bind_eq {A B} (c : M A) (f : A -> M B) w a w1 :
  c w = Done a w1 -> (c ≫= f) w = f a w1.
Proof. intros H. unfold mbind, M_bind. now rewrite H. Qed.

Lemma password_field_unset name ks i :
  fields_of [("file", Some name); ("keys", Some ks)]%string !! password_name i = None.
Proof.
  unfold fields_of, password_name. simpl.
  rewrite !lookup_insert_ne by discriminate. apply lookup_empty.
Qed.

(** Where the passwords of the shares differ from one another, the order
    of entry is free. A key made by [genSplitKey] with [m] of [n] shares
    required ([m = n = 1], or [2 <= m <= n]) under passwords that are
    not blank and pairwise distinct: whichever [m] of the shares are
    chosen and in whatever order their passwords are typed,
    [handleRecoverKeys] returns the record of the key with its stored
    [xpub] and the [xprv] of the seed that was split. *)
Lemma recovery_order_independent params r key r1 sk r' nn mm pws keys k record
    name ks idxs rest w :
  genKey r = Ok (key, r1) ->
  genSplitKey params r = Ok (sk, r') ->
  params !! "n" = Some (JS.VNum nn) ->
  params !! "m" = Some (JS.VNum mm) ->
  (nn = 1 /\ mm = 1) \/ 2 <= mm <= nn ->
  length pws = Z.to_nat nn ->
  (forall i pw, pws !! i = Some pw ->
                params !! password_name (Z.of_nat i) = Some (JS.VStr pw)) ->
  NoDup pws ->
  (forall pw, pw ∈ pws -> pw <> ""%string) ->
  xpub record = sk_xpub sk -> m record = sk_m sk ->
  seedShares record = sk_seedShares sk ->
  name <> ""%string -> ks <> ""%string ->
  files w !! name = Some (KeysJson keys) ->
  parse_indices ks = [Z.of_nat k] ->
  keys !! k = Some record ->
  NoDup idxs -> length idxs = Z.to_nat mm ->
  (forall i, i ∈ idxs -> (i < Z.to_nat nn)%nat) ->
  stdin w = ((fun i => default ""%string (pws !! i)) <$> idxs) ++ rest ->
  exists w',
    handleRecoverKeys {| arg_verifyonly := false; arg_file := Some name;
                         arg_keys := Some ks |} w
    = Done [{| r_index := index record; r_xpub := xpub record;
               r_xprv := Some (key_xprv key) |}] w'
    /\ stdin w' = rest.
Proof.
  intros Hkey Hgen Hn Hm Hvalid Hpl Hpws Hnd Hnb Hxpub Hrm Hrs Hname Hks Hfile Hparse Hk
         Hidx Hil Hlt Hstdin.
  destruct (genSplitKey_shape _ _ _ _ _ _ _ Hkey Hgen Hn)
    as (shares & Hcase & Hskx & Hskm & Hskn & Hlen' & Hall).
  assert (Hsl : length shares = length pws).
  { destruct Hcase as [[-> ->]|(Hne & mm' & r2 & Hm' & Hshare)]; [now rewrite Hpl|].
    destruct (share_combine _ _ _ _ _ _ Hshare) as [Hl _]. congruence. }
  assert (Hcl : length (sk_seedShares sk) = length pws) by congruence.
  assert (Henc : forall j share pw,
             shares !! j = Some share -> pws !! j = Some pw ->
             exists rr, sk_seedShares sk !! j = Some (encrypt pw share rr).1).
  { intros j share pw Hs Hp. destruct (Hall j share Hs) as (pw' & rr & Hp' & Hc).
    rewrite (Hpws j pw Hp) in Hp'. inversion Hp'; subst pw'. eauto. }
  assert (Hlt' : forall i, i ∈ idxs -> (i < length pws)%nat)
    by (intros i Hi; rewrite Hpl; now apply Hlt).
  (* the handler, up to the password loop *)
  destruct (recover_fields name ks) as [Ff Fk].
  unfold handleRecoverKeys. cbn [arg_file arg_keys arg_verifyonly].
  erewrite bind_eq by reflexivity.
  erewrite bind_eq
    by (apply getVariable_set; cbn [input]; rewrite Ff; now apply truthy_nonempty).
  erewrite bind_eq
    by (apply getVariable_set; cbn [input]; rewrite Fk; now apply truthy_nonempty).
  erewrite bind_eq by reflexivity. cbn [input]. rewrite Ff.
  erewrite bind_eq by (unfold read_keys; cbn [files to_string]; rewrite Hfile; reflexivity).
  erewrite bind_eq by reflexivity. cbn [input]. rewrite Fk. cbn [to_string].
  rewrite Hparse. cbn [last default]. unfold id.
  assert (Hkl : (k < length keys)%nat) by (now apply lookup_lt_Some in Hk).
  replace (Z.of_nat k <? 0) with false by (symmetry; apply Z.ltb_ge; lia).
  replace (Z.of_nat k >=? Z.of_nat (length keys)) with false
    by (symmetry; rewrite Z.geb_leb; apply Z.leb_gt; lia).
  cbn [orb].
  pose proof (select_positions_single keys 0 k record Hk) as Hsel.
  change (Z.of_nat 0) with 0 in Hsel. change (0 + k)%nat with k in Hsel. rewrite Hsel.
  (* the password loop *)
  set (w1 := {| input := fields_of [("file", Some name); ("keys", Some ks)]%string;
                stdin := stdin w; rng := rng w; files := files w |}).
  assert (Hmm0 : 0 <= mm) by lia.
  destruct (getPasswords_run
              (sk_seedShares sk) shares pws Hcl Hsl Henc Hnd Hnb mm rest idxs
              [] w1 (S (length (stdin w1))))
    as (w2 & Hrun & Hs2 & Hf2).
  { exact Hidx. }
  { exact Hlt'. }
  { exact Hil. }
  { exact Hmm0. }
  { intros i' _. apply password_field_unset. }
  { exact Hstdin. }
  { cbn [stdin w1]. rewrite Hstdin, length_app, length_fmap. lia. }
  simpl app in Hrun. cbn [length Z.of_nat] in Hrun.
  rewrite Hrm, Hskm, Hm, Hrs.
  erewrite bind_eq by exact Hrun.
  (* the recombination *)
  cbn [recoverKeys]. unfold recoverKey.
  rewrite (decrypt_shares_bindings (sk_seedShares sk) shares pws
             Hcl Hsl Henc record idxs Hrs Hlt').
  assert (Hseed :
    match (fun i => default ""%string (shares !! i)) <$> idxs with
    | [share] => Some share
    | _ => secrets_combine ((fun i => default ""%string (shares !! i)) <$> idxs)
    end = Some (seed key)).
  { destruct Hcase as [[-> ->]|(Hne & mm' & r2 & Hm' & Hshare)].
    - assert (mm = 1) by (destruct Hvalid as [[_ ?]|?]; lia). subst mm.
      destruct idxs as [|i [|j idxs']]; try discriminate.
      assert (i = 0%nat) by (specialize (Hlt i (list_elem_of_here _ _)); simpl in Hlt; lia).
      subst i. reflexivity.
    - rewrite Hm in Hm'. inversion Hm'; subst mm'; clear Hm'.
      assert (2 <= mm) by (destruct Hvalid as [[? _]|?]; [contradiction|lia]).
      destruct (share_combine _ _ _ _ _ _ Hshare) as [Hl Hcomb].
      assert (Hc : secrets_combine ((fun i => default ""%string (shares !! i)) <$> idxs)
                   = Some (seed key)).
      { apply Hcomb; [exact Hidx|exact Hil|]. intros i Hi. rewrite Hsl. now apply Hlt'. }
      destruct idxs as [|i [|j idxs']]; simpl in Hil; try lia; exact Hc. }
  rewrite Hseed. rewrite (genKey_derives _ _ _ Hkey).
  rewrite Hxpub, Hskx, String.eqb_refl. cbn [negb andb].
  exists w2. split; [reflexivity|exact Hs2].
Qed.

End Recovering.

(** ** The comparison with the recorded public key *)

Lemma recoverKeys_first_failure {C : Crypto} verifyonly passwords before :
  forall rs key after e,
    recoverKeys verifyonly passwords before = Ok rs ->
    recoverKey verifyonly passwords key = Throw e ->
    recoverKeys verifyonly passwords (before ++ key :: after) = Throw e.
Proof.
  induction before as [|b before IH]; intros rs key after e Hb Hk; simpl in *.
  - now rewrite Hk.
  - destruct (recoverKey verifyonly passwords b) as [rb|]; [|discriminate].
    destruct (recoverKeys verifyonly passwords before) as [rs'|] eqn:Hrs; [|discriminate].
    now rewrite (IH rs' key after e eq_refl Hk).
Qed.

(** C1, as stated, fails in verify-only mode: for the first record of
    the tampered batch, whose shares recombine to a key with another
    public key than the recorded one, [recoverKey] returns the derived
    public key and throws nothing. *)
Lemma verifyonly_ignores_mismatch : ~ @mismatch_is_fatal Reference.crypto true.
Proof.
  intros H.
  specialize (H BgclSample.bindings_a_b BgclSample.tampered_key
                BgclSample.tampered_plain BgclSample.tampered_seed
                BgclSample.tampered_pair.1 BgclSample.tampered_pair.2).
  assert (H1 : @decrypt_shares Reference.crypto BgclSample.tampered_key
                 BgclSample.bindings_a_b = Ok BgclSample.tampered_plain)
    by (vm_compute; reflexivity).
  assert (H2 : match BgclSample.tampered_plain with
               | [share] => Some share
               | _ => @secrets_combine Reference.crypto BgclSample.tampered_plain
               end = Some BgclSample.tampered_seed)
    by (vm_compute; reflexivity).
  assert (H3 : @fromSeedHex Reference.crypto BgclSample.tampered_seed
               = Some (BgclSample.tampered_pair.1, BgclSample.tampered_pair.2))
    by (vm_compute; reflexivity).
  assert (H4 : BgclSample.tampered_pair.1 <> xpub BgclSample.tampered_key)
    by (vm_compute; discriminate).
  specialize (H H1 H2 H3 H4). vm_compute in H. discriminate.
Qed.

(** The same at the level of the command: [verifysplitkeys] on the
    tampered batch prints the derived public key of key 0, where
    [recoverkeys] stops with the error. *)
Example verify_and_recover_on_tampered_batch :
  BgclSample.outcome_of
    (BgclSample.recover_run true BgclSample.tampered_files "0" ["a"; "b"]%string)
  = Some (Ok [{| r_index := 0;
                 r_xpub := "xpub60a2f2ba4cf9f512022643e2f0ae0f96dfe56cafbe8207cebd51a4a608b62742";
                 r_xprv := None |}])
  /\ xpub BgclSample.tampered_key = "xpub-of-another-key"%string
  /\ BgclSample.outcome_of
       (BgclSample.recover_run false BgclSample.tampered_files "0" ["a"; "b"]%string)
     = Some (Throw (Error "xpubs don't match for key 0")).
Proof.
  split; [|split]; vm_compute; reflexivity.
Qed.

(** C1, amended. In normal recovery mode, a selected key whose
    recombined seed derives another [xpub] than the recorded one makes
    the operation throw, naming the index of that key: the keys are
    handled in order and the first failure ends the operation, so a run
    that returns has matched every selected key. In verify-only mode the
    comparison is not made: the derived [xpub] is returned, without the
    [xprv], whether or not it is the recorded one. *)
Theorem xpub_mismatch {C : Crypto} :
  mismatch_is_fatal false
  /\ (forall passwords before rs key after e,
         recoverKeys false passwords before = Ok rs ->
         recoverKey false passwords key = Throw e ->
         recoverKeys false passwords (before ++ key :: after) = Throw e)
  /\ (forall name ks w keys recovered w',
         name <> ""%string -> ks <> ""%string ->
         files w !! name = Some (KeysJson keys) ->
         handleRecoverKeys {| arg_verifyonly := false; arg_file := Some name;
                              arg_keys := Some ks |} w = Done recovered w' ->
         Forall2 (fun key r => r_index r = index key /\ r_xpub r = xpub key
                               /\ is_Some (r_xprv r))
                 (select_positions 0 keys (parse_indices ks)) recovered)
  /\ (forall passwords key shares sd xpub' xprv',
         decrypt_shares key passwords = Ok shares ->
         match shares with [share] => Some share | _ => secrets_combine shares end = Some sd ->
         fromSeedHex sd = Some (xpub', xprv') ->
         recoverKey true passwords key
         = Ok {| r_index := index key; r_xpub := xpub'; r_xprv := None |}).
Proof.
  split; [|split; [|split]].
  - intros passwords key shares sd xpub' xprv' Hd Hs Hf Hne.
    unfold recoverKey. rewrite Hd, Hs, Hf.
    apply String.eqb_neq in Hne. rewrite Hne. reflexivity.
  - intros. eapply recoverKeys_first_failure; eauto.
  - intros name ks w keys recovered w' Hname Hks Hfile Hrun.
    destruct (handleRecoverKeys_done _ _ _ _ _ _ _ Hname Hks Hfile Hrun)
      as (passwords & Hrec & _).
    apply recoverKeys_indices in Hrec.
    eapply Forall2_impl; [exact Hrec|].
    intros key r [Hi Hx]. destruct (Hx eq_refl). auto.
  - intros passwords key shares sd xpub' xprv' Hd Hs Hf.
    unfold recoverKey. now rewrite Hd, Hs, Hf.
Qed.

Lemma xpub_mismatch_witness :
  @recoverKey Reference.crypto false BgclSample.bindings_a_b BgclSample.tampered_key
  = Throw (Error ("xpubs don't match for key " +:+ pretty (index BgclSample.tampered_key))).
Proof.
  apply (proj1 (@xpub_mismatch Reference.crypto)
           BgclSample.bindings_a_b BgclSample.tampered_key
           BgclSample.tampered_plain BgclSample.tampered_seed
           BgclSample.tampered_pair.1 BgclSample.tampered_pair.2).
  - vm_compute. reflexivity.
  - vm_compute. reflexivity.
  - vm_compute. reflexivity.
  - vm_compute. discriminate.
Defined.

(** ** The stand-in libraries keep their contracts *)

Import Reference.

#[global] Instance cong_equiv : Equivalence cong.
Proof.
  unfold cong. split.
  - intros x. reflexivity.
  - intros x y H. now symmetry.
  - intros x y z H1 H2. now rewrite H1.
Qed.

#[global] Instance cong_add : Proper (cong ==> cong ==> cong) Z.add.
Proof.
  unfold cong. intros a b H c d H'.
  rewrite (Z.add_mod a c), (Z.add_mod b d) by discriminate. now rewrite H, H'.
Qed.

#[global] Instance cong_sub : Proper (cong ==> cong ==> cong) Z.sub.
Proof.
  unfold cong. intros a b H c d H'.
  rewrite (Zminus_mod a c), (Zminus_mod b d). now rewrite H, H'.
Qed.

#[global] Instance cong_mul : Proper (cong ==> cong ==> cong) Z.mul.
Proof.
  unfold cong. intros a b H c d H'.
  rewrite (Z.mul_mod a c), (Z.mul_mod b d) by discriminate. now rewrite H, H'.
Qed.

#[global] Typeclasses Opaque cong.

Lemma mod_cong a : cong (a mod p) a.
Proof. unfold cong. apply Z.mod_mod. discriminate. Qed.

Lemma cong_eq a b : cong a b -> 0 <= a < p -> 0 <= b < p -> a = b.
Proof.
  unfold cong. intros H Ha Hb.
  now rewrite (Z.mod_small a p), (Z.mod_small b p) in H.
Qed.

Lemma peval_range cs x : 0 <= peval cs x < p.
Proof.
  destruct cs as [|c cs]; simpl; [unfold p; lia|].
  apply Z.mod_pos_bound. reflexivity.
Qed.

Lemma peval_cons c cs x : cong (peval (c :: cs) x) (c + x * peval cs x).
Proof. simpl. apply mod_cong. Qed.

(** Every residue other than 0 has [finv] for inverse: checked on the
    256 of them. *)
Lemma finv_spec a : a mod p <> 0 -> cong (a * finv a) 1.
Proof.
  intros Hne.
  assert (Hall : forallb (fun b => (b * ((b ^ 255) mod p)) mod p =? 1)
                   (Z.of_nat <$> seq 1 256) = true) by (vm_compute; reflexivity).
  rewrite forallb_forall in Hall.
  pose proof (Z.mod_pos_bound a p eq_refl) as Hb.
  assert (Hin : In (a mod p) (Z.of_nat <$> seq 1 256)).
  { apply list_elem_of_In, list_elem_of_fmap. exists (Z.to_nat (a mod p)).
    split; [lia|]. apply elem_of_seq. unfold p in *. lia. }
  apply Hall in Hin. apply Z.eqb_eq in Hin.
  unfold finv.
  transitivity ((a mod p) * ((a mod p) ^ 255 mod p)).
  - apply cong_mul; [symmetry; apply mod_cong|reflexivity].
  - unfold cong. rewrite Hin. reflexivity.
Qed.

Lemma quotient_length cs x1 : length (quotient cs x1) = (length cs - 1)%nat.
Proof.
  induction cs as [|c [|c2 cs] IH]; try reflexivity.
  change (length (quotient (c :: c2 :: cs) x1)) with (S (length (quotient (c2 :: cs) x1))).
  rewrite IH. simpl. lia.
Qed.

(** [cs(x) = cs(x1) + (x - x1) * q(x)] for the quotient [q]. *)
Lemma quotient_spec cs x1 x :
  cong (peval cs x) (peval cs x1 + (x - x1) * peval (quotient cs x1) x).
Proof.
  induction cs as [|c [|c2 cs] IH].
  - simpl. unfold cong. f_equal. ring.
  - simpl. rewrite !mod_cong. unfold cong. f_equal. ring.
  - change (quotient (c :: c2 :: cs) x1)
      with (peval (c2 :: cs) x1 :: quotient (c2 :: cs) x1).
    rewrite (peval_cons c), (peval_cons c (c2 :: cs) x1), (peval_cons (peval (c2 :: cs) x1)).
    rewrite IH. unfold cong. f_equal. ring.
Qed.

(** The repeated division computes the value at 0 of a polynomial from
    as many of its points as it has coefficients, or more, when the
    abscissas differ modulo [p]. *)
Lemma interpolate_correct fuel :
  forall pts cs,
    (length pts <= fuel)%nat ->
    (length cs <= length pts)%nat ->
    Forall (fun pt => pt.2 = peval cs pt.1) pts ->
    NoDup ((fun pt => pt.1 mod p) <$> pts) ->
    interpolate_at_0 fuel pts = peval cs 0.
Proof.
  induction fuel as [|fuel IH]; intros pts cs Hfuel Hlen Hpts Hnd.
  - destruct pts; [|simpl in Hfuel; lia]. destruct cs; [reflexivity|simpl in Hlen; lia].
  - destruct pts as [|[x1 y1] rest].
    + destruct cs; [reflexivity|simpl in Hlen; lia].
    + simpl. inversion Hpts as [|? ? Hy1 Hrest]; subst. simpl in Hy1.
      rewrite fmap_cons in Hnd. apply NoDup_cons in Hnd as [Hx1 Hnd]. simpl in Hx1.
      rewrite (IH _ (quotient cs x1)).
      * apply cong_eq; [|apply Z.mod_pos_bound; reflexivity|apply peval_range].
        rewrite mod_cong, (quotient_spec cs x1 0), Hy1.
        generalize (peval (quotient cs x1) 0), (peval cs x1).
        intros q v. unfold cong. f_equal. ring.
      * rewrite length_fmap. simpl in Hfuel. lia.
      * rewrite length_fmap, quotient_length. simpl in Hlen. lia.
      * apply Forall_fmap, Forall_forall. intros [x y] Hin. simpl.
        rewrite Forall_forall in Hrest. specialize (Hrest _ Hin). simpl in Hrest.
        assert (Hne : (x - x1) mod p <> 0).
        { intros H0. apply Hx1. apply list_elem_of_fmap. exists (x, y). split; [|exact Hin].
          simpl. apply Z.mod_divide in H0; [|discriminate].
          destruct H0 as [q Hq].
          replace x with (x1 + q * p) by lia. symmetry. apply Z.mod_add. discriminate. }
        apply cong_eq; [|apply Z.mod_pos_bound; reflexivity|apply peval_range].
        rewrite mod_cong, Hrest, Hy1, (quotient_spec cs x1 x).
        transitivity (peval (quotient cs x1) x * ((x - x1) * finv (x - x1))).
        -- generalize (finv (x - x1)), (peval (quotient cs x1) x), (peval cs x1).
           intros v q f. unfold cong. f_equal. ring.
        -- rewrite (finv_spec _ Hne). unfold cong. f_equal. ring.
      * rewrite <- list_fmap_compose.
        rewrite (list_fmap_ext _ (fun pt : Z * Z => pt.1 mod p) rest); [exact Hnd|].
        intros i [x y] _. reflexivity.
Qed.

Lemma strip_prefix_app a b : strip_prefix a (a +:+ b) = Some b.
Proof. induction a as [|c a IH]; simpl; [reflexivity|]. now rewrite Ascii.eqb_refl. Qed.

Lemma strip_prefix_other pw' :
  forall pw x, pw' <> pw -> strip_prefix (encode_password pw') (encode_password pw +:+ x) = None.
Proof.
  induction pw' as [|a' pw' IH]; intros [|a pw] x Hne; simpl; try reflexivity.
  - contradiction.
  - destruct (Ascii.eqb a' a) eqn:E; [|reflexivity].
    apply Ascii.eqb_eq in E. subst a'. apply IH. congruence.
Qed.

Lemma reference_decrypt_encrypt pw x r :
  @Bgcl.decrypt crypto pw (@Bgcl.encrypt crypto pw x r).1 = Some x.
Proof. simpl. apply strip_prefix_app. Qed.

Lemma reference_decrypt_other pw pw' x r :
  pw' <> pw -> @Bgcl.decrypt crypto pw' (@Bgcl.encrypt crypto pw x r).1 = None.
Proof. intros H. simpl. now apply strip_prefix_other. Qed.

Lemma decode_encode_values ys :
  Forall (fun y => 0 <= y < 65536) ys -> decode_values (encode_values ys) = Some ys.
Proof.
  induction 1 as [|y ys Hy _ IH]; [reflexivity|].
  simpl. rewrite IH. simpl.
  rewrite !nat_ascii_embedding.
  - rewrite !Z2Nat.id by (try apply Z.div_pos; try apply Z.mod_pos_bound; lia).
    f_equal. f_equal. symmetry. apply Z.div_mod. discriminate.
  - assert (0 <= y mod 256 < 256) by (apply Z.mod_pos_bound; lia). lia.
  - assert (0 <= y / 256 < 256).
    { split; [apply Z.div_pos; lia|]. apply Z.div_lt_upper_bound; lia. }
    lia.
Qed.

Lemma decode_encode_share x ys :
  0 <= x < 256 -> Forall (fun y => 0 <= y < 65536) ys ->
  decode_share (encode_share x ys) = Some (x, ys).
Proof.
  intros Hx Hys. unfold encode_share, decode_share.
  rewrite decode_encode_values by exact Hys. simpl.
  rewrite nat_ascii_embedding by lia. rewrite Z2Nat.id by lia. reflexivity.
Qed.

Lemma string_of_codes_codes s : string_of_codes (codes s) = Some s.
Proof.
  induction s as [|a s IH]; [reflexivity|]. simpl.
  pose proof (nat_ascii_bounded a) as Hb.
  replace (Z.of_nat (nat_of_ascii a) <? 256) with true by (symmetry; apply Z.ltb_lt; lia).
  rewrite IH. simpl. now rewrite Nat2Z.id, ascii_nat_embedding.
Qed.

Lemma draw_length count : forall r cs r', draw count r = (cs, r') -> length cs = count.
Proof.
  induction count as [|count IH]; intros r cs r' H; simpl in H.
  - inversion H. reflexivity.
  - destruct (draw count (next r)) as [cs' r''] eqn:E. inversion H; subst.
    simpl. f_equal. eapply IH. exact E.
Qed.

Lemma polynomials_spec secret threshold :
  forall r polys r',
    polynomials secret threshold r = (polys, r') ->
    Forall (fun cs => length cs = S (threshold - 1) /\ 0 <= hd 0 cs < 256) polys
    /\ hd 0 <$> polys = codes secret.
Proof.
  induction secret as [|a secret IH]; intros r polys r' H; simpl in H.
  - inversion H. split; [constructor|reflexivity].
  - destruct (draw (threshold - 1) r) as [cs r1] eqn:Hd.
    destruct (polynomials secret threshold r1) as [polys' r2] eqn:Hp.
    inversion H; subst; clear H.
    apply IH in Hp as [Hall Hcodes]. apply draw_length in Hd.
    split.
    + constructor; [|exact Hall]. simpl. split; [now rewrite Hd|].
      pose proof (nat_ascii_bounded a). lia.
    + rewrite fmap_cons. simpl. now rewrite Hcodes.
Qed.

Lemma fmap_seq_lookup {A B} (F : nat -> B) (G : A -> B) (l : list A) :
  (forall k x, l !! k = Some x -> F k = G x) ->
  F <$> seq 0 (length l) = G <$> l.
Proof.
  intros H. apply list_eq. intros k.
  rewrite !list_lookup_fmap.
  destruct (l !! k) as [x|] eqn:Hk; simpl.
  - rewrite (lookup_seq_lt _ _ _) by (now apply lookup_lt_Some in Hk). simpl.
    f_equal. now apply H.
  - rewrite lookup_seq_ge by (now apply lookup_ge_None in Hk). reflexivity.
Qed.

(** The value at 0 is the constant coefficient. *)
Lemma peval_at_0 cs : 0 <= hd 0 cs < 256 -> peval cs 0 = hd 0 cs.
Proof.
  destruct cs as [|c cs]; simpl; [reflexivity|]. intros H.
  rewrite Z.add_0_r. apply Z.mod_small. unfold p. lia.
Qed.

(** Shamir's scheme of the stand-in: any [threshold] of the shares, in
    any order, recombine to the secret. *)
Lemma reference_share_combine secret numShares threshold r shares r' :
  @Bgcl.secrets_share crypto secret numShares threshold r = Some (shares, r') ->
  length shares = Z.to_nat numShares
  /\ forall idxs,
      NoDup idxs -> length idxs = Z.to_nat threshold ->
      (forall i, i ∈ idxs -> (i < length shares)%nat) ->
      @Bgcl.secrets_combine crypto ((fun i => default ""%string (shares !! i)) <$> idxs)
      = Some secret.
Proof.
  simpl. unfold secrets_share.
  destruct (_ && _)%bool eqn:Hcond; [|discriminate].
  apply andb_prop in Hcond as [Hcond H4]. apply andb_prop in Hcond as [Hcond H3].
  apply andb_prop in Hcond as [H1 H2].
  apply Z.leb_le in H1, H2, H3, H4.
  destruct (polynomials secret (Z.to_nat threshold) r) as [polys r1] eqn:Hpolys.
  intros Heq; inversion Heq; subst shares r1; clear Heq.
  apply polynomials_spec in Hpolys as [Hall Hcodes].
  rewrite length_fmap, length_seq. split; [reflexivity|].
  intros idxs Hnd Hlen Hlt.
  set (share_of := fun i : nat =>
         (Z.of_nat (S i), (fun cs => peval cs (Z.of_nat (S i))) <$> polys)).
  assert (Hparsed :
    mapM decode_share
      ((fun i => default ""%string
                   (((fun j => encode_share (Z.of_nat (S j))
                                 ((fun cs => peval cs (Z.of_nat (S j))) <$> polys))
                       <$> seq 0 (Z.to_nat numShares)) !! i)) <$> idxs)
    = Some (share_of <$> idxs)).
  { apply mapM_Some, Forall2_fmap, Forall_Forall2_diag, Forall_forall.
    intros i Hi. apply Hlt in Hi.
    rewrite list_lookup_fmap, lookup_seq_lt by exact Hi. simpl.
    apply decode_encode_share; [lia|].
    apply Forall_fmap, Forall_forall. intros cs _. simpl.
    pose proof (peval_range cs (Z.of_nat (S i))) as Hr. unfold p in Hr. lia. }
  unfold secrets_combine. rewrite Hparsed. simpl.
  destruct idxs as [|i0 idxs'] eqn:Hidxs; [simpl in Hlen; lia|].
  rewrite <- Hidxs in *. rewrite Hidxs at 1. rewrite fmap_cons. cbn [share_of].
  rewrite length_fmap.
  rewrite <- (string_of_codes_codes secret), <- Hcodes. f_equal.
  rewrite (length_fmap _ polys).
  apply fmap_seq_lookup. intros k cs Hk.
  rewrite Forall_forall in Hall.
  destruct (Hall cs (list_elem_of_lookup_2 _ _ _ Hk)) as [Hcl Hhd].
  rewrite <- (peval_at_0 cs Hhd).
  apply interpolate_correct.
  - rewrite !length_fmap. lia.
  - rewrite !length_fmap. lia.
  - apply Forall_fmap, Forall_fmap, Forall_forall. intros i Hi. simpl.
    apply nth_lookup_Some. rewrite list_lookup_fmap, Hk. reflexivity.
  - rewrite <- !list_fmap_compose. apply NoDup_fmap_2_strong; [|exact Hnd].
    intros i j Hi Hj. unfold compose. simpl.
    apply Hlt in Hi. apply Hlt in Hj.
    rewrite !Z.mod_small by (unfold p; lia). lia.
Qed.

Lemma reference_share_threshold secret numShares threshold r shares r' :
  secrets_share secret numShares threshold r = Some (shares, r') ->
  2 <= threshold.
Proof.
  unfold secrets_share.
  destruct (_ && _)%bool eqn:Hc; [|discriminate]. intros _.
  apply andb_prop in Hc as [Hc1 _]. apply andb_prop in Hc1 as [_ Hc2].
  now apply Z.leb_le in Hc2.
Qed.

(** ** Sample runs on the stand-in libraries *)

Lemma split_roundtrip_witness :
  sk_n BgclSample.split_key.1 = Some (JS.VNum 3)
  /\ sk_m BgclSample.split_key.1 = Some (JS.VNum 2)
  /\ sk_xpub BgclSample.split_key.1 = key_xpub BgclSample.plain_key.1
  /\ length (sk_seedShares BgclSample.split_key.1) = Z.to_nat 3
  /\ (3 = 1 \/ 2 <= 2)
  /\ exists shares,
      @decrypt_selected Reference.crypto BgclSample.key_params
        (sk_seedShares BgclSample.split_key.1) [1; 2]%nat = Some shares
      /\ length shares = Z.to_nat 2
      /\ @recombine Reference.crypto shares = Some (seed BgclSample.plain_key.1)
      /\ (3 <> 1 -> @Bgcl.secrets_combine Reference.crypto shares
                     = Some (seed BgclSample.plain_key.1)).
Proof.
  apply (@split_roundtrip Reference.crypto
           reference_decrypt_encrypt reference_share_combine reference_share_threshold
           BgclSample.key_params BgclSample.key_rng
           BgclSample.plain_key.1 BgclSample.plain_key.2
           BgclSample.split_key.1 BgclSample.split_key.2 3 2 [1; 2]%nat).
  - vm_compute. reflexivity.
  - vm_compute. reflexivity.
  - vm_compute. reflexivity.
  - vm_compute. reflexivity.
  - lia.
  - lia.
  - compute_done.
  - reflexivity.
  - intros i Hi. repeat (apply elem_of_cons in Hi as [->|Hi]; [simpl; lia|]).
    now apply elem_of_nil in Hi.
Defined.

(** The passwords [b] then [a] for the sample key, and [a] then [b]. *)
Lemma recovery_order_independent_witness :
  exists w',
    @handleRecoverKeys Reference.crypto
      {| arg_verifyonly := false; arg_file := Some "keys.json"%string;
         arg_keys := Some "0"%string |}
      (BgclSample.recover_world BgclSample.split_files ["b"; "a"]%string)
    = Done [{| r_index := index BgclSample.split_record;
               r_xpub := xpub BgclSample.split_record;
               r_xprv := Some (key_xprv BgclSample.plain_key.1) |}] w'
    /\ stdin w' = [].
Proof.
  apply (@recovery_order_independent Reference.crypto
           reference_decrypt_encrypt reference_decrypt_other reference_share_combine
           BgclSample.key_params BgclSample.key_rng
           BgclSample.plain_key.1 BgclSample.plain_key.2
           BgclSample.split_key.1 BgclSample.split_key.2 3 2
           ["a"; "b"; "c"]%string [BgclSample.split_record] 0%nat BgclSample.split_record
           "keys.json"%string "0"%string [1; 0]%nat []).
  - vm_compute. reflexivity.
  - vm_compute. reflexivity.
  - vm_compute. reflexivity.
  - vm_compute. reflexivity.
  - right. lia.
  - reflexivity.
  - intros [|[|[|i]]] pw H; inversion H; subst; vm_compute; reflexivity.
  - compute_done.
  - intros pw Hin ->. revert Hin. compute_done.
  - reflexivity.
  - reflexivity.
  - reflexivity.
  - discriminate.
  - discriminate.
  - vm_compute. reflexivity.
  - vm_compute. reflexivity.
  - reflexivity.
  - compute_done.
  - reflexivity.
  - intros i Hi. repeat (apply elem_of_cons in Hi as [->|Hi]; [simpl; lia|]).
    now apply elem_of_nil in Hi.
  - reflexivity.
Defined.

Example b_then_a_as_a_then_b :
  BgclSample.outcome_of
    (BgclSample.recover_run false BgclSample.split_files "0" ["b"; "a"]%string)
  = BgclSample.outcome_of
      (BgclSample.recover_run false BgclSample.split_files "0" ["a"; "b"]%string)
  /\ BgclSample.outcome_of
       (BgclSample.recover_run false BgclSample.split_files "0" ["c"; "b"]%string)
     = Some (Ok [{| r_index := 0; r_xpub := key_xpub BgclSample.plain_key.1;
                    r_xprv := Some (key_xprv BgclSample.plain_key.1) |}]).
Proof. split; vm_compute; reflexivity. Qed.

Lemma finished_done (r : result (@World Reference.crypto) (list SplitKeyRecord)) :
  BgclSample.finished r = true ->
  r = Done (BgclSample.keys_of r) (BgclSample.world_of r).
Proof. destruct r; simpl; intros H; try discriminate. reflexivity. Qed.

(** A batch of two keys. *)
Lemma batch_index_is_position_witness :
  BgclSample.finished (BgclSample.split_run "2" "a" "b" "c") = true
  /\ (exists name,
         files (BgclSample.world_of (BgclSample.split_run "2" "a" "b" "c")) !! name
         = Some (KeysJson (BgclSample.keys_of (BgclSample.split_run "2" "a" "b" "c"))))
  /\ (forall i record,
         BgclSample.keys_of (BgclSample.split_run "2" "a" "b" "c") !! i = Some record ->
         index record = Z.of_nat i)
  /\ length (BgclSample.keys_of (BgclSample.split_run "2" "a" "b" "c")) = Z.to_nat 2
  /\ index <$> BgclSample.keys_of (BgclSample.split_run "2" "a" "b" "c")
     = Z.of_nat <$> seq 0 (Z.to_nat 2).
Proof.
  assert (F : BgclSample.finished (BgclSample.split_run "2" "a" "b" "c") = true)
    by (vm_compute; reflexivity).
  split; [exact F|].
  destruct (@batch_index_is_position Reference.crypto Reference.coercion
              (BgclSample.split_args "2") (BgclSample.split_world "a" "b" "c")
              _ _ (finished_done _ F)) as (Hfile & _ & Hidx & Hk & _).
  split; [exact Hfile|]. split; [exact Hidx|].
  apply (Hk "2"%string 2); [reflexivity|discriminate|].
  vm_compute. reflexivity.
Defined.

(** * Further properties of the recovery tool and the key commands *)

(** * Further properties of [src/recovery.js] *)

Section RecoveryFrame.
Context {L : TxLibrary}.

Lemma same_wallets_refl t : same_wallets t t.
Proof. repeat split. Qed.

Lemma same_wallets_trans t1 t2 t3 :
  same_wallets t1 t2 -> same_wallets t2 t3 -> same_wallets t1 t3.
Proof.
  unfold same_wallets. intros (?&?&?&?&?&?&?) (?&?&?&?&?&?&?).
  repeat split; congruence.
Qed.

Lemma buildInputs_frame t arg : same_wallets t (fst (buildInputs t arg)).
Proof.
  unfold buildInputs.
  destruct (match arg with Some us => Some us | None => unspents t end) as [us|];
    [|apply same_wallets_refl].
  destruct (buildInputs_loop _ _ _ us _ _ _) as [b [[ti tot|]|e]]; repeat split.
Qed.

Lemma setFees_frame t : same_wallets t (fst (setFees t)).
Proof. unfold setFees. destruct (txInfo t); repeat split. Qed.

Lemma buildOutputs_frame t addr a f : same_wallets t (fst (buildOutputs t addr a f)).
Proof.
  unfold buildOutputs. destruct (txInfo t) as [ti|].
  - cbn zeta. destruct (_ <=? 0); [repeat split|].
    destruct (negb (addOutput_ok _ _)); [repeat split|].
    cbn [wallets_source set_txInfo]. destruct (wallets_source t); repeat split.
  - destruct (negb _); repeat split.
Qed.

(** Every unspent the loop went through has an address record and, under
    [noSegwit], no witness script; the builder took its outpoint. *)
Lemma buildInputs_loop_records noSegwit dest wdest us :
  forall b ti tot b' ti' tot',
    buildInputs_loop noSegwit dest wdest us b ti tot = (b', Ok (Finished ti' tot')) ->
    Forall (fun u =>
              (exists addrs, dest = Some addrs /\ has_record addrs (u_address u))
              /\ (JS.truthy_str (u_witnessScript u) && noSegwit)%bool = false) us.
Proof.
  induction us as [|u us IH]; intros b ti tot b' ti' tot' H; [constructor|].
  simpl in H.
  destruct (JS.truthy_str (u_witnessScript u) && noSegwit)%bool eqn:Hw; [discriminate|].
  destruct dest as [addrs|]; [|discriminate].
  destruct (List.find _ addrs) as [a|] eqn:Hf; [|discriminate].
  destruct (negb (addInput_ok (ins b) (outpoint (u_id u)))); [discriminate|].
  destruct wdest as [w|]; [|discriminate].
  constructor.
  - split; [|exact Hw]. exists addrs. split; [reflexivity|].
    unfold has_record. rewrite Hf. eauto.
  - eapply IH. exact H.
Qed.

Lemma buildInputs_loop_zero noSegwit dest wdest us :
  forall b ti tot b' ti' tot',
    buildInputs_loop noSegwit dest wdest us b ti tot = (b', Ok (Finished ti' tot')) ->
    outputAmount ti' = outputAmount ti /\ spendAmount ti' = spendAmount ti
    /\ changeOutputs ti' = changeOutputs ti /\ payGoFee ti' = payGoFee ti.
Proof.
  induction us as [|u us IH]; intros b ti tot b' ti' tot' H; simpl in H.
  - inversion H; subst. repeat split.
  - destruct (JS.truthy_str (u_witnessScript u) && noSegwit)%bool; [discriminate|].
    destruct dest as [addrs|]; [|discriminate].
    destruct (List.find _ addrs) as [a|]; [|discriminate].
    destruct (negb (addInput_ok (ins b) (outpoint (u_id u)))); [discriminate|].
    destruct wdest as [w|]; [|discriminate].
    apply IH in H. exact H.
Qed.

End RecoveryFrame.

(** X1. When [buildInputs] hands back a [txInfo], that [txInfo] is also
    [this.txInfo]; it has one input per unspent, in the order of the
    unspents (the argument, or [this.unspents] without one), its
    [inputAmount] is the sum of their values, [unspents] is a copy of
    [inputs] and the amounts to be set later are 0. The builder got the
    outpoint of every unspent, in order. Every unspent has an address
    record in the recovery wallet and, when BCH is recovered from a BTC
    wallet, none has a witness script. *)
Theorem buildInputs_result {L : TxLibrary} t arg t' ti :
  buildInputs t arg = (t', Ok (Some ti)) ->
  exists us,
    match arg with Some a => Some a | None => unspents t end = Some us
    /\ txInfo t' = Some ti
    /\ map in_unspent (inputs ti) = us
    /\ inputAmount ti = sum_values us
    /\ ti_unspents ti = Some (inputs ti)
    /\ outputAmount ti = 0 /\ minerFee ti = 0 /\ outputs ti = []
    /\ ins (recoveryTx t') = ins (recoveryTx t) ++ map (fun u => outpoint (u_id u)) us
    /\ outs (recoveryTx t') = outs (recoveryTx t)
    /\ Forall (fun u => exists addrs,
                 addresses_dest t = Some addrs /\ has_record addrs (u_address u)) us
    /\ (sourceCoin t = bch -> recoveryCoin t = btc ->
        Forall (fun u => JS.truthy_str (u_witnessScript u) = false) us).
Proof.
  unfold buildInputs. intros H.
  destruct (match arg with Some a => Some a | None => unspents t end) as [us|] eqn:Hus;
    [|discriminate].
  destruct (buildInputs_loop _ _ _ us _ _ _) as [b [[ti0 tot|]|e]] eqn:Hloop;
    try discriminate.
  inversion H; subst; clear H.
  pose proof (buildInputs_loop_finished _ _ _ _ _ _ _ _ _ _ Hloop)
    as (E1 & E2 & E3 & E4 & _ & E6 & E7 & _).
  pose proof (buildInputs_loop_zero _ _ _ _ _ _ _ _ _ _ Hloop) as (Z1 & _).
  pose proof (buildInputs_loop_records _ _ _ _ _ _ _ _ _ _ Hloop) as Hrec.
  exists us. cbn [txInfo set_txInfo set_recoveryTx recoveryTx inputs inputAmount
                  ti_unspents outputAmount minerFee outputs].
  split; [reflexivity|]. split; [reflexivity|].
  split; [exact E3|]. split; [rewrite E4; simpl; lia|]. split; [reflexivity|].
  split; [rewrite Z1; reflexivity|]. split; [rewrite E6; reflexivity|].
  split; [rewrite E7; reflexivity|]. split; [exact E1|]. split; [exact E2|].
  split.
  - eapply Forall_impl; [exact Hrec|]. intros u [Hu _]. exact Hu.
  - intros Hs Hr. rewrite Hs, Hr in Hrec. simpl in Hrec.
    eapply Forall_impl; [exact Hrec|]. intros u [_ Hu].
    now rewrite andb_true_r in Hu.
Qed.

(** X2. With a [txInfo] in place, [buildOutputs] records as
    [outputAmount] and [spendAmount] the amount it was given, when that
    is not 0, and otherwise [inputAmount] less the fee it was given or,
    that being absent or 0, less [minerFee]. It does so before any check,
    so the record is made even when the call throws; [minerFee],
    [inputAmount] and [inputs] stay as they were, also when a fee is
    passed. *)
Theorem buildOutputs_amount {L : TxLibrary} t ti addr a f :
  txInfo t = Some ti ->
  exists ti',
    txInfo (fst (buildOutputs t addr a f)) = Some ti'
    /\ outputAmount ti' = chosen_amount ti a f
    /\ spendAmount ti' = chosen_amount ti a f
    /\ minerFee ti' = minerFee ti
    /\ inputAmount ti' = inputAmount ti
    /\ inputs ti' = inputs ti
    /\ (forall v, a = Some v -> v <> 0 -> chosen_amount ti a f = v)
    /\ (forall v, a = None \/ a = Some 0 -> f = Some v -> v <> 0 ->
                  chosen_amount ti a f = inputAmount ti - v)
    /\ (a = None \/ a = Some 0 -> f = None \/ f = Some 0 ->
        chosen_amount ti a f = inputAmount ti - minerFee ti).
Proof.
  intros Hti.
  assert (Hcases :
    (forall v, a = Some v -> v <> 0 -> chosen_amount ti a f = v)
    /\ (forall v, a = None \/ a = Some 0 -> f = Some v -> v <> 0 ->
                  chosen_amount ti a f = inputAmount ti - v)
    /\ (a = None \/ a = Some 0 -> f = None \/ f = Some 0 ->
        chosen_amount ti a f = inputAmount ti - minerFee ti)).
  { unfold chosen_amount, JS.or_num. split; [|split].
    - intros v -> Hv. apply Z.eqb_neq in Hv. now rewrite Hv.
    - intros v [->| ->] -> Hv; apply Z.eqb_neq in Hv; simpl; now rewrite Hv.
    - intros [->| ->] [->| ->]; reflexivity. }
  unfold buildOutputs. rewrite Hti. cbn zeta. fold (chosen_amount ti a f).
  destruct (chosen_amount ti a f <=? 0);
    [eexists; cbn; repeat split; apply Hcases|].
  destruct (negb (addOutput_ok addr (chosen_amount ti a f)));
    [eexists; cbn; repeat split; apply Hcases|].
  cbn [wallets_source set_txInfo].
  destruct (wallets_source t); eexists; cbn; repeat split; apply Hcases.
Qed.

(** X3. With a [txInfo] in place, [buildOutputs] throws 'This recovery
    transaction cannot pay its own fees' exactly when the amount it
    settled on is 0 or less, and then neither the builder nor the lists
    of outputs have changed. It returns exactly when the amount is
    positive, the builder accepts the output and the source wallet is
    set; then the builder has one more output, of that address and
    amount, and [outputs] and [externalOutputs] both end with its
    description. An amount passed explicitly is not compared with the
    inputs. *)
Theorem buildOutputs_outcome {L : TxLibrary} t ti addr a f :
  txInfo t = Some ti ->
  let amount := chosen_amount ti a f in
  let r := buildOutputs t addr a f in
  (snd r = Throw (Error "This recovery transaction cannot pay its own fees. Aborting.")
   <-> amount <= 0)
  /\ (amount <= 0 ->
      recoveryTx (fst r) = recoveryTx t
      /\ exists ti', txInfo (fst r) = Some ti'
           /\ outputs ti' = outputs ti /\ externalOutputs ti' = externalOutputs ti)
  /\ (snd r = Ok tt
      <-> 0 < amount /\ addOutput_ok addr amount = true /\ is_Some (wallets_source t))
  /\ (snd r = Ok tt ->
      exists ws ti',
        wallets_source t = Some ws
        /\ txInfo (fst r) = Some ti'
        /\ ins (recoveryTx (fst r)) = ins (recoveryTx t)
        /\ outs (recoveryTx (fst r)) = outs (recoveryTx t) ++ [(addr, amount)]
        /\ outputs ti' = outputs ti
                         ++ [{| o_address := addr; o_value := amount;
                                o_valueString := pretty amount;
                                o_wallet := w_id ws; o_change := false |}]
        /\ externalOutputs ti' = externalOutputs ti
                                 ++ [{| o_address := addr; o_value := amount;
                                        o_valueString := pretty amount;
                                        o_wallet := w_id ws; o_change := false |}]).
Proof.
  intros Hti amount r. subst r. unfold buildOutputs. rewrite Hti. cbn zeta.
  fold (chosen_amount ti a f). fold amount.
  destruct (amount <=? 0) eqn:Hle.
  - apply Z.leb_le in Hle. cbn [fst snd].
    split; [split; [intros _; exact Hle|reflexivity]|].
    split; [intros _; split; [reflexivity|eexists; cbn; repeat split]|].
    split; [split; [discriminate|intros [? _]; lia]|discriminate].
  - apply Z.leb_gt in Hle.
    destruct (addOutput_ok addr amount) eqn:Hok; cbn [negb].
    + cbn [wallets_source set_txInfo]. destruct (wallets_source t) as [ws|] eqn:Hws;
        cbn [fst snd].
      * split; [split; [discriminate|lia]|]. split; [lia|].
        split; [split; [intros _; repeat split; [lia|eauto]|reflexivity]|].
        intros _. eexists _, _. repeat split.
      * split; [split; [discriminate|lia]|]. split; [lia|].
        split; [split; [discriminate|intros (_ & _ & [? ?]); discriminate]|discriminate].
    + cbn [fst snd]. split; [split; [discriminate|lia]|]. split; [lia|].
      split; [split; [discriminate|intros (_ & ? & _); discriminate]|discriminate].
Qed.

(** X4. Without a [txInfo], [buildOutputs] never succeeds and leaves the
    tool as it was: the error asks for an output amount or a call of
    [buildInputs] when no amount (or 0) is given, and with an amount the
    call fails on the assignment to [this.txInfo.outputAmount]. *)
Theorem buildOutputs_without_txInfo {L : TxLibrary} t addr a f :
  txInfo t = None ->
  fst (buildOutputs t addr a f) = t
  /\ (exists e, snd (buildOutputs t addr a f) = Throw e)
  /\ (a = None \/ a = Some 0 ->
      snd (buildOutputs t addr a f)
      = Throw (Error "Could not find transaction info. Please provide an output amount, or call buildInputs."))
  /\ (forall v, a = Some v -> v <> 0 ->
      snd (buildOutputs t addr a f)
      = Throw (TypeError "Cannot set property 'outputAmount' of undefined")).
Proof.
  intros Hti. unfold buildOutputs. rewrite Hti.
  split; [destruct (negb _); reflexivity|].
  split; [destruct (negb _); eauto|].
  split.
  - intros [->| ->]; reflexivity.
  - intros v -> Hv. simpl. apply Z.eqb_neq in Hv. now rewrite Hv.
Qed.

Lemma setWallet_same t c w addrs :
  wallets_dest (Recovery.setWallet t c w addrs)
  = (if coin_eqb (recoveryCoin t) c then Some w else wallets_dest t)
  /\ addresses_dest (Recovery.setWallet t c w addrs)
     = (if coin_eqb (recoveryCoin t) c then Some addrs else addresses_dest t)
  /\ wallets_source (Recovery.setWallet t c w addrs)
     = (if coin_eqb (sourceCoin t) c then Some w else wallets_source t)
  /\ addresses_source (Recovery.setWallet t c w addrs)
     = (if coin_eqb (sourceCoin t) c then Some addrs else addresses_source t).
Proof.
  unfold Recovery.setWallet.
  destruct (coin_eqb (sourceCoin t) c); cbn;
    destruct (coin_eqb (recoveryCoin t) c); cbn; repeat split.
Qed.

Lemma coin_eqb_refl c : coin_eqb c c = true.
Proof. destruct c; reflexivity. Qed.

(** X5. After [buildTransaction] has returned, the recovery wallet and
    its address list are the destination of the tool. The source is the
    source wallet with its address list when the two coins differ; when
    they are the same coin (source [btc], recovery type [btc-segwit]),
    each [setWallet] fills both places, so that the source too is the
    recovery wallet, and the output is described as belonging to it. *)
Theorem buildTransaction_wallets {L : TxLibrary} t0 sw sa rw ra found addr t' b :
  buildTransaction t0 sw sa rw ra found addr = (t', Ok b) ->
  wallets_dest t' = Some rw /\ addresses_dest t' = Some ra
  /\ unspents t' = Some found
  /\ (if coin_eqb (sourceCoin t0) (recoveryCoin t0)
      then wallets_source t' = Some rw /\ addresses_source t' = Some ra
      else wallets_source t' = Some sw /\ addresses_source t' = Some sa)
  /\ exists ti o,
       txInfo t' = Some ti /\ last (outputs ti) = Some o
       /\ o_wallet o = if coin_eqb (sourceCoin t0) (recoveryCoin t0)
                       then w_id rw else w_id sw.
Proof.
  unfold buildTransaction. intros H.
  set (t1 := Recovery.setWallet t0 (sourceCoin t0) sw sa) in *.
  set (t2 := Recovery.setWallet t1 (recoveryCoin t1) rw ra) in *.
  set (t3 := set_unspents t2 (Some found)) in *.
  destruct (buildInputs t3 None) as [t4 [?|?]] eqn:H4; [|discriminate].
  destruct (setFees t4) as [t5 [fee|?]] eqn:H5; [|discriminate].
  destruct (buildOutputs t5 addr None None) as [t6 [[]|?]] eqn:H6; [|discriminate].
  inversion H; subst t' b; clear H.
  pose proof (buildInputs_frame t3 None) as F4. rewrite H4 in F4.
  pose proof (setFees_frame t4) as F5. rewrite H5 in F5.
  pose proof (buildOutputs_frame t5 addr None None) as F6. rewrite H6 in F6.
  cbn [fst] in *.
  pose proof (same_wallets_trans _ _ _ (same_wallets_trans _ _ _ F4 F5) F6)
    as (_ & _ & Ws & Wd & As & Ad & Us).
  destruct (setWallet_keeps t0 (sourceCoin t0) sw sa) as (K1 & K2 & _).
  fold t1 in K1, K2.
  destruct (setWallet_same t0 (sourceCoin t0) sw sa) as (S1 & S2 & S3 & S4).
  fold t1 in S1, S2, S3, S4. rewrite coin_eqb_refl in S3, S4.
  destruct (setWallet_same t1 (recoveryCoin t1) rw ra) as (R1 & R2 & R3 & R4).
  fold t2 in R1, R2, R3, R4. rewrite coin_eqb_refl in R1, R2.
  rewrite K1, K2 in R3, R4.
  assert (Hsrc : wallets_source t6
                 = if coin_eqb (sourceCoin t0) (recoveryCoin t0) then Some rw else Some sw).
  { rewrite Ws. cbn [wallets_source t3 set_unspents]. rewrite R3, S3. reflexivity. }
  split; [rewrite Wd; exact R1|]. split; [rewrite Ad; exact R2|].
  split; [rewrite Us; reflexivity|].
  split.
  - rewrite Hsrc, As. cbn [addresses_source t3 set_unspents]. rewrite R4, S4.
    destruct (coin_eqb (sourceCoin t0) (recoveryCoin t0)); split; reflexivity.
  - destruct (setFees_buildOutputs_ok _ _ _ _ _ H5 H6)
      as (ti0 & ti & _ & E2 & _ & _ & _ & _ & _ & _ & _ & _ & _ & E12).
    exists ti. eexists. split; [exact E2|]. rewrite E12, last_snoc.
    split; [reflexivity|]. cbn [o_wallet].
    assert (E : wallets_source t4 = wallets_source t6)
      by (destruct F5 as (_ & _ & ? & _), F6 as (_ & _ & ? & _); congruence).
    rewrite E, Hsrc.
    destruct (coin_eqb (sourceCoin t0) (recoveryCoin t0)); reflexivity.
Qed.

Lemma buildInputs_loop_no_return {L : TxLibrary} noSegwit addrs wdest us :
  Forall (fun u => has_record addrs (u_address u)) us ->
  forall b ti tot b',
    buildInputs_loop noSegwit (Some addrs) wdest us b ti tot <> (b', Ok Returned).
Proof.
  induction 1 as [|u us [a Hu] _ IH]; intros b ti tot b' H; simpl in H;
    [discriminate|].
  destruct (JS.truthy_str (u_witnessScript u) && noSegwit)%bool; [discriminate|].
  rewrite Hu in H.
  destruct (negb (addInput_ok (ins b) (outpoint (u_id u)))); [discriminate|].
  destruct wdest as [w|]; [|discriminate].
  exact (IH _ _ _ _ H).
Qed.

Lemma outputAddresses_record addrs outputs address :
  address ∈ RecoveryCalls.outputAddresses (Some addrs) outputs ->
  has_record addrs address.
Proof.
  unfold RecoveryCalls.outputAddresses. intros H.
  apply list_elem_of_In, filter_In in H as [_ H].
  now apply bool_decide_eq_true in H.
Qed.

(** X6. [findUnspents] asks the service only about output addresses of
    the faulty transaction that have a record in the recovery wallet,
    none at all when the wallet is not set; it stores the answer in
    [this.unspents]. When the service answers with unspents on the
    addresses it was asked about, the [buildInputs()] that follows does
    not leave its loop early: it does not hand back [undefined]. *)
Theorem findUnspents_then_buildInputs {L : TxLibrary} t txid outputs service t1 us :
  RecoveryCalls.findUnspents t txid outputs service = Ok (t1, us) ->
  (forall address, address ∈ RecoveryCalls.outputAddresses (addresses_dest t) outputs ->
     address ∈ outputs
     /\ exists addrs, addresses_dest t = Some addrs /\ has_record addrs address)
  /\ unspents t1 = Some us
  /\ us = service (RecoveryCalls.outputAddresses (addresses_dest t) outputs)
  /\ (Forall (fun u => u_address u
                       ∈ RecoveryCalls.outputAddresses (addresses_dest t) outputs) us ->
      snd (buildInputs t1 None) <> Ok None).
Proof.
  unfold RecoveryCalls.findUnspents.
  destruct (negb _); [discriminate|]. intros H; inversion H; subst; clear H.
  split.
  - intros address Hin. split.
    + unfold RecoveryCalls.outputAddresses in Hin.
      apply list_elem_of_In, filter_In in Hin as [Hin _]. now apply list_elem_of_In.
    + destruct (addresses_dest t) as [addrs|].
      * exists addrs. split; [reflexivity|]. eapply outputAddresses_record; eauto.
      * unfold RecoveryCalls.outputAddresses in Hin.
        apply list_elem_of_In, filter_In in Hin as [_ Hin]. discriminate.
  - split; [reflexivity|]. split; [reflexivity|].
    set (us := service _). clearbody us.
    intros Hall. unfold buildInputs. cbn [unspents set_unspents].
    cbn [addresses_dest wallets_dest recoveryTx recoveryCoin sourceCoin].
    destruct (addresses_dest t) as [addrs|] eqn:Hd.
    + destruct (buildInputs_loop _ _ _ us _ _ _) as [b [[ti tot|]|e]] eqn:Hloop;
        cbn [snd]; try discriminate.
      exfalso. cbn [addresses_dest set_unspents] in Hloop. rewrite Hd in Hloop.
      eapply (buildInputs_loop_no_return _ addrs); [|exact Hloop].
      eapply Forall_impl; [exact Hall|]. intros u Hu.
      exact (outputAddresses_record _ _ _ Hu).
    + destruct us as [|u us']; [simpl; discriminate|].
      apply Forall_cons in Hall as [Hu _]. simpl in Hu.
      induction outputs; simpl in Hu; [now apply elem_of_nil in Hu|auto].
Qed.

Lemma buildInputs_loop_builder {L : TxLibrary} noSegwit dest wdest us :
  forall b ti tot b' r,
    buildInputs_loop noSegwit dest wdest us b ti tot = (b', r) ->
    outs b' = outs b
    /\ exists k, (k <= length us)%nat
         /\ ins b' = ins b ++ map (fun u => outpoint (u_id u)) (take k us).
Proof.
  induction us as [|u us IH]; intros b ti tot b' r H; simpl in H.
  - inversion H; subst. split; [reflexivity|]. exists 0%nat.
    split; [reflexivity|]. simpl. now rewrite app_nil_r.
  - assert (Hstop : forall r0, (b, r0) = (b', r) ->
              outs b' = outs b
              /\ exists k, (k <= length (u :: us))%nat
                   /\ ins b' = ins b ++ map (fun u => outpoint (u_id u)) (take k (u :: us))).
    { intros r0 E. inversion E; subst. split; [reflexivity|]. exists 0%nat.
      split; [simpl; lia|]. simpl. now rewrite app_nil_r. }
    destruct (JS.truthy_str (u_witnessScript u) && noSegwit)%bool; [now apply Hstop in H|].
    destruct dest as [addrs|]; [|now apply Hstop in H].
    destruct (List.find _ addrs) as [a|]; [|now apply Hstop in H].
    destruct (negb (addInput_ok (ins b) (outpoint (u_id u)))); [now apply Hstop in H|].
    destruct wdest as [w|].
    + apply IH in H as (Ho & k & Hk & Hi). split; [exact Ho|].
      exists (S k). split; [simpl; lia|]. rewrite Hi. cbn [ins]. simpl.
      now rewrite <- app_assoc.
    + inversion H; subst. split; [reflexivity|]. exists 1%nat.
      split; [simpl; lia|]. reflexivity.
Qed.

(** Where the loop of [buildInputs] ends when it does not run through:
    at the first unspent [u] that has a witness script (recovering BCH
    from BTC), or no address record, or that the builder refuses; the
    builder then holds the inputs of the unspents before [u]. Without a
    recovery wallet the loop ends after the first input was added. *)
Lemma buildInputs_loop_stop {L : TxLibrary} noSegwit dest wdest us :
  forall b ti tot b' r,
    buildInputs_loop noSegwit dest wdest us b ti tot = (b', r) ->
    (forall ti' tot', r <> Ok (Finished ti' tot')) ->
    exists pre u post,
      us = pre ++ u :: post
      /\ Forall (fun v => (JS.truthy_str (u_witnessScript v) && noSegwit)%bool = false
                          /\ exists addrs, dest = Some addrs
                                           /\ has_record addrs (u_address v)) pre
      /\ let held := ins b ++ map (fun v => outpoint (u_id v)) pre in
         ((JS.truthy_str (u_witnessScript u) && noSegwit)%bool = true
          /\ ins b' = held
          /\ r = Throw (Error "Warning! It appears one of the unspents is on a Segwit address. The tool only recovers BCH from non-Segwit BTC addresses. Aborting."))
         \/ (dest = None /\ ins b' = held
             /\ r = Throw (TypeError "Cannot read property 'find' of null"))
         \/ ((exists addrs, dest = Some addrs /\ ~ has_record addrs (u_address u))
             /\ ins b' = held /\ r = Ok Returned)
         \/ (addInput_ok held (outpoint (u_id u)) = false
             /\ ins b' = held
             /\ r = Throw (Error ("Error adding unspent " +:+ u_id u)))
         \/ (wdest = None /\ addInput_ok held (outpoint (u_id u)) = true
             /\ ins b' = held ++ [outpoint (u_id u)]
             /\ r = Throw (TypeError "Cannot read property 'isV1' of null")).
Proof.
  induction us as [|u us IH]; intros b ti tot b' r H Hfail; simpl in H.
  - inversion H; subst. exfalso. eapply Hfail. reflexivity.
  - destruct (JS.truthy_str (u_witnessScript u) && noSegwit)%bool eqn:Hw.
    { inversion H; subst. exists [], u, us. split; [reflexivity|]. split; [constructor|].
      cbn [map]. rewrite app_nil_r. left. auto. }
    destruct dest as [addrs|] eqn:Hd.
    2:{ inversion H; subst. exists [], u, us. split; [reflexivity|]. split; [constructor|].
        cbn [map]. rewrite app_nil_r. right. left. auto. }
    destruct (List.find _ addrs) as [a|] eqn:Hf.
    2:{ inversion H; subst. exists [], u, us. split; [reflexivity|]. split; [constructor|].
        cbn [map]. rewrite app_nil_r. right. right. left.
        split; [|auto]. exists addrs. split; [reflexivity|].
        unfold has_record. rewrite Hf. apply is_Some_None. }
    destruct (addInput_ok (ins b) (outpoint (u_id u))) eqn:Ha; cbn [negb] in H.
    2:{ inversion H; subst. exists [], u, us. split; [reflexivity|]. split; [constructor|].
        cbn [map]. rewrite app_nil_r. right. right. right. left. auto. }
    destruct wdest as [w|] eqn:Hwd.
    2:{ inversion H; subst. exists [], u, us. split; [reflexivity|]. split; [constructor|].
        cbn [map ins]. rewrite app_nil_r. right. right. right. right. auto. }
    apply IH in H as (pre & v & post & Hus & Hpre & Hstop); [|exact Hfail].
    exists (u :: pre), v, post. split; [now rewrite Hus|].
    split.
    { constructor; [|exact Hpre]. split; [exact Hw|]. exists addrs. split; [reflexivity|].
      unfold has_record. rewrite Hf. eauto. }
    cbn [ins map] in Hstop |- *. rewrite <- app_assoc in Hstop. exact Hstop.
Qed.

(** X7. A call of [buildInputs] that does not hand back a [txInfo]
    leaves [this.txInfo] as it was and the outputs of the builder
    alone, but the builder keeps what the loop added. The loop ended at
    one unspent [u]: the first with a witness script when BCH is
    recovered from BTC (an error), the first without an address record
    (the call returns [undefined]) or the first that the builder
    refuses (an error naming it); the builder then holds the inputs of
    all the unspents before [u], each of which has an address record.
    Without a recovery wallet the call fails after the input of the
    first unspent was added. Without an argument and without
    [this.unspents] the call throws 'Could not find unspents' and
    changes nothing. *)
Theorem buildInputs_failure {L : TxLibrary} t arg :
  (arg = None -> unspents t = None ->
   buildInputs t arg
   = (t, Throw (Error "Could not find unspents. Either supply an argument or call findUnspents")))
  /\ (forall us,
         match arg with Some a => Some a | None => unspents t end = Some us ->
         (forall ti, snd (buildInputs t arg) <> Ok (Some ti)) ->
         let r := buildInputs t arg in
         let noSegwit := (coin_eqb (recoveryCoin t) btc && coin_eqb (sourceCoin t) bch)%bool in
         txInfo (fst r) = txInfo t
         /\ outs (recoveryTx (fst r)) = outs (recoveryTx t)
         /\ exists pre u post,
              us = pre ++ u :: post
              /\ Forall (fun v =>
                           (JS.truthy_str (u_witnessScript v) && noSegwit)%bool = false
                           /\ exists addrs, addresses_dest t = Some addrs
                                            /\ has_record addrs (u_address v)) pre
              /\ let held := ins (recoveryTx t) ++ map (fun v => outpoint (u_id v)) pre in
                 ((JS.truthy_str (u_witnessScript u) && noSegwit)%bool = true
                  /\ ins (recoveryTx (fst r)) = held
                  /\ snd r = Throw (Error "Warning! It appears one of the unspents is on a Segwit address. The tool only recovers BCH from non-Segwit BTC addresses. Aborting."))
                 \/ (addresses_dest t = None
                     /\ ins (recoveryTx (fst r)) = held
                     /\ snd r = Throw (TypeError "Cannot read property 'find' of null"))
                 \/ ((exists addrs, addresses_dest t = Some addrs
                                    /\ ~ has_record addrs (u_address u))
                     /\ ins (recoveryTx (fst r)) = held
                     /\ snd r = Ok None)
                 \/ (addInput_ok held (outpoint (u_id u)) = false
                     /\ ins (recoveryTx (fst r)) = held
                     /\ snd r = Throw (Error ("Error adding unspent " +:+ u_id u)))
                 \/ (wallets_dest t = None
                     /\ addInput_ok held (outpoint (u_id u)) = true
                     /\ ins (recoveryTx (fst r)) = held ++ [outpoint (u_id u)]
                     /\ snd r = Throw (TypeError "Cannot read property 'isV1' of null"))).
Proof.
  split.
  - unfold buildInputs. intros -> ->. reflexivity.
  - intros us Hus Hfail. cbv zeta. revert Hfail. unfold buildInputs. rewrite Hus.
    destruct (buildInputs_loop _ _ _ us _ _ _) as [b r] eqn:Hloop.
    intros Hfail.
    destruct (buildInputs_loop_builder _ _ _ _ _ _ _ _ _ Hloop) as (Ho & _).
    assert (Hnot : forall ti' tot', r <> Ok (Finished ti' tot')).
    { intros ti' tot' ->. cbn [fst snd] in Hfail. eapply Hfail. reflexivity. }
    destruct (buildInputs_loop_stop _ _ _ _ _ _ _ _ _ Hloop Hnot)
      as (pre & u & post & E & Hpre & Hstop).
    cbv zeta in Hstop.
    destruct Hstop
      as [(H1 & H2 & ->)|[(H1 & H2 & ->)|[(H1 & H2 & ->)|[(H1 & H2 & ->)
          |(H1 & H1' & H2 & ->)]]]];
      cbn [fst snd txInfo set_recoveryTx recoveryTx];
      (split; [reflexivity|]); (split; [exact Ho|]);
      exists pre, u, post; (split; [exact E|]); (split; [exact Hpre|]).
    + left. auto.
    + right. left. auto.
    + right. right. left. auto.
    + right. right. right. left. auto.
    + right. right. right. right. auto.
Qed.

Lemma buildInputs_loop_inputs {L : TxLibrary} noSegwit dest wdest us (P : TxInput -> Prop) :
  (forall u a w,
      u ∈ us -> wdest = Some w ->
      (exists addrs, dest = Some addrs
         /\ List.find (fun a => String.eqb (a_address a) (u_address u)) addrs = Some a) ->
      P {| in_unspent := u; in_data := inputData_of w a u |}) ->
  forall b ti tot b' ti' tot',
    buildInputs_loop noSegwit dest wdest us b ti tot = (b', Ok (Finished ti' tot')) ->
    Forall P (inputs ti) -> Forall P (inputs ti').
Proof.
  induction us as [|u us IH]; intros HP b ti tot b' ti' tot' H Hti; simpl in H.
  - inversion H; subst. exact Hti.
  - destruct (JS.truthy_str (u_witnessScript u) && noSegwit)%bool; [discriminate|].
    destruct dest as [addrs|] eqn:Hd; [|discriminate].
    destruct (List.find _ addrs) as [a|] eqn:Hf; [|discriminate].
    destruct (negb (addInput_ok (ins b) (outpoint (u_id u)))); [discriminate|].
    destruct wdest as [w|] eqn:Hw; [|discriminate].
    eapply IH; [|exact H|].
    + intros u' a' w' Hin Hw' Hrec. apply HP; [now apply list_elem_of_further|auto..].
    + cbn [inputs push_input]. apply Forall_app. split; [exact Hti|].
      repeat constructor. apply HP; [apply list_elem_of_here|reflexivity|eauto].
Qed.

(** X8. Every input of the [txInfo] that [buildInputs] hands back
    carries, next to its unspent, the data of the first address record
    of the recovery wallet for the address of that unspent. For a V1
    wallet these are the redeem and witness scripts, the paths
    [/0/0/<chain>/<index>] and [/<chain>/<index>], and the transaction,
    output number and value of the unspent; for any other wallet the
    scripts, the index and chain of the address, and the id of the
    recovery wallet as [wallet] and [fromWallet]. *)
Theorem buildInputs_inputs {L : TxLibrary} t arg t' ti :
  buildInputs t arg = (t', Ok (Some ti)) ->
  Forall (fun i =>
            exists addrs w a,
              addresses_dest t = Some addrs /\ wallets_dest t = Some w
              /\ List.find (fun a => String.eqb (a_address a) (u_address (in_unspent i)))
                   addrs = Some a
              /\ (w_isV1 w = true ->
                  in_data i
                  = V1Data (a_redeemScript a) (a_witnessScript a)
                      ("/0/0" +:+ "/" +:+ pretty (a_chain a) +:+ "/" +:+ pretty (a_index a))
                      ("/" +:+ pretty (a_chain a) +:+ "/" +:+ pretty (a_index a))
                      (u_tx (in_unspent i)) (u_nOut (in_unspent i))
                      (u_value (in_unspent i)) (u_value (in_unspent i)))
              /\ (w_isV1 w = false ->
                  in_data i
                  = V2Data (a_redeemScript a) (a_witnessScript a) (a_index a) (a_chain a)
                      (w_id w) (w_id w)))
         (inputs ti).
Proof.
  unfold buildInputs. intros H.
  destruct (match arg with Some a => Some a | None => unspents t end) as [us|];
    [|discriminate].
  destruct (buildInputs_loop _ _ _ us _ _ _) as [b [[ti0 tot|]|e]] eqn:Hloop;
    try discriminate.
  inversion H; subst; clear H. cbn [inputs].
  eapply buildInputs_loop_inputs; [|exact Hloop|constructor].
  intros u a w _ Hw (addrs & Hd & Hf). exists addrs, w, a.
  split; [exact Hd|]. split; [exact Hw|]. split; [exact Hf|].
  cbn [in_unspent in_data]. unfold inputData_of.
  split; intros ->; reflexivity.
Qed.

(** ** The calls that reach the service *)

Lemma coin_type_inj c d : RecoveryCalls.coin_type c = RecoveryCalls.coin_type d -> c = d.
Proof. destruct c, d; simpl; intros H; try reflexivity; discriminate. Qed.

Lemma coin_type_btc c :
  RecoveryCalls.endsWith (RecoveryCalls.coin_type c) "btc" = true <-> c = btc \/ c = tbtc.
Proof.
  destruct c; simpl; split; intros H; try discriminate; auto;
    destruct H; discriminate.
Qed.

(** X9. [setWallet] looks a wallet up as a wallet of the coin first. A
    miss there (status 404 or 400) is final for [bch] and [tbch]: the
    call throws 'Cannot find ... wallet.' and never asks for a V1
    wallet. For [btc] and [tbtc] the V1 wallets are asked next, where
    only a 404 counts as a miss. A wallet found that way is marked
    [isV1]; a wallet found at the first lookup is stored as it came.
    Whenever the call returns, the wallet is the one stored for the coin
    type asked for, which is the source or the recovery coin of the
    tool. *)
Theorem setWallet_lookup t coinType walletId v2 v1 addrs :
  (forall t',
      RecoveryCalls.setWallet t coinType walletId v2 v1 addrs = Ok t' ->
      exists c w,
        t' = Recovery.setWallet t c w addrs
        /\ RecoveryCalls.coin_type c = coinType
        /\ (c = sourceCoin t \/ c = recoveryCoin t)
        /\ walletId <> ""%string
        /\ (v2 = RecoveryCalls.Resolved w
            \/ (exists s w1, v2 = RecoveryCalls.Rejected (Some s) /\ (s = 404 \/ s = 400)
                  /\ (c = btc \/ c = tbtc)
                  /\ v1 = RecoveryCalls.Resolved w1
                  /\ w = RecoveryCalls.set_isV1 w1)))
  /\ (forall c s,
         RecoveryCalls.coin_type c = coinType -> c = sourceCoin t \/ c = recoveryCoin t ->
         walletId <> ""%string ->
         v2 = RecoveryCalls.Rejected (Some s) -> s = 404 \/ s = 400 ->
         c = bch \/ c = tbch ->
         RecoveryCalls.setWallet t coinType walletId v2 v1 addrs
         = Throw (Error ("Cannot find " +:+ coinType +:+ " wallet.")))
  /\ (forall c,
         RecoveryCalls.coin_type c = coinType -> c = sourceCoin t \/ c = recoveryCoin t ->
         walletId <> ""%string ->
         v2 = RecoveryCalls.Rejected (Some 400) ->
         v1 = RecoveryCalls.Rejected (Some 400) ->
         c = btc \/ c = tbtc ->
         RecoveryCalls.setWallet t coinType walletId v2 v1 addrs
         = Throw (LibError "bitgo.wallets.get")).
Proof.
  assert (Hinv : forall c, RecoveryCalls.coin_type c = coinType ->
                 c = sourceCoin t \/ c = recoveryCoin t ->
                 (negb (String.eqb (RecoveryCalls.coin_type (sourceCoin t)) coinType)
                  && negb (String.eqb (RecoveryCalls.coin_type (recoveryCoin t)) coinType))%bool
                 = false).
  { intros c <- [->| ->]; rewrite String.eqb_refl; simpl;
      [reflexivity|apply andb_false_r]. }
  assert (Hty : forall c, RecoveryCalls.coin_type c = coinType ->
                JS.truthy_str (Some coinType) = true).
  { intros c <-. destruct c; reflexivity. }
  assert (Hid : walletId <> ""%string -> JS.truthy_str (Some walletId) = true).
  { intros H. simpl. destruct walletId; [contradiction|reflexivity]. }
  split; [|split].
  - intros t'. unfold RecoveryCalls.setWallet.
    destruct (JS.truthy_str (Some coinType)) eqn:Hc; [|discriminate].
    destruct (JS.truthy_str (Some walletId)) eqn:Hw; [|discriminate].
    cbn [negb].
    assert (Hwid : walletId <> ""%string) by (intros ->; discriminate).
    destruct (String.eqb (RecoveryCalls.coin_type (sourceCoin t)) coinType) eqn:Es.
    + apply String.eqb_eq in Es. cbn [negb andb].
      destruct v2 as [w|status].
      * intros H; inversion H; subst t'. exists (sourceCoin t), w. auto 10.
      * destruct (RecoveryCalls.status_not status [404; 400]) eqn:Hs; [discriminate|].
        destruct (RecoveryCalls.endsWith coinType "btc") eqn:Hb; [|discriminate].
        destruct v1 as [w1|status1];
          [|destruct (RecoveryCalls.status_not status1 [404]); discriminate].
        intros H; inversion H; subst t'.
        exists (sourceCoin t), (RecoveryCalls.set_isV1 w1).
        split; [reflexivity|]. split; [exact Es|]. split; [auto|]. split; [exact Hwid|].
        right. destruct status as [s|]; [|discriminate]. exists s, w1.
        split; [reflexivity|]. split.
        { simpl in Hs. apply negb_false_iff, bool_decide_eq_true in Hs.
          rewrite !elem_of_cons in Hs. destruct Hs as [?|[?|Hs]]; auto.
          now apply elem_of_nil in Hs. }
        split; [apply coin_type_btc; now rewrite Es|]. auto.
    + cbn [negb andb].
      destruct (String.eqb (RecoveryCalls.coin_type (recoveryCoin t)) coinType) eqn:Er;
        [|discriminate].
      apply String.eqb_eq in Er. cbn [negb].
      destruct v2 as [w|status].
      * intros H; inversion H; subst t'. exists (recoveryCoin t), w. auto 10.
      * destruct (RecoveryCalls.status_not status [404; 400]) eqn:Hs; [discriminate|].
        destruct (RecoveryCalls.endsWith coinType "btc") eqn:Hb; [|discriminate].
        destruct v1 as [w1|status1];
          [|destruct (RecoveryCalls.status_not status1 [404]); discriminate].
        intros H; inversion H; subst t'.
        exists (recoveryCoin t), (RecoveryCalls.set_isV1 w1).
        split; [reflexivity|]. split; [exact Er|]. split; [auto|]. split; [exact Hwid|].
        right. destruct status as [s|]; [|discriminate]. exists s, w1.
        split; [reflexivity|]. split.
        { simpl in Hs. apply negb_false_iff, bool_decide_eq_true in Hs.
          rewrite !elem_of_cons in Hs. destruct Hs as [?|[?|Hs]]; auto.
          now apply elem_of_nil in Hs. }
        split; [apply coin_type_btc; now rewrite Er|]. auto.
  - intros c s Hc Hin Hwid -> Hs Hbch. unfold RecoveryCalls.setWallet.
    rewrite (Hty c Hc), (Hid Hwid), (Hinv c Hc Hin). cbn [negb].
    assert (Es : RecoveryCalls.status_not (Some s) [404; 400] = false)
      by (destruct Hs as [->| ->]; reflexivity).
    rewrite Es.
    assert (Eb : RecoveryCalls.endsWith coinType "btc" = false).
    { rewrite <- Hc. destruct Hbch as [->| ->]; reflexivity. }
    rewrite Eb. reflexivity.
  - intros c Hc Hin Hwid -> -> Hbtc. unfold RecoveryCalls.setWallet.
    rewrite (Hty c Hc), (Hid Hwid), (Hinv c Hc Hin). cbn [negb].
    assert (Eb : RecoveryCalls.endsWith coinType "btc" = true).
    { rewrite <- Hc. destruct Hbtc as [->| ->]; reflexivity. }
    simpl. rewrite Eb. reflexivity.
Qed.

(** X10. [getKeys] resolves only when a passphrase is given that is not
    blank, also for a wallet without user keychain, where nothing is
    decrypted. For a V1 recovery wallet it resolves to the keychain
    fetched, with the decrypted private key as [xprv] and a missing
    path set to the empty string, and never to a [prv]. For any other
    wallet it resolves to [prv]: the decrypted key of the keychain
    fetched, or [undefined] when the wallet has no keychain (404). *)
Theorem getKeys_result {C : Crypto} t fetched passphrase keys :
  RecoveryCalls.getKeys t fetched passphrase = Ok keys ->
  exists dest pw,
    wallets_dest t = Some dest
    /\ passphrase = Some pw /\ pw <> ""%string
    /\ (w_isV1 dest = true ->
        exists k prv,
          fetched = RecoveryCalls.Resolved k
          /\ Bgcl.decrypt pw (RecoveryCalls.encryptedPrv k) = Some prv
          /\ keys = RecoveryCalls.KeychainOnly
                      {| RecoveryCalls.encryptedPrv := RecoveryCalls.encryptedPrv k;
                         RecoveryCalls.kc_path :=
                           if JS.truthy_str (RecoveryCalls.kc_path k)
                           then RecoveryCalls.kc_path k else Some ""%string;
                         RecoveryCalls.kc_xprv := Some prv |}
          /\ RecoveryCalls.keys_prv keys = None)
    /\ (w_isV1 dest = false ->
        (exists k prv,
            fetched = RecoveryCalls.Resolved k
            /\ Bgcl.decrypt pw (RecoveryCalls.encryptedPrv k) = Some prv
            /\ keys = RecoveryCalls.PrvOnly (Some prv))
        \/ (fetched = RecoveryCalls.Rejected (Some 404)
            /\ keys = RecoveryCalls.PrvOnly None)).
Proof.
  unfold RecoveryCalls.getKeys. intros H.
  destruct (wallets_dest t) as [dest|]; [|discriminate].
  assert (Hgot : exists keychain,
             match fetched with
             | RecoveryCalls.Resolved k => Ok (Some k)
             | RecoveryCalls.Rejected status =>
                 if RecoveryCalls.status_not status [404]
                 then Throw (LibError "getEncryptedUserKeychain") else Ok None
             end = Ok keychain
             /\ (keychain = None -> fetched = RecoveryCalls.Rejected (Some 404))
             /\ (forall k, keychain = Some k -> fetched = RecoveryCalls.Resolved k)).
  { destruct fetched as [k|[s|]]; simpl in *; try discriminate.
    - exists (Some k). split; [reflexivity|]. split; [discriminate|].
      intros k' E; inversion E; reflexivity.
    - destruct (bool_decide (s ∈ [404])) eqn:Hs; simpl in *; [|discriminate].
      exists None. split; [reflexivity|]. split; [|discriminate]. intros _.
      apply bool_decide_eq_true, list_elem_of_singleton in Hs. now subst. }
  destruct Hgot as (keychain & Hgot & Hnone & Hsome). rewrite Hgot in H.
  destruct passphrase as [pw|]; [|discriminate].
  destruct (JS.truthy_str (Some pw)) eqn:Hpw; [|discriminate]. cbn [negb] in H.
  exists dest, pw. split; [reflexivity|]. split; [reflexivity|].
  split; [intros ->; discriminate|].
  change (default ""%string (Some pw)) with pw in H.
  destruct (w_isV1 dest) eqn:Hv1.
  - split; [intros _|discriminate].
    destruct keychain as [k|];
      [rewrite bool_decide_eq_true_2 in H by eauto
      |rewrite bool_decide_eq_false_2 in H by apply is_Some_None; discriminate].
    cbn [andb negb] in H.
    destruct (Bgcl.decrypt pw (RecoveryCalls.encryptedPrv k)) as [prv|] eqn:Hd;
      cbn iota in H.
    2: discriminate.
    inversion H; subst keys.
    exists k, prv. rewrite (Hsome k eq_refl). repeat split. exact Hd.
  - split; [discriminate|intros _]. cbn [andb] in H.
    destruct keychain as [k|].
    + destruct (Bgcl.decrypt pw (RecoveryCalls.encryptedPrv k)) as [prv|] eqn:Hd;
      cbn iota in H; [|discriminate].
      inversion H; subst keys. left. exists k, prv. rewrite (Hsome k eq_refl). auto.
    + inversion H; subst keys. right. split; [apply Hnone; reflexivity|reflexivity].
Qed.

(** X11. [signTransaction] needs a [txInfo]. With a private key passed
    (not blank) it hands that key to the signer and looks at neither
    the passphrase nor the keychain. Without one it takes [prv] from
    the result of [getKeys], which has no [prv] for a V1 recovery
    wallet: the signer is then called with [prv] undefined, although the
    key was decrypted. *)
Theorem signTransaction_prv {C : Crypto} t hex prv passphrase fetched :
  (txInfo t = None ->
   RecoveryCalls.signTransaction t hex prv passphrase fetched
   = Throw (Error "Could not find txInfo. Please build a transaction"))
  /\ (forall ti txHex key,
         txInfo t = Some ti -> hex = Ok txHex -> prv = Some key -> key <> ""%string ->
         RecoveryCalls.signTransaction t hex prv passphrase fetched = Ok (txHex, ti, Some key))
  /\ (forall dest txHex ti' key,
         wallets_dest t = Some dest -> w_isV1 dest = true ->
         prv = None \/ prv = Some ""%string ->
         RecoveryCalls.signTransaction t hex prv passphrase fetched = Ok (txHex, ti', key) ->
         key = None
         /\ exists k pw xprv,
              fetched = RecoveryCalls.Resolved k /\ passphrase = Some pw
              /\ Bgcl.decrypt pw (RecoveryCalls.encryptedPrv k) = Some xprv).
Proof.
  unfold RecoveryCalls.signTransaction. split; [|split].
  - intros ->. reflexivity.
  - intros ti txHex key -> -> -> Hk.
    assert (E : JS.truthy_str (Some key) = true)
      by (simpl; destruct key; [contradiction|reflexivity]).
    now rewrite E.
  - intros dest txHex ti' key Hd Hv1 Hprv H.
    destruct (txInfo t) as [ti|]; [|discriminate].
    destruct hex as [h|]; [|discriminate].
    assert (E : JS.truthy_str prv = false) by (destruct Hprv as [->| ->]; reflexivity).
    rewrite E in H. cbn [negb] in H.
    destruct (RecoveryCalls.getKeys t fetched passphrase) as [keys|] eqn:Hk; [|discriminate].
    inversion H; subst; clear H.
    destruct (getKeys_result _ _ _ _ Hk) as (dest' & pw & Hd' & Hp & _ & HV1 & _).
    rewrite Hd in Hd'. inversion Hd'; subst dest'.
    destruct (HV1 Hv1) as (k & xprv & Hf & Hdec & _ & Hnone).
    split; [exact Hnone|]. exists k, pw, xprv. auto.
Qed.

(** ** The recovery commands *)

Lemma getVariable_not_done_raise {C : Crypto} name required d w :
  forall e, getVariable name required d w <> Raise e.
Proof.
  intros e. unfold getVariable, mbind, M_bind, get_field.
  destruct (JS.truthy (input w !! name)); [discriminate|].
  destruct (String.eqb name "password" || String.eqb name "passcode")%bool.
  - unfold promptPassword. destruct (read_password false (stdin w)) as [[? ?]|]; discriminate.
  - unfold prompt. destruct (read_line required (stdin w)) as [[? ?]|]; discriminate.
Qed.

(** X12. [handleRecoverLitecoin] never gets to work with a recovery
    tool: once the four questions are answered, the constructor rejects
    the source coin [ltc], which is not among the supported coins, and
    the command ends with 'Please set a valid source coin'. The two
    other commands pass the constructor. *)
Theorem handleRecoverLitecoin_fails {C : Crypto} {A} fields test (rest : Tool -> M A) w :
  (Commands.handleRecoverLitecoin fields test rest w
   = Raise (Error "Please set a valid source coin")
   \/ Commands.handleRecoverLitecoin fields test rest w = Blocked)
  /\ is_ok (CrossChainRecoveryTool "ltc" "btc" test) = false
  /\ is_ok (CrossChainRecoveryTool "bch" "btc" test) = true
  /\ is_ok (CrossChainRecoveryTool "btc" "bch" test) = true.
Proof.
  split; [|destruct test; repeat split].
  unfold Commands.handleRecoverLitecoin, Commands.recoveryCommand.
  change (CrossChainRecoveryTool "ltc" "btc" test)
    with (@Throw Tool (Error "Please set a valid source coin")).
  unfold mbind, M_bind. cbn [new_UserInput].
  destruct (Commands.getRecoveryVariables _) as [[] w1|e|] eqn:H; auto.
  exfalso. revert H. unfold Commands.getRecoveryVariables, mbind, M_bind.
  repeat match goal with
         | |- context [getVariable ?n ?r ?d ?w0] =>
             let E := fresh in
             destruct (getVariable n r d w0) as [[] ?|?|] eqn:E;
             [|exfalso; exact (getVariable_not_done_raise _ _ _ _ _ E)|discriminate]
         end.
  discriminate.
Qed.

(** * Further properties of [src/bgcl.js] *)

(** ** [UserInput] *)

(** White space is that of ECMAScript, not of ASCII alone: a no-break
    space (U+00A0), an em space (U+2003), a line separator (U+2028) and
    a byte order mark (U+FEFF) are trimmed and skipped like a blank, and
    so is the byte 160 on its own; the last byte of an accented letter
    is not. *)
Example trim_white_space :
  JS.trim "   my keys  ﻿" = "my keys"%string
  /\ JS.trim "  " = ""%string
  /\ JS.trim " déjà " = "déjà"%string
  /\ JS.trim (String (ascii_of_nat 160) (String "x" (String (ascii_of_nat 160) "")))
     = "x"%string.
Proof. repeat split; vm_compute; reflexivity. Qed.

Example parseInt_white_space :
  JS.parseInt " ﻿ 12" = Some 12
  /\ JS.parseInt " -3x" = Some (-3)
  /\ JS.parseInt "1 2" = Some 1
  /\ parse_indices "1, 2" = [1; 2].
Proof. repeat split; vm_compute; reflexivity. Qed.

Section Prompts.
Context {C : Crypto}.

Lemma read_line_required blanks line rest :
  Forall (fun l => JS.trim l = ""%string) blanks ->
  JS.trim line <> ""%string ->
  read_line true (blanks ++ line :: rest) = Some (JS.trim line, rest).
Proof.
  intros Hb Hl. induction Hb as [|b blanks Hb _ IH]; simpl.
  - destruct (JS.trim line); [contradiction|reflexivity].
  - rewrite Hb. simpl. exact IH.
Qed.

Lemma read_password_spec allowBlank lines pw rest :
  read_password allowBlank lines = Some (pw, rest) ->
  (allowBlank = false -> pw <> ""%string)
  /\ exists blanks,
       lines = blanks ++ pw :: rest
       /\ Forall (fun l => l = ""%string) blanks
       /\ (allowBlank = true -> blanks = []).
Proof.
  revert allowBlank. induction lines as [|l lines IH]; intros allowBlank H; simpl in H;
    [discriminate|].
  destruct l as [|a l].
  - destruct allowBlank; simpl in H.
    + inversion H; subst. split; [discriminate|]. exists []. auto.
    + destruct (IH false H) as (Hpw & blanks & -> & Hb & _).
      split; [exact Hpw|]. exists (""%string :: blanks).
      split; [reflexivity|]. split; [constructor; auto|discriminate].
  - simpl in H. inversion H; subst. split; [discriminate|].
    exists []. auto.
Qed.

Lemma getPassword_rounds_spec name confirm :
  forall fuel w w',
    getPassword_rounds fuel name confirm w = Done tt w' ->
    (JS.truthy (input w !! name) = true /\ w' = w)
    \/ (JS.truthy (input w !! name) = false
        /\ exists pw consumed,
             pw <> ""%string
             /\ input w' = <[name := JS.VStr pw]> (input w)
             /\ stdin w = consumed ++ stdin w'
             /\ rng w' = rng w /\ files w' = files w
             /\ (if confirm then exists before, consumed = before ++ [pw; pw]
                 else exists blanks, consumed = blanks ++ [pw]
                                     /\ Forall (fun l => l = ""%string) blanks)).
Proof.
  induction fuel as [|fuel IH]; intros w w' H; simpl in H; [discriminate|].
  unfold mbind at 1, M_bind at 1, get_field at 1 in H.
  destruct (JS.truthy (input w !! name)) eqn:Ht.
  { inversion H; subst. left. auto. }
  right. split; [reflexivity|].
  unfold mbind at 1, M_bind at 1, promptPassword at 1 in H.
  destruct (read_password false (stdin w)) as [[pw rest]|] eqn:Hr; [|discriminate].
  destruct (read_password_spec _ _ _ _ Hr) as (Hpw & blanks & Hs & Hb & _).
  specialize (Hpw eq_refl).
  destruct confirm.
  - unfold mbind at 1, M_bind at 1 in H.
    unfold mbind at 1, M_bind at 1, promptPassword at 1 in H.
    cbn [stdin set_stdin] in H.
    destruct (read_password true rest) as [[c rest']|] eqn:Hr'; [|discriminate].
    destruct (read_password_spec _ _ _ _ Hr') as (_ & blanks' & Hs' & _ & Hnil).
    rewrite (Hnil eq_refl) in Hs'. simpl in Hs'. subst rest.
    cbn [mret M_ret] in H. cbn [andb] in H.
    destruct (bool_decide (Some c = Some pw)) eqn:Hc; cbn [negb] in H.
    + apply bool_decide_eq_true in Hc. inversion Hc; subst c.
      inversion H; subst w'; clear H. cbn.
      exists pw, (blanks ++ [pw; pw]). split; [exact Hpw|]. split; [reflexivity|].
      split; [rewrite Hs, <- app_assoc; reflexivity|]. repeat split. eauto.
    + apply IH in H. cbn [input stdin rng files set_stdin] in H.
      destruct H as [[Ht' _]|(_ & pw' & consumed & Hpw' & Hi & Hst & Hrg & Hf & before & ->)];
        [congruence|].
      exists pw', (blanks ++ pw :: c :: before ++ [pw'; pw']).
      split; [exact Hpw'|]. split; [exact Hi|].
      split; [rewrite Hs, Hst, <- !app_assoc; simpl; rewrite <- ?app_assoc; reflexivity|].
      split; [exact Hrg|]. split; [exact Hf|].
      exists (blanks ++ pw :: c :: before). rewrite <- !app_assoc. reflexivity.
  - cbn in H. inversion H; subst w'; clear H. cbn.
    exists pw, (blanks ++ [pw]). split; [exact Hpw|]. split; [reflexivity|].
    split; [rewrite Hs, <- app_assoc; reflexivity|]. repeat split.
    exists blanks. auto.
Qed.

End Prompts.

(** X13. [getVariable] for a name other than [password] and [passcode],
    whose field is not set. When an answer is required, blank lines are
    passed over and the first line that is not blank is stored,
    trimmed; the default value is not used. When no answer is required,
    the first line is taken: stored trimmed, or replaced by the default
    value when it is blank and a default is given. With the field set,
    nothing is read and nothing changes. *)
Theorem getVariable_prompt {C : Crypto} name d w :
  (String.eqb name "password" || String.eqb name "passcode")%bool = false ->
  JS.truthy (input w !! name) = false ->
  (forall blanks line rest,
      stdin w = blanks ++ line :: rest ->
      Forall (fun l => JS.trim l = ""%string) blanks ->
      JS.trim line <> ""%string ->
      getVariable name true d w
      = Done tt (with_input w (<[name := JS.VStr (JS.trim line)]> (input w)) rest))
  /\ (forall line rest,
         stdin w = line :: rest ->
         getVariable name false d w
         = Done tt (with_input w
                      (<[name := if (String.eqb (JS.trim line) "" && JS.truthy d)%bool
                                 then default (JS.VStr "") d
                                 else JS.VStr (JS.trim line)]> (input w)) rest))
  /\ (forall required, stdin w = [] -> getVariable name required d w = Blocked).
Proof.
  intros Hname Hunset. unfold getVariable, mbind, M_bind, get_field.
  rewrite Hunset, Hname. unfold prompt. split; [|split].
  - intros blanks line rest Hs Hb Hl. rewrite Hs, (read_line_required _ _ _ Hb Hl).
    cbn [set_field set_stdin input stdin rng files].
    assert (E : JS.truthy (Some (JS.VStr (JS.trim line))) = true)
      by (simpl; destruct (JS.trim line); [contradiction|reflexivity]).
    rewrite E. reflexivity.
  - intros line rest Hs. rewrite Hs. cbn [read_line negb orb].
    rewrite orb_true_r.
    cbn [set_field set_stdin input stdin rng files].
    unfold with_input. do 2 f_equal. f_equal.
    simpl. destruct (String.eqb (JS.trim line) "") eqn:E; simpl; [|reflexivity].
    apply String.eqb_eq in E. rewrite E.
    destruct d as [[s|z]|]; reflexivity.
  - intros required Hs. rewrite Hs. reflexivity.
Qed.

(** X14. When [getPassword] returns for a field that was not set, the
    field holds a password that is not blank, nothing else of the input
    has changed, and the entries read end with that password: entered
    twice in a row when a confirmation is asked for (every earlier
    attempt is dropped), and otherwise preceded by blank entries only.
    With the field set, nothing is read. In both cases the field is set
    afterwards. *)
Theorem getPassword_result {C : Crypto} name confirm w w' :
  getPassword name confirm w = Done tt w' ->
  JS.truthy (input w' !! name) = true
  /\ (JS.truthy (input w !! name) = true -> w' = w)
  /\ (JS.truthy (input w !! name) = false ->
      exists pw consumed,
        pw <> ""%string
        /\ input w' = <[name := JS.VStr pw]> (input w)
        /\ stdin w = consumed ++ stdin w'
        /\ rng w' = rng w /\ files w' = files w
        /\ (if confirm then exists before, consumed = before ++ [pw; pw]
            else exists blanks, consumed = blanks ++ [pw]
                                /\ Forall (fun l => l = ""%string) blanks)).
Proof.
  unfold getPassword. intros H.
  apply getPassword_rounds_spec in H as [[Ht ->]|(Ht & pw & consumed & Hpw & Hi & Hrest)].
  - split; [exact Ht|]. split; [reflexivity|congruence].
  - split.
    + rewrite Hi, lookup_insert_eq. simpl. destruct pw; [contradiction|reflexivity].
    + split; [congruence|]. intros _. exists pw, consumed. auto.
Qed.

(** X15. At the end of a recovery command the private key is never asked
    for: the passphrase prompt does not take a blank entry, so that
    [input.passphrase] is set whenever it returns and the branch that
    asks for [prv] is not taken. The field [prv] stays as the command
    line left it. *)
Theorem getSigningSecret_passphrase {C : Crypto} confirmPrv w :
  Commands.getSigningSecret confirmPrv w = getPassword "passphrase" false w
  /\ forall w', Commands.getSigningSecret confirmPrv w = Done tt w' ->
                JS.truthy (input w' !! "passphrase") = true
                /\ input w' !! "prv" = input w !! "prv".
Proof.
  assert (E : Commands.getSigningSecret confirmPrv w = getPassword "passphrase" false w).
  { unfold Commands.getSigningSecret. unfold mbind at 1, M_bind at 1.
    destruct (getPassword "passphrase" false w) as [[] w1|e|] eqn:H; try reflexivity.
    unfold mbind, M_bind, get_field.
    destruct (getPassword_result _ _ _ _ H) as (Ht & _). now rewrite Ht. }
  split; [exact E|]. rewrite E. intros w' H.
  split; [apply (getPassword_result _ _ _ _ H)|].
  eapply (preserves_getPassword "prv" "passphrase" false); [discriminate|exact H].
Qed.

Section IntVariable.
Context {C : Crypto} {K : JS.Coercion}.

Lemma check_int_accepts cur min max v :
  check_int cur min max = inr v ->
  JS.parseInt_value cur = Some v
  /\ JS.loose_eq_int v cur = true
  /\ min <= v /\ (forall mx, max = Some mx -> v <= mx).
Proof.
  unfold check_int. destruct (JS.parseInt_value cur) as [value|]; [|discriminate].
  destruct (JS.loose_eq_int value cur) eqn:El; [|discriminate]. cbn [negb].
  destruct (value <? min) eqn:E1; [discriminate|]. apply Z.ltb_ge in E1.
  destruct max as [mx|].
  - destruct (value >? mx) eqn:E2; [discriminate|].
    intros H; inversion H; subst.
    rewrite Z.gtb_ltb in E2. apply Z.ltb_ge in E2.
    repeat split; auto. intros mx' E; inversion E; subst; exact E2.
  - intros H; inversion H; subst. repeat split; auto. discriminate.
Qed.

Lemma getIntVariable_rounds_result name required min max :
  forall fuel w w',
    getIntVariable_rounds fuel name required min max w = Done tt w' ->
    (exists v, input w' !! name = Some (JS.VNum v)
               /\ min <= v /\ (forall mx, max = Some mx -> v <= mx))
    \/ (required = false /\ input w' !! name = None).
Proof.
  induction fuel as [|fuel IH]; intros w w' H; simpl in H; [discriminate|].
  apply bind_done in H as ([] & w1 & H1 & H).
  apply bind_done in H as (cur & w2 & H2 & H).
  inversion H2; subst w2 cur; clear H2.
  destruct (check_int (input w1 !! name) min max) as [msg|v] eqn:Hc.
  - apply bind_done in H as ([] & w3 & H3 & H).
    destruct required; [now apply IH in H|].
    inversion H; subst w'; clear H. inversion H3; subst w3; clear H3.
    right. split; [reflexivity|]. cbn. apply lookup_delete_eq.
  - inversion H; subst; clear H. left. exists v. cbn.
    apply check_int_accepts in Hc as (_ & _ & Hmin & Hmax).
    split; [apply lookup_insert_eq|auto].
Qed.

End IntVariable.

(** X16. When [getIntVariable] returns, the field holds a number (no
    longer a string) that is at least [min] and at most [max], and no
    other field has changed. The one exception is a variable that is not
    required: a value that fails a check is then dropped and the field
    left unset, without a second question. *)
Theorem getIntVariable_result {C : Crypto} {K : JS.Coercion} name required min max w w' :
  getIntVariable name required min max w = Done tt w' ->
  ((exists v, input w' !! name = Some (JS.VNum v)
              /\ min <= v /\ (forall mx, max = Some mx -> v <= mx))
   \/ (required = false /\ input w' !! name = None))
  /\ forall k, k <> name -> input w' !! k = input w !! k.
Proof.
  intros H. split.
  - unfold getIntVariable in H. now apply getIntVariable_rounds_result in H.
  - intros k Hk. exact (preserves_getIntVariable k name required min max Hk _ _ _ H).
Qed.

(** ** [handleSplitKeys] *)

Section SplitRun.
Context {C : Crypto} {K : JS.Coercion}.

Lemma keeps_files_ret {A} (a : A) : keeps_files (mret a).
Proof. intros w b w' H. inversion H; subst. reflexivity. Qed.

Lemma keeps_files_bind {A B} (c : M A) (f : A -> M B) :
  keeps_files c -> (forall a, keeps_files (f a)) -> keeps_files (c ≫= f).
Proof.
  intros Hc Hf w b w' H. apply bind_done in H as (a & w1 & H1 & H2).
  rewrite (Hf a _ _ _ H2). exact (Hc _ _ _ H1).
Qed.

Lemma keeps_files_get name : keeps_files (get_field name).
Proof. intros w a w' H. inversion H; subst. reflexivity. Qed.

Lemma keeps_files_set name v : keeps_files (set_field name v).
Proof. intros w a w' H. inversion H; subst. reflexivity. Qed.

Lemma keeps_files_delete name : keeps_files (delete_field name).
Proof. intros w a w' H. inversion H; subst. reflexivity. Qed.

Lemma keeps_files_prompt required : keeps_files (prompt required).
Proof.
  intros w a w' H. unfold prompt in H.
  destruct (read_line required (stdin w)) as [[? ?]|]; [|discriminate].
  inversion H; subst. reflexivity.
Qed.

Lemma keeps_files_promptPassword allowBlank : keeps_files (promptPassword allowBlank).
Proof.
  intros w a w' H. unfold promptPassword in H.
  destruct (read_password allowBlank (stdin w)) as [[? ?]|]; [|discriminate].
  inversion H; subst. reflexivity.
Qed.

Lemma keeps_files_getVariable name required d : keeps_files (getVariable name required d).
Proof.
  unfold getVariable.
  apply keeps_files_bind; [apply keeps_files_get|]. intros cur.
  destruct (JS.truthy cur); [apply keeps_files_ret|].
  apply keeps_files_bind.
  - destruct (_ || _)%bool; [apply keeps_files_promptPassword|apply keeps_files_prompt].
  - intros value. apply keeps_files_set.
Qed.

Lemma keeps_files_getPassword name confirm : keeps_files (getPassword name confirm).
Proof.
  intros w [] w' H.
  destruct (getPassword_result _ _ _ _ H) as (_ & Hset & Hunset).
  destruct (JS.truthy (input w !! name)) eqn:E.
  - now rewrite (Hset eq_refl).
  - destruct (Hunset eq_refl) as (? & ? & _ & _ & _ & _ & Hf & _). exact Hf.
Qed.

Lemma keeps_files_getIntVariable name required min max :
  keeps_files (getIntVariable name required min max).
Proof.
  assert (G : forall fuel, keeps_files (getIntVariable_rounds fuel name required min max)).
  { induction fuel as [|fuel IH]; simpl; [intros w a w' H; discriminate|].
    apply keeps_files_bind; [apply keeps_files_getVariable|]. intros [].
    apply keeps_files_bind; [apply keeps_files_get|]. intros cur.
    destruct (check_int cur min max); [|apply keeps_files_set].
    apply keeps_files_bind; [apply keeps_files_delete|]. intros [].
    destruct required; [exact IH|apply keeps_files_ret]. }
  intros w a w' H. exact (G _ _ _ _ H).
Qed.

Lemma keeps_files_getSharePasswords n :
  forall fuel i, keeps_files (getSharePasswords fuel i n).
Proof.
  induction fuel as [|fuel IH]; intros i; simpl; [intros w a w' H; discriminate|].
  destruct (is_num n i); [apply keeps_files_ret|].
  apply keeps_files_bind; [apply keeps_files_getPassword|]. intros []. apply IH.
Qed.

Lemma password_not_parameter i :
  password_name i <> "n"%string /\ password_name i <> "m"%string
  /\ password_name i <> "nkeys"%string /\ password_name i <> "prefix"%string
  /\ password_name i <> "entropy"%string.
Proof. unfold password_name. simpl. repeat split; discriminate. Qed.

Lemma split_fields_no_password args i :
  fields_of [("m", arg_m args); ("n", arg_n args); ("nkeys", arg_nkeys args);
             ("prefix", arg_prefix args); ("entropy", arg_entropy args)]%string
    !! password_name i = None.
Proof.
  destruct (password_not_parameter i) as (? & ? & ? & ? & ?).
  unfold fields_of.
  destruct (arg_m args), (arg_n args), (arg_nkeys args), (arg_prefix args),
    (arg_entropy args); simpl;
    repeat (rewrite lookup_insert_ne by (intros E; symmetry in E; contradiction));
    apply lookup_empty.
Qed.

Lemma getSharePasswords_not_blank n :
  forall fuel i w w',
    getSharePasswords fuel i n w = Done tt w' ->
    passwords_not_blank (input w) -> passwords_not_blank (input w').
Proof.
  induction fuel as [|fuel IH]; intros i w w' H Hinv; simpl in H; [discriminate|].
  destruct (is_num n i); [inversion H; subst; exact Hinv|].
  apply bind_done in H as ([] & w1 & H1 & H).
  apply (IH _ _ _ H). clear H IH.
  destruct (getPassword_result _ _ _ _ H1) as (_ & Hset & Hunset).
  destruct (JS.truthy (input w !! password_name i)) eqn:E.
  - now rewrite (Hset eq_refl).
  - destruct (Hunset eq_refl) as (pw & ? & Hpw & Hi & _).
    rewrite Hi. intros j v Hj.
    destruct (decide (password_name j = password_name i)) as [Heq|Hne].
    + rewrite Heq, lookup_insert_eq in Hj. inversion Hj; subst. eauto.
    + rewrite lookup_insert_ne in Hj by congruence. eapply Hinv; eauto.
Qed.

Lemma getPassword_keeps_truthy name confirm k w w' :
  getPassword name confirm w = Done tt w' ->
  JS.truthy (input w !! k) = true -> JS.truthy (input w' !! k) = true.
Proof.
  intros H Hk.
  destruct (getPassword_result _ _ _ _ H) as (Hname & Hset & Hunset).
  destruct (JS.truthy (input w !! name)) eqn:E.
  - now rewrite (Hset eq_refl).
  - destruct (decide (k = name)) as [->|Hne]; [exact Hname|].
    now rewrite (preserves_getPassword k name confirm Hne _ _ _ H).
Qed.

Lemma getSharePasswords_keeps_truthy n k :
  forall fuel i w w',
    getSharePasswords fuel i n w = Done tt w' ->
    JS.truthy (input w !! k) = true -> JS.truthy (input w' !! k) = true.
Proof.
  induction fuel as [|fuel IH]; intros i w w' H Hk; simpl in H; [discriminate|].
  destruct (is_num n i); [inversion H; subst; exact Hk|].
  apply bind_done in H as ([] & w1 & H1 & H).
  apply (IH _ _ _ H). eapply getPassword_keeps_truthy; eauto.
Qed.

(** When the loop over the share indices returns, every index from [i]
    up to [n] has its password. *)
Lemma getSharePasswords_all nv :
  forall fuel i w w',
    getSharePasswords fuel i (Some (JS.VNum nv)) w = Done tt w' ->
    forall j, i <= j < nv -> JS.truthy (input w' !! password_name j) = true.
Proof.
  induction fuel as [|fuel IH]; intros i w w' H j Hj; simpl in H; [discriminate|].
  destruct (i =? nv) eqn:E; [apply Z.eqb_eq in E; lia|].
  apply bind_done in H as ([] & w1 & H1 & H).
  destruct (decide (j = i)) as [->|Hne].
  - eapply getSharePasswords_keeps_truthy; [exact H|].
    apply (getPassword_result _ _ _ _ H1).
  - apply (IH _ _ _ H). lia.
Qed.

Lemma split_fields_prefix args :
  fields_of [("m", arg_m args); ("n", arg_n args); ("nkeys", arg_nkeys args);
             ("prefix", arg_prefix args); ("entropy", arg_entropy args)]%string
    !! "prefix" = JS.VStr <$> arg_prefix args.
Proof.
  unfold fields_of.
  destruct (arg_m args), (arg_n args), (arg_nkeys args), (arg_prefix args),
    (arg_entropy args); simpl;
    repeat (rewrite lookup_insert_ne by discriminate);
    try apply lookup_insert_eq; apply lookup_empty.
Qed.

Lemma getVariable_string name required dflt w w' :
  (forall z, input w !! name <> Some (JS.VNum z)) ->
  dflt <> ""%string ->
  getVariable name required (Some (JS.VStr dflt)) w = Done tt w' ->
  exists s, input w' !! name = Some (JS.VStr s) /\ s <> ""%string
            /\ (JS.truthy (input w !! name) = true -> input w !! name = Some (JS.VStr s)).
Proof.
  intros Hnum Hd. unfold getVariable, mbind, M_bind, get_field.
  destruct (JS.truthy (input w !! name)) eqn:Ht.
  - intros H; inversion H; subst w'.
    destruct (input w !! name) as [[s|z]|] eqn:E; try discriminate.
    + exists s. split; [reflexivity|]. split; [|reflexivity].
      intros ->. discriminate.
    + exfalso. exact (Hnum z eq_refl).
  - assert (Hset : forall value w1,
              set_field name
                (if (negb (JS.truthy (Some (JS.VStr value)))
                     && JS.truthy (Some (JS.VStr dflt)))%bool
                 then default (JS.VStr value) (Some (JS.VStr dflt))
                 else JS.VStr value) w1 = Done tt w' ->
              exists s, input w' !! name = Some (JS.VStr s) /\ s <> ""%string
                        /\ (false = true -> input w !! name = Some (JS.VStr s))).
    { intros value w1 H. inversion H; subst w'; clear H. cbn [input].
      rewrite lookup_insert_eq. simpl.
      destruct value as [|a value]; simpl.
      - destruct dflt; [contradiction|]. simpl. eexists. repeat split; discriminate.
      - eexists. repeat split; discriminate. }
    destruct (_ || _)%bool.
    + unfold promptPassword. destruct (read_password false (stdin w)) as [[v rest]|];
        [|discriminate]. apply Hset.
    + unfold prompt. destruct (read_line required (stdin w)) as [[v rest]|];
        [|discriminate]. apply Hset.
Qed.

(** What every finished run of [handleSplitKeys] went through. *)
Lemma handleSplitKeys_run args w keys w' :
  handleSplitKeys args w = Done keys w' ->
  exists params prefix nv mv,
    Forall (generated_by params) keys
    /\ index <$> keys = Z.of_nat <$> seq 0 (length keys)
    /\ passwords_not_blank params
    /\ (forall j, 0 <= j < nv -> JS.truthy (params !! password_name j) = true)
    /\ params !! "n" = Some (JS.VNum nv) /\ params !! "m" = Some (JS.VNum mv)
    /\ 1 <= nv <= 10 /\ (if nv =? 1 then 1 else 2) <= mv <= nv
    /\ range_length (params !! "nkeys") = Ok (length keys)
    /\ params !! "prefix" = Some (JS.VStr prefix) /\ prefix <> ""%string
    /\ (forall p, arg_prefix args = Some p -> p <> ""%string -> prefix = p)
    /\ files w' = <[prefix +:+ ".xpub.csv" :=
                      Text ((fun key => pretty (index key) +:+ "," +:+ xpub key) <$> keys)]>
                    (<[prefix +:+ ".json" := KeysJson keys]> (files w)).
Proof.
  unfold handleSplitKeys. intros H.
  repeat (apply bind_done in H as (? & ? & ? & H)).
  destruct (range0 _) as [indices|e] eqn:Hrange; [|discriminate].
  repeat (apply bind_done in H as (? & ? & ? & H)).
  repeat match goal with
         | H : get_field _ _ = Done _ _ |- _ => inversion H; subst; clear H
         | H : write_file _ _ _ = Done _ _ |- _ => inversion H; subst; clear H
         | H : mret _ _ = Done _ _ |- _ => inversion H; subst; clear H
         | H : new_UserInput _ _ = Done _ _ |- _ => inversion H; subst; clear H
         end.
  match goal with H : generate_keys _ _ = _ |- _ =>
    pose proof (generate_keys_generated _ _ _ _ H) as Hgen;
    apply generate_keys_indices in H as (Hidx & Fg & Ig) end.
  match goal with H : getIntVariable "n" _ _ _ ?w0 = Done ?u ?w1 |- _ =>
    destruct u; pose proof (getIntVariable_valid _ _ _ _ _ H) as (nv & Hn & Hnr);
    pose proof (keeps_files_getIntVariable _ _ _ _ _ _ _ H) as F1;
    assert (P1 : forall k, k <> "n"%string -> input w1 !! k = input w0 !! k)
      by (intros k Hk; exact (preserves_getIntVariable k "n" _ _ _ Hk _ _ _ H));
    clear H end.
  match goal with H : getIntVariable "m" _ _ _ ?w0 = Done ?u ?w1 |- _ =>
    destruct u; rewrite Hn in H; cbn [num_of is_num] in H;
    pose proof (getIntVariable_valid _ _ _ _ _ H) as (mv & Hm & Hmr);
    pose proof (keeps_files_getIntVariable _ _ _ _ _ _ _ H) as F2;
    assert (P2 : forall k, k <> "m"%string -> input w1 !! k = input w0 !! k)
      by (intros k Hk; exact (preserves_getIntVariable k "m" _ _ _ Hk _ _ _ H));
    clear H end.
  match goal with H : getVariable "nkeys" _ _ ?w0 = Done _ ?w1 |- _ =>
    pose proof (keeps_files_getVariable _ _ _ _ _ _ H) as F3;
    assert (P3 : forall k, k <> "nkeys"%string -> input w1 !! k = input w0 !! k)
      by (intros k Hk; exact (preserves_getVariable k "nkeys" _ _ Hk _ _ _ H));
    clear H end.
  match goal with H : getVariable "prefix" _ _ ?w0 = Done ?u ?w1 |- _ =>
    destruct u;
    pose proof (keeps_files_getVariable _ _ _ _ _ _ H) as F4;
    assert (P4 : forall k, k <> "prefix"%string -> input w1 !! k = input w0 !! k)
      by (intros k Hk; exact (preserves_getVariable k "prefix" _ _ Hk _ _ _ H));
    rename H into Hprefix end.
  match goal with H : getVariable "entropy" _ _ ?w0 = Done _ ?w1 |- _ =>
    pose proof (keeps_files_getVariable _ _ _ _ _ _ H) as F5;
    assert (P5 : forall k, k <> "entropy"%string -> input w1 !! k = input w0 !! k)
      by (intros k Hk; exact (preserves_getVariable k "entropy" _ _ Hk _ _ _ H));
    clear H end.
  match goal with H : (if JS.truthy ?e then _ else _) ?w0 = Done _ ?w1 |- _ =>
    assert (Pe : input w1 = input w0 /\ files w1 = files w0) by
      (destruct (JS.truthy e); inversion H; subst; split; reflexivity);
    destruct Pe as [Pe Fe]; clear H end.
  match goal with H : getSharePasswords _ _ _ ?w0 = Done ?u ?w1 |- _ =>
    destruct u;
    pose proof (keeps_files_getSharePasswords _ _ _ _ _ _ H) as F6;
    assert (P6 : forall k, (forall s, k <> ("password" +:+ s)%string) ->
                           input w1 !! k = input w0 !! k)
      by (intros k Hk; exact (preserves_getSharePasswords k _ Hk _ _ _ _ _ H));
    pose proof (getSharePasswords_not_blank _ _ _ _ _ H) as Hblank;
    rename H into Hshare end.
  cbn [input files] in *.
  (* the prefix *)
  apply getVariable_string in Hprefix as (prefix & Hp & Hpne & Hpset); [|..|discriminate].
  2:{ intros z. rewrite P3, P2, P1 by discriminate. rewrite split_fields_prefix.
      destruct (arg_prefix args); discriminate. }
  rewrite P3, P2, P1, split_fields_prefix in Hpset by discriminate.
  match type of Hrange with range0 (input ?wg !! _) = _ =>
    set (params := input wg) in * end.
  assert (Hpp : params !! "prefix" = Some (JS.VStr prefix)).
  { unfold params. rewrite P6 by discriminate. rewrite Pe, P5 by discriminate.
    exact Hp. }
  exists params, prefix, nv, mv.
  split; [exact Hgen|].
  unfold range0 in Hrange.
  destruct (range_length (params !! "nkeys")) as [len|] eqn:Hlen; [|discriminate].
  inversion Hrange as [Hr]; clear Hrange. rewrite <- Hr in Hidx. clear Hr.
  assert (Hl : length keys = len).
  { apply (f_equal length) in Hidx. rewrite !length_fmap, length_seq in Hidx. exact Hidx. }
  split; [rewrite Hl; exact Hidx|].
  split.
  { apply Hblank. rewrite Pe. intros i v Hv.
    destruct (password_not_parameter i) as (N1 & N2 & N3 & N4 & N5).
    rewrite P5, P4, P3, P2, P1, split_fields_no_password in Hv by assumption.
    discriminate. }
  split.
  { rewrite Pe, P5, P4, P3, P2, Hn in Hshare by discriminate.
    intros j Hj. exact (getSharePasswords_all _ _ _ _ _ Hshare j Hj). }
  split; [unfold params; rewrite P6, Pe, P5, P4, P3, P2 by discriminate; exact Hn|].
  split; [unfold params; rewrite P6, Pe, P5, P4, P3 by discriminate; exact Hm|].
  split; [exact Hnr|]. split; [rewrite Z.eqb_sym; exact Hmr|].
  split; [now rewrite Hl|]. split; [exact Hpp|]. split; [exact Hpne|].
  split.
  - intros p0 Hp0 Hne. rewrite Hp0 in Hpset. simpl in Hpset.
    assert (E : negb (String.eqb p0 "") = true)
      by (destruct p0; [contradiction|reflexivity]).
    specialize (Hpset E). now inversion Hpset.
  - rewrite Ig. fold params. rewrite Hpp. cbn [to_string].
    rewrite Fg, F6, Fe, F5, F4, F3, F2, F1. reflexivity.
Qed.

(** The key and the plain shares behind a record of the batch. *)
Lemma generated_by_shape params record nv mv :
  generated_by params record ->
  params !! "n" = Some (JS.VNum nv) -> params !! "m" = Some (JS.VNum mv) ->
  n record = Some (JS.VNum nv) /\ m record = Some (JS.VNum mv)
  /\ exists key shares,
       Bgcl.fromSeedHex (seed key) = Some (xpub record, key_xprv key)
       /\ (nv = 1 /\ shares = [seed key]
           \/ nv <> 1 /\ exists r r2,
                Bgcl.secrets_share (seed key) nv mv r = Some (shares, r2))
       /\ length (seedShares record) = length shares
       /\ forall j share,
           shares !! j = Some share ->
           exists pw rr,
             params !! password_name (Z.of_nat j) = Some (JS.VStr pw)
             /\ seedShares record !! j = Some (Bgcl.encrypt pw share rr).1.
Proof.
  intros (r & sk & r' & Hgen & Hx & Hm' & Hn' & Hs) Hn Hm.
  destruct (genKey r) as [[key r1]|e] eqn:Hkey;
    [|unfold genSplitKey in Hgen; rewrite Hkey in Hgen; discriminate].
  destruct (genSplitKey_shape _ _ _ _ _ _ _ Hkey Hgen Hn)
    as (shares & Hcase & E1 & E2 & E3 & E4 & E5).
  split; [congruence|]. split; [congruence|].
  exists key, shares.
  split; [rewrite Hx, E1; exact (genKey_derives _ _ _ Hkey)|].
  split.
  - destruct Hcase as [?|(Hne & mm & r2 & Hmm & Hsh)]; [left; assumption|right].
    split; [exact Hne|]. rewrite Hm in Hmm. inversion Hmm; subst mm. eauto.
  - rewrite Hs. split; [exact E4|exact E5].
Qed.

End SplitRun.

(** X17. A finished run of [handleSplitKeys] has written two files and
    touched no other: [<prefix>.json] with the records, and
    [<prefix>.xpub.csv] with one row [index,xpub] per record in the same
    order. The prefix is never blank: it is the one of the command line
    when that is not blank. *)
Theorem handleSplitKeys_files {C : Crypto} {K : JS.Coercion} args w keys w' :
  handleSplitKeys args w = Done keys w' ->
  exists prefix,
    prefix <> ""%string
    /\ (forall p, arg_prefix args = Some p -> p <> ""%string -> prefix = p)
    /\ files w' !! (prefix +:+ ".json") = Some (KeysJson keys)
    /\ files w' !! (prefix +:+ ".xpub.csv")
       = Some (Text ((fun key => pretty (index key) +:+ "," +:+ xpub key) <$> keys))
    /\ forall name,
         name <> (prefix +:+ ".json")%string -> name <> (prefix +:+ ".xpub.csv")%string ->
         files w' !! name = files w !! name.
Proof.
  intros H.
  destruct (handleSplitKeys_run _ _ _ _ H)
    as (params & prefix & nv & mv & _ & _ & _ & _ & _ & _ & _ & _ & _ & _ & Hne & Hp & Hf).
  exists prefix. split; [exact Hne|]. split; [exact Hp|]. rewrite Hf.
  split; [|split].
  - rewrite lookup_insert_ne; [apply lookup_insert_eq|].
    intros Heq. apply append_inj_r in Heq. discriminate.
  - apply lookup_insert_eq.
  - intros name N1 N2. now rewrite !lookup_insert_ne by congruence.
Qed.

(** X18. Every record of a finished run of [handleSplitKeys] carries
    the [n] and [m] that passed the checks ([n] in 1..10, [m] in 2..[n],
    or 1 when [n] is 1), the same in all records, and the [xpub] of a
    seed drawn for it. Its encrypted shares are, position by position,
    the seed itself when [n] is 1 and the shares [secrets.share] made
    of the seed otherwise, each encrypted under the password entered for
    its position; that password is not blank and is the same for all
    records. *)
Theorem handleSplitKeys_shares {C : Crypto} {K : JS.Coercion} args w keys w' :
  handleSplitKeys args w = Done keys w' ->
  exists (params : gmap string JS.value) nv mv,
    1 <= nv <= 10 /\ (if nv =? 1 then 1 else 2) <= mv <= nv
    /\ (forall j, 0 <= j < nv ->
         exists pw, params !! password_name j = Some (JS.VStr pw) /\ pw <> ""%string)
    /\ Forall (fun record =>
         n record = Some (JS.VNum nv) /\ m record = Some (JS.VNum mv)
         /\ exists key shares,
              Bgcl.fromSeedHex (seed key) = Some (xpub record, key_xprv key)
              /\ (nv = 1 /\ shares = [seed key]
                  \/ nv <> 1 /\ exists r r2,
                       Bgcl.secrets_share (seed key) nv mv r = Some (shares, r2))
              /\ length (seedShares record) = length shares
              /\ forall j share,
                  shares !! j = Some share ->
                  exists pw rr,
                    params !! password_name (Z.of_nat j) = Some (JS.VStr pw)
                    /\ pw <> ""%string
                    /\ seedShares record !! j = Some (Bgcl.encrypt pw share rr).1) keys.
Proof.
  intros H.
  destruct (handleSplitKeys_run _ _ _ _ H)
    as (params & prefix & nv & mv & Hgen & _ & Hblank & Hall & Hn & Hm & Hnr & Hmr & _).
  exists params, nv, mv. split; [exact Hnr|]. split; [exact Hmr|].
  split.
  { intros j Hj. specialize (Hall j Hj).
    destruct (params !! password_name j) as [v|] eqn:E; [|discriminate].
    destruct (Hblank _ _ E) as (pw & -> & Hne). eauto. }
  clear Hall.
  eapply Forall_impl; [exact Hgen|]. intros record Hrec.
  destruct (generated_by_shape _ _ _ _ Hrec Hn Hm)
    as (En & Em & key & shares & Ek & Hcase & Hlen & Hall).
  split; [exact En|]. split; [exact Em|]. exists key, shares.
  split; [exact Ek|]. split; [exact Hcase|]. split; [exact Hlen|].
  intros j share Hj. destruct (Hall j share Hj) as (pw & rr & Hp & Hc).
  exists pw, rr. split; [exact Hp|]. split; [|exact Hc].
  destruct (Hblank _ _ Hp) as (pw' & E & Hne). now inversion E; subst.
Qed.

(** X19. The batch has as many records as [_.range(0, nkeys)] has
    elements, numbered from 0: for [nkeys] given on the command line as
    a string that converts to the integer [k], it has [k] records, and
    none when [k] is negative. *)
Theorem handleSplitKeys_size {C : Crypto} {K : JS.Coercion} args s k w keys w' :
  arg_nkeys args = Some s -> s <> ""%string ->
  JS.toNumber s = JS.Finite (inject_Z k) ->
  handleSplitKeys args w = Done keys w' ->
  length keys = Z.to_nat k
  /\ index <$> keys = Z.of_nat <$> seq 0 (Z.to_nat k)
  /\ k <= 4294967295.
Proof.
  intros Hs Hne Hnum H.
  pose proof (handleSplitKeys_count _ _ _ _ _ Hs Hne H) as Hc.
  destruct (handleSplitKeys_run _ _ _ _ H)
    as (_ & _ & _ & _ & _ & Hidx & _).
  unfold range_length in Hc. rewrite Hnum in Hc.
  assert (E : Qceiling (inject_Z k) = k).
  { unfold Qceiling, Qfloor, inject_Z, Qopp. simpl. rewrite Z.div_1_r. lia. }
  rewrite E in Hc. destruct (4294967295 <? k) eqn:Hk; [discriminate|].
  inversion Hc as [Hl]. apply Z.ltb_ge in Hk.
  split; [now rewrite Hl|]. split; [|exact Hk]. rewrite Hl. exact Hidx.
Qed.

(** ** [handleRecoverKeys] *)

Lemma uniq_elem (l : list Z) x : x ∈ uniq l <-> x ∈ l.
Proof.
  unfold uniq.
  assert (G : forall acc,
            x ∈ foldl (fun acc x => if bool_decide (x ∈ acc) then acc else acc ++ [x]) acc l
            <-> x ∈ acc \/ x ∈ l).
  { induction l as [|y l IH]; intros acc; simpl.
    - rewrite elem_of_nil. tauto.
    - rewrite IH, elem_of_cons. destruct (decide (y ∈ acc)) as [Hin|Hin].
      + rewrite bool_decide_eq_true_2 by exact Hin.
        split; [tauto|]. intros [?|[->|?]]; auto.
      + rewrite bool_decide_eq_false_2 by exact Hin.
        rewrite elem_of_app, list_elem_of_singleton. tauto. }
  rewrite G, elem_of_nil. tauto.
Qed.

Lemma parse_indices_elem ks x :
  x ∈ parse_indices ks <-> x ∈ omap JS.parseInt (JS.split_on "," ks).
Proof.
  unfold parse_indices, sort_numeric. rewrite merge_sort_Permutation. apply uniq_elem.
Qed.

Lemma parse_indices_NoDup ks : NoDup (parse_indices ks).
Proof.
  unfold parse_indices, sort_numeric. rewrite merge_sort_Permutation. apply uniq_NoDup.
Qed.

(** X20. The indices [handleRecoverKeys] works with are the integers
    among the comma-separated entries of the key list, in strictly
    ascending order and without repetition: the order and the
    repetitions of the entries make no difference to what is
    recovered. *)
Theorem parse_indices_set ks :
  StronglySorted Z.lt (parse_indices ks)
  /\ (forall x, x ∈ parse_indices ks <-> x ∈ omap JS.parseInt (JS.split_on "," ks))
  /\ (forall ks',
         (forall x, x ∈ omap JS.parseInt (JS.split_on "," ks)
                    <-> x ∈ omap JS.parseInt (JS.split_on "," ks')) ->
         parse_indices ks = parse_indices ks').
Proof.
  split; [apply parse_indices_sorted|]. split; [apply parse_indices_elem|].
  intros ks' Hsame.
  apply (StronglySorted_unique_strong Z.lt).
  - intros x1 x2 _ _ H1 H2. lia.
  - apply parse_indices_sorted.
  - apply parse_indices_sorted.
  - apply NoDup_Permutation; [apply parse_indices_NoDup..|].
    intros x. rewrite !parse_indices_elem. apply Hsame.
Qed.

Section RecoverRun.
Context {C : Crypto}.

Lemma sorted_bounds (l : list Z) first rest x :
  StronglySorted Z.lt l -> l = first :: rest -> x ∈ l ->
  first <= x <= default 0 (last l).
Proof.
  intros Hs -> Hx. split.
  - inversion Hs as [|? ? _ Hlt]; subst. rewrite Forall_forall in Hlt.
    apply elem_of_cons in Hx as [->|Hx]; [lia|]. specialize (Hlt x Hx). lia.
  - destruct (last (first :: rest)) as [y|] eqn:Hl;
      [|apply last_None in Hl; discriminate].
    apply last_Some in Hl as [l' E]. rewrite E in Hs, Hx. simpl.
    apply StronglySorted_app in Hs as (Hcross & _ & _).
    apply elem_of_app in Hx as [Hx|Hx].
    + specialize (Hcross x y Hx (list_elem_of_here _ _)). lia.
    + apply list_elem_of_singleton in Hx. lia.
Qed.

(** The handler up to the check of the indices. *)
Lemma handleRecoverKeys_start verifyonly name ks w keys :
  name <> ""%string -> ks <> ""%string ->
  files w !! name = Some (KeysJson keys) ->
  handleRecoverKeys {| arg_verifyonly := verifyonly; arg_file := Some name;
                       arg_keys := Some ks |} w
  = let w1 := {| input := fields_of [("file", Some name); ("keys", Some ks)]%string;
                 stdin := stdin w; rng := rng w; files := files w |} in
    let indices := parse_indices ks in
    match indices with
    | [] => Raise (Error "no indices")
    | first :: _ =>
        if ((first <? 0) || (default 0 (last indices) >=? Z.of_nat (length keys)))%bool
        then Raise (Error ("index out of range: " +:+ pretty (length keys)
                           +:+ " keys in file"))
        else
          match select_positions 0 keys indices with
          | [] => Raise (TypeError "Cannot read property 'm' of undefined")
          | firstKey :: others =>
              match getPasswords (S (length (stdin w))) 0 (m firstKey)
                      (seedShares firstKey) [] w1 with
              | Done passwords w2 =>
                  match recoverKeys verifyonly passwords (firstKey :: others) with
                  | Throw e => Raise e
                  | Ok recoveredKeys => Done recoveredKeys w2
                  end
              | Raise e => Raise e
              | Blocked => Blocked
              end
          end
    end.
Proof.
  intros Hname Hks Hfile. unfold handleRecoverKeys. cbn [arg_file arg_keys arg_verifyonly].
  destruct (recover_fields name ks) as [Ff Fk].
  erewrite bind_eq by reflexivity.
  erewrite bind_eq
    by (apply getVariable_set; cbn [input]; rewrite Ff; now apply truthy_nonempty).
  erewrite bind_eq
    by (apply getVariable_set; cbn [input]; rewrite Fk; now apply truthy_nonempty).
  erewrite bind_eq by reflexivity. cbn [input]. rewrite Ff.
  erewrite bind_eq by (unfold read_keys; cbn [files to_string]; rewrite Hfile; reflexivity).
  erewrite bind_eq by reflexivity. cbn [input]. rewrite Fk. cbn [to_string]. cbn zeta.
  destruct (parse_indices ks) as [|first rest]; [reflexivity|].
  destruct (_ || _)%bool; [reflexivity|].
  destruct (select_positions 0 keys (first :: rest)) as [|firstKey others]; [reflexivity|].
  unfold mbind, M_bind. cbn [stdin].
  destruct (getPasswords _ _ _ _ _ _) as [passwords w2|e|]; try reflexivity.
  destruct (recoverKeys _ _ _); reflexivity.
Qed.

End RecoverRun.

(** X21. [handleRecoverKeys] checks the indices before it asks for any
    password. A key list without a single integer ends the command with
    'no indices'; a negative index, or one that is not below the number
    of keys in the file, ends it with 'index out of range: N keys in
    file', whatever the other indices are. A file that is missing ends
    it as well. *)
Theorem handleRecoverKeys_index_errors {C : Crypto} verifyonly name ks w :
  name <> ""%string -> ks <> ""%string ->
  (forall keys,
      files w !! name = Some (KeysJson keys) ->
      parse_indices ks = [] ->
      handleRecoverKeys {| arg_verifyonly := verifyonly; arg_file := Some name;
                           arg_keys := Some ks |} w
      = Raise (Error "no indices"))
  /\ (forall keys x,
         files w !! name = Some (KeysJson keys) ->
         x ∈ parse_indices ks ->
         x < 0 \/ Z.of_nat (length keys) <= x ->
         handleRecoverKeys {| arg_verifyonly := verifyonly; arg_file := Some name;
                              arg_keys := Some ks |} w
         = Raise (Error ("index out of range: " +:+ pretty (length keys)
                         +:+ " keys in file")))
  /\ (files w !! name = None ->
      handleRecoverKeys {| arg_verifyonly := verifyonly; arg_file := Some name;
                           arg_keys := Some ks |} w
      = Raise (Error "ENOENT: no such file or directory")).
Proof.
  intros Hname Hks. split; [|split].
  - intros keys Hfile Hnil.
    rewrite (handleRecoverKeys_start _ _ _ _ _ Hname Hks Hfile). cbn zeta.
    now rewrite Hnil.
  - intros keys x Hfile Hx Hout.
    rewrite (handleRecoverKeys_start _ _ _ _ _ Hname Hks Hfile). cbn zeta.
    pose proof (parse_indices_sorted ks) as Hsorted.
    destruct (parse_indices ks) as [|first rest] eqn:Hind;
      [now apply elem_of_nil in Hx|].
    pose proof (sorted_bounds _ _ _ _ Hsorted eq_refl Hx) as [Hlo Hhi].
    assert (E : ((first <? 0)
                 || (default 0 (last (first :: rest)) >=? Z.of_nat (length keys)))%bool
                = true).
    { apply orb_true_iff. destruct Hout as [Hneg|Hbig].
      - left. apply Z.ltb_lt. lia.
      - right. rewrite Z.geb_leb. apply Z.leb_le. lia. }
    now rewrite E.
  - intros Hfile. unfold handleRecoverKeys. cbn [arg_file arg_keys arg_verifyonly].
    destruct (recover_fields name ks) as [Ff Fk].
    erewrite bind_eq by reflexivity.
    erewrite bind_eq
      by (apply getVariable_set; cbn [input]; rewrite Ff; now apply truthy_nonempty).
    erewrite bind_eq
      by (apply getVariable_set; cbn [input]; rewrite Fk; now apply truthy_nonempty).
    erewrite bind_eq by reflexivity. cbn [input]. rewrite Ff.
    unfold mbind, M_bind, read_keys. cbn [files to_string]. now rewrite Hfile.
Qed.

Section Bindings.
Context {C : Crypto}.

Lemma new_bindings_from pw shares ps :
  forall i b, b ∈ new_bindings pw i shares ps -> (i <= shareIndex b)%nat.
Proof. intros i b H. now apply new_bindings_elem in H as (_ & H & _). Qed.

Lemma new_bindings_NoDup pw shares ps :
  forall i, NoDup (shareIndex <$> new_bindings pw i shares ps).
Proof.
  induction shares as [|share rest IH]; intros i; simpl; [constructor|].
  destruct (_ && _)%bool; [|apply IH].
  rewrite fmap_cons. apply NoDup_cons. split; [|apply IH].
  intros Hin. apply list_elem_of_fmap in Hin as (b & Hb & Hin).
  apply new_bindings_from in Hin. simpl in Hb. lia.
Qed.

Lemma is_bound_elem ps i : is_bound ps i = true <-> i ∈ shareIndex <$> ps.
Proof.
  unfold is_bound. rewrite existsb_exists. split.
  - intros (b & Hb & E). apply Nat.eqb_eq in E. subst i.
    apply list_elem_of_fmap. exists b. split; [reflexivity|now apply list_elem_of_In].
  - intros H. apply list_elem_of_fmap in H as (b & -> & Hb).
    exists b. split; [now apply list_elem_of_In|apply Nat.eqb_refl].
Qed.

Lemma try_shares_sound pw shares ps :
  sound_bindings shares ps ->
  sound_bindings shares (fst (try_shares pw 0 shares ps false))
  /\ (snd (try_shares pw 0 shares ps false) = true ->
      (length ps < length (fst (try_shares pw 0 shares ps false)))%nat)
  /\ (snd (try_shares pw 0 shares ps false) = false ->
      fst (try_shares pw 0 shares ps false) = ps)
  /\ ps `prefix_of` fst (try_shares pw 0 shares ps false).
Proof.
  intros [Hnd Hall]. rewrite try_shares_spec. cbn [fst snd orb].
  split; [split|split; [|split]].
  - rewrite fmap_app. apply NoDup_app. split; [exact Hnd|]. split.
    + intros i Hi Hi'. apply list_elem_of_fmap in Hi' as (b & -> & Hb).
      apply new_bindings_elem in Hb as (_ & _ & _ & Hfree).
      apply is_bound_elem in Hi. congruence.
    + apply new_bindings_NoDup.
  - apply Forall_app. split; [exact Hall|]. apply Forall_forall. intros b Hb.
    apply new_bindings_elem in Hb as (Hpw & _ & (share & Hs & Hd) & _).
    rewrite Nat.sub_0_r in Hs. exists share. rewrite Hpw. auto.
  - intros H. apply negb_true_iff, bool_decide_eq_false in H.
    rewrite length_app. destruct (new_bindings pw 0 shares ps); [contradiction|].
    simpl. lia.
  - intros H. apply negb_false_iff, bool_decide_eq_true in H.
    rewrite H. apply app_nil_r.
  - now apply prefix_app_r.
Qed.

Lemma getPasswords_sound n shares :
  forall fuel i ps w ps' w',
    getPasswords fuel i n shares ps w = Done ps' w' ->
    sound_bindings shares ps ->
    sound_bindings shares ps'
    /\ ps `prefix_of` ps'
    /\ files w' = files w
    /\ (forall mm, n = Some (JS.VNum mm) -> i <= mm ->
                   Z.of_nat (length ps) + (mm - i) <= Z.of_nat (length ps')).
Proof.
  induction fuel as [|fuel IH]; intros i ps w ps' w' H Hs; simpl in H; [discriminate|].
  destruct (is_num n i) eqn:Hn.
  { inversion H; subst. split; [exact Hs|]. split; [reflexivity|]. split; [reflexivity|].
    intros mm -> _. simpl in Hn. apply Z.eqb_eq in Hn. lia. }
  apply bind_done in H as ([] & w1 & H1 & H).
  pose proof (keeps_files_getPassword _ _ _ _ _ H1) as F1.
  apply bind_done in H as (pw & w2 & H2 & H).
  inversion H2; subst w2 pw; clear H2.
  assert (Hstep : forall mm, n = Some (JS.VNum mm) -> i <= mm -> i + 1 <= mm).
  { intros mm -> Hle. simpl in Hn. apply Z.eqb_neq in Hn. lia. }
  destruct (input w1 !! password_name i) as [[pw|z]|].
  - destruct (try_shares_sound pw shares ps Hs) as (Hs' & Hgrow & Hsame & Hpre).
    destruct (try_shares pw 0 shares ps false) as [ps1 found]. cbn [fst snd] in *.
    destruct found.
    + apply IH in H as (S2 & P2 & F2 & L2); [|exact Hs'].
      split; [exact S2|]. split; [etransitivity; eauto|]. split; [congruence|].
      intros mm Hmm Hle. specialize (L2 mm Hmm (Hstep mm Hmm Hle)).
      specialize (Hgrow eq_refl). lia.
    + apply bind_done in H as ([] & w3 & H3 & H). inversion H3; subst w3; clear H3.
      rewrite (Hsame eq_refl) in *.
      apply IH in H as (S2 & P2 & F2 & L2); [|exact Hs].
      cbn [files] in F2. split; [exact S2|]. split; [exact P2|]. split; [congruence|].
      exact L2.
  - apply bind_done in H as ([] & w3 & H3 & H). inversion H3; subst w3; clear H3.
    apply IH in H as (S2 & P2 & F2 & L2); [|exact Hs].
    cbn [files] in F2. split; [exact S2|]. split; [exact P2|]. split; [congruence|].
    exact L2.
  - apply bind_done in H as ([] & w3 & H3 & H). inversion H3; subst w3; clear H3.
    apply IH in H as (S2 & P2 & F2 & L2); [|exact Hs].
    cbn [files] in F2. split; [exact S2|]. split; [exact P2|]. split; [congruence|].
    exact L2.
Qed.

End Bindings.

(** X22. The password loop of [handleRecoverKeys] only adds bindings,
    at least one per password slot, and keeps them sound: no share index
    is bound twice, and every password bound decrypts the share of the
    first key it is bound to. Started from no binding for [m] slots, it
    ends with [m] bindings or more. *)
Theorem getPasswords_bindings {C : Crypto} fuel i n shares ps w ps' w' :
  getPasswords fuel i n shares ps w = Done ps' w' ->
  sound_bindings shares ps ->
  sound_bindings shares ps'
  /\ ps `prefix_of` ps'
  /\ (forall mm, n = Some (JS.VNum mm) -> i <= mm ->
                 Z.of_nat (length ps) + (mm - i) <= Z.of_nat (length ps')).
Proof.
  intros H Hs. destruct (getPasswords_sound _ _ _ _ _ _ _ _ H Hs) as (? & ? & _ & ?).
  auto.
Qed.

Lemma recoverKeys_xprv {C : Crypto} verifyonly passwords keys :
  forall recovered,
    recoverKeys verifyonly passwords keys = Ok recovered ->
    length recovered = length keys
    /\ Forall (fun r => is_Some (r_xprv r) <-> verifyonly = false) recovered.
Proof.
  induction keys as [|key keys IH]; intros recovered H; simpl in H.
  - inversion H. split; [reflexivity|constructor].
  - destruct (recoverKey verifyonly passwords key) as [r|] eqn:Hr; [|discriminate].
    destruct (recoverKeys verifyonly passwords keys) as [rs|]; [|discriminate].
    inversion H; subst. destruct (IH rs eq_refl) as [Hl Hall].
    split; [simpl; now rewrite Hl|]. constructor; [|exact Hall].
    unfold recoverKey in Hr.
    destruct (decrypt_shares key passwords) as [shares|]; [|discriminate].
    destruct (match shares with [share] => Some share | _ => Bgcl.secrets_combine shares end)
      as [sd|]; [|discriminate].
    destruct (Bgcl.fromSeedHex sd) as [[xpub' xprv']|]; [|discriminate].
    destruct verifyonly; simpl in Hr.
    + inversion Hr; subst; simpl. split; [intros [? ?]; discriminate|discriminate].
    + destruct (String.eqb xpub' (xpub key)); simpl in Hr; [|discriminate].
      inversion Hr; subst; simpl. split; [reflexivity|eauto].
Qed.

(** X23. A run of [handleRecoverKeys] that returns has written no file
    and returns one record per key selected. In verify-only mode none
    of the records carries an [xprv]; in recovery mode every one
    does. *)
Theorem handleRecoverKeys_output {C : Crypto} verifyonly name ks w keys recovered w' :
  name <> ""%string -> ks <> ""%string ->
  files w !! name = Some (KeysJson keys) ->
  handleRecoverKeys {| arg_verifyonly := verifyonly; arg_file := Some name;
                       arg_keys := Some ks |} w = Done recovered w' ->
  files w' = files w
  /\ length recovered = length (select_positions 0 keys (parse_indices ks))
  /\ Forall (fun r => r_xprv r = None <-> verifyonly = true) recovered.
Proof.
  intros Hname Hks Hfile H.
  rewrite (handleRecoverKeys_start _ _ _ _ _ Hname Hks Hfile) in H. cbn zeta in H.
  destruct (parse_indices ks) as [|first rest]; [discriminate|].
  destruct (_ || _)%bool; [discriminate|].
  destruct (select_positions 0 keys (first :: rest)) as [|firstKey others]; [discriminate|].
  destruct (getPasswords _ _ _ _ _ _) as [passwords w2|e|] eqn:Hp; try discriminate.
  destruct (recoverKeys verifyonly passwords (firstKey :: others)) as [rs|] eqn:Hr;
    [|discriminate].
  inversion H; subst; clear H.
  apply getPasswords_sound in Hp as (_ & _ & Hf & _);
    [|split; [constructor|constructor]].
  apply recoverKeys_xprv in Hr as [Hl Hall].
  split; [exact Hf|]. split; [exact Hl|].
  eapply Forall_impl; [exact Hall|]. intros r Hx. simpl in Hx.
  destruct verifyonly, (r_xprv r) as [x|]; split; intros E; try reflexivity;
    try discriminate.
  - destruct Hx as [Hx _]. specialize (Hx (mk_is_Some _ _ eq_refl)). discriminate.
  - destruct Hx as [_ Hx]. destruct (Hx eq_refl). discriminate.
Qed.

(** X24. With the bindings the password loop has made, every selected
    key is decrypted by the shares and passwords found on the first
    one. The decryption of a key succeeds exactly when every binding
    names a share the key has and its password decrypts that share, and
    then gives the plain shares in the order of the bindings; otherwise
    it throws, and so does the recovery of that key. For the first key
    and sound bindings it always succeeds. *)
Theorem decrypt_shares_outcome {C : Crypto} key passwords :
  (forall shares,
      decrypt_shares key passwords = Ok shares <->
      Forall2 (fun b share =>
                 exists c, seedShares key !! shareIndex b = Some c
                           /\ Bgcl.decrypt (password b) c = Some share)
              passwords shares)
  /\ ((forall shares, decrypt_shares key passwords <> Ok shares) ->
      decrypt_shares key passwords = Throw (LibError "sjcl.decrypt")
      /\ forall verifyonly,
           recoverKey verifyonly passwords key = Throw (LibError "sjcl.decrypt"))
  /\ (sound_bindings (seedShares key) passwords ->
      exists shares, decrypt_shares key passwords = Ok shares
                     /\ length shares = length passwords).
Proof.
  assert (Hiff : forall ps shares,
            decrypt_shares key ps = Ok shares <->
            Forall2 (fun b share =>
                       exists c, seedShares key !! shareIndex b = Some c
                                 /\ Bgcl.decrypt (password b) c = Some share)
                    ps shares).
  { induction ps as [|b ps IH]; intros shares; simpl.
    - split; [intros H; inversion H; constructor|intros H; inversion H; reflexivity].
    - destruct (seedShares key !! shareIndex b) as [c|] eqn:Hc.
      + destruct (Bgcl.decrypt (password b) c) as [share|] eqn:Hd.
        * destruct (decrypt_shares key ps) as [rest|e] eqn:Hr.
          -- split.
             ++ intros H; inversion H; subst. constructor; [eauto|now apply IH].
             ++ intros H. inversion H as [|? s ? rest' (c' & E1 & E2) Hrest]; subst.
                rewrite Hc in E1. inversion E1; subst c'. rewrite Hd in E2.
                inversion E2; subst s. apply IH in Hrest. inversion Hrest; reflexivity.
          -- split; [discriminate|].
             intros H. inversion H as [|? s ? rest' _ Hrest]; subst.
             apply IH in Hrest. discriminate.
        * split; [discriminate|].
          intros H. inversion H as [|? s ? rest' (c' & E1 & E2) _]; subst.
          rewrite Hc in E1. inversion E1; subst c'. rewrite Hd in E2. discriminate.
      + split; [discriminate|].
        intros H. inversion H as [|? s ? rest' (c' & E1 & _) _]; subst.
        rewrite Hc in E1. discriminate. }
  assert (Hthrow : forall ps e, decrypt_shares key ps = Throw e -> e = LibError "sjcl.decrypt").
  { induction ps as [|b ps IH]; intros e H; simpl in H; [discriminate|].
    destruct (seedShares key !! shareIndex b) as [c|]; [|now inversion H].
    destruct (Bgcl.decrypt (password b) c) as [share|]; [|now inversion H].
    destruct (decrypt_shares key ps) as [rest|e'] eqn:Hr; [discriminate|].
    inversion H; subst. now apply IH. }
  split; [apply Hiff|]. split.
  - intros Hno. destruct (decrypt_shares key passwords) as [shares|e] eqn:Hd.
    + exfalso. exact (Hno shares eq_refl).
    + pose proof (Hthrow _ _ Hd) as ->. split; [reflexivity|].
      intros verifyonly. unfold recoverKey. now rewrite Hd.
  - intros [_ Hall].
    assert (G : exists shares,
              Forall2 (fun b share =>
                         exists c, seedShares key !! shareIndex b = Some c
                                   /\ Bgcl.decrypt (password b) c = Some share)
                      passwords shares).
    { induction Hall as [|b ps (c & Hc & [share Hd]) _ (shares & IH)].
      - exists []. constructor.
      - exists (share :: shares). constructor; [eauto|exact IH]. }
    destruct G as (shares & G). exists shares.
    split; [now apply Hiff|]. symmetry. eapply Forall2_length; eauto.
Qed.

(** ** [Session.labelForAddress] *)

Lemma foundLabel_app wallet pre x post :
  Session.walletId x = wallet ->
  Forall (fun l => Session.walletId l <> wallet) post ->
  Session.foundLabel wallet (pre ++ x :: post) = Some (Session.label x).
Proof.
  intros Hx Hpost. unfold Session.foundLabel. rewrite foldl_app. simpl.
  rewrite <- Hx, String.eqb_refl. rewrite Hx.
  induction Hpost as [|l post Hl _ IH]; simpl; [reflexivity|].
  apply String.eqb_neq in Hl. now rewrite Hl.
Qed.

Lemma foundLabel_none wallet labels :
  Forall (fun l => Session.walletId l <> wallet) labels ->
  forall acc, foldl (fun found l => if String.eqb (Session.walletId l) wallet
                                    then Some (Session.label l) else found) acc labels
              = acc.
Proof.
  induction 1 as [|l labels Hl _ IH]; intros acc; simpl; [reflexivity|].
  apply String.eqb_neq in Hl. rewrite Hl. apply IH.
Qed.

Lemma foundLabel_member wallet labels :
  forall acc r,
    foldl (fun found l => if String.eqb (Session.walletId l) wallet
                          then Some (Session.label l) else found) acc labels = Some r ->
    acc = Some r \/ exists l, l ∈ labels /\ Session.label l = r.
Proof.
  induction labels as [|l labels IH]; intros acc r H; simpl in H; [auto|].
  apply IH in H as [H|(l' & Hin & E)].
  - destruct (String.eqb _ _); [|auto]. inversion H; subst.
    right. exists l. split; [apply list_elem_of_here|reflexivity].
  - right. exists l'. split; [now apply list_elem_of_further|exact E].
Qed.

(** X25. [labelForAddress] answers [undefined] exactly when the session
    has no label for the address, and otherwise with one of the labels
    stored for it: the only one when there is one; among several, the
    label of the last entry that belongs to the current wallet (the
    loop over the labels does not stop at the first), unless that label
    is blank or no entry belongs to the wallet, where the first label
    is the answer. With several labels and no current wallet the call
    fails. *)
Theorem labelForAddress_result wallet labels address :
  (forall r, Session.labelForAddress wallet labels address = Ok r ->
     (r = None <-> labels ≫= (fun m => m !! address) = None
                   \/ labels ≫= (fun m => m !! address) = Some [])
     /\ (forall s, r = Some s ->
           exists ls l, labels ≫= (fun m => m !! address) = Some ls
                        /\ l ∈ ls /\ Session.label l = s))
  /\ (forall l, labels ≫= (fun m => m !! address) = Some [l] ->
        Session.labelForAddress wallet labels address = Ok (Some (Session.label l)))
  /\ (forall id pre x post,
        wallet = Some id ->
        labels ≫= (fun m => m !! address) = Some (pre ++ x :: post) ->
        (2 <= length (pre ++ x :: post))%nat ->
        Session.walletId x = id ->
        Forall (fun l => Session.walletId l <> id) post ->
        Session.label x <> ""%string ->
        Session.labelForAddress wallet labels address = Ok (Some (Session.label x)))
  /\ (forall id l0 l1 ls,
        wallet = Some id ->
        labels ≫= (fun m => m !! address) = Some (l0 :: l1 :: ls) ->
        Forall (fun l => Session.walletId l <> id) (l0 :: l1 :: ls) ->
        Session.labelForAddress wallet labels address = Ok (Some (Session.label l0)))
  /\ (forall l0 l1 ls,
        wallet = None ->
        labels ≫= (fun m => m !! address) = Some (l0 :: l1 :: ls) ->
        Session.labelForAddress wallet labels address
        = Throw (TypeError "Cannot read property 'id' of undefined")).
Proof.
  unfold Session.labelForAddress.
  split; [|split; [|split; [|split]]].
  - intros r H.
    destruct (labels ≫= (fun m => m !! address)) as [[|l0 [|l1 ls]]|] eqn:E.
    + inversion H; subst. split; [tauto|discriminate].
    + inversion H; subst. split; [split; [discriminate|intros [?|?]; discriminate]|].
      intros s Hs. inversion Hs; subst. exists [l0], l0.
      split; [reflexivity|split; [apply list_elem_of_here|reflexivity]].
    + destruct wallet as [id|]; [|discriminate].
      destruct (JS.truthy_str (Session.foundLabel id (l0 :: l1 :: ls))) eqn:Ht.
      * inversion H; subst.
        destruct (Session.foundLabel id (l0 :: l1 :: ls)) as [s|] eqn:Hf; [|discriminate].
        split; [split; [discriminate|intros [?|?]; discriminate]|].
        intros s' Hs. inversion Hs; subst s'.
        apply foundLabel_member in Hf as [?|(l & Hin & El)]; [discriminate|].
        exists (l0 :: l1 :: ls), l. auto.
      * inversion H; subst.
        split; [split; [discriminate|intros [?|?]; discriminate]|].
        intros s Hs. inversion Hs; subst s. exists (l0 :: l1 :: ls), l0.
        split; [reflexivity|split; [apply list_elem_of_here|reflexivity]].
    + inversion H; subst. split; [tauto|discriminate].
  - intros l ->. reflexivity.
  - intros id pre x post -> -> Hlen Hx Hpost Hlabel.
    pose proof (foundLabel_app id pre x post Hx Hpost) as Hf.
    assert (Ht : JS.truthy_str (Some (Session.label x)) = true)
      by (simpl; destruct (Session.label x); [contradiction|reflexivity]).
    destruct (pre ++ x :: post) as [|l0 [|l1 ls]]; simpl in Hlen; try lia.
    rewrite Hf, Ht. reflexivity.
  - intros id l0 l1 ls -> -> Hall. unfold Session.foundLabel.
    rewrite (foundLabel_none id _ Hall). reflexivity.
  - intros l0 l1 ls -> ->. reflexivity.
Qed.

(** * Sample instances of the further properties *)

Lemma buildInputs_result_witness :
  @buildInputs RecoverySample.lib MoreSamples.ready None
  = (fst MoreSamples.inputs_built, Ok (Some MoreSamples.built_txInfo))
  /\ inputAmount MoreSamples.built_txInfo = 100000.
Proof.
  assert (H : @buildInputs RecoverySample.lib MoreSamples.ready None
              = (fst MoreSamples.inputs_built, Ok (Some MoreSamples.built_txInfo)))
    by (vm_compute; reflexivity).
  split; [exact H|].
  destruct (@buildInputs_result RecoverySample.lib _ _ _ _ H)
    as (us & Hus & _ & _ & Hsum & _).
  inversion Hus; subst us. exact Hsum.
Defined.

Lemma buildOutputs_amount_witness :
  txInfo MoreSamples.fees_set = Some MoreSamples.fees_txInfo
  /\ exists ti',
       txInfo (fst (@buildOutputs RecoverySample.lib MoreSamples.fees_set
                      "recovery-address" None (Some 500))) = Some ti'
       /\ outputAmount ti' = 100000 - 500
       /\ minerFee ti' = 12680.
Proof.
  assert (H : txInfo MoreSamples.fees_set = Some MoreSamples.fees_txInfo) by reflexivity.
  split; [exact H|].
  destruct (@buildOutputs_amount RecoverySample.lib _ _ "recovery-address" None (Some 500) H)
    as (ti' & E1 & E2 & _ & E4 & _ & _ & _ & E8 & _).
  exists ti'. split; [exact E1|]. split; [|exact E4].
  rewrite E2. apply (E8 500); [auto|reflexivity|discriminate].
Defined.

Lemma buildOutputs_outcome_witness :
  txInfo MoreSamples.fees_set = Some MoreSamples.fees_txInfo
  /\ (snd (@buildOutputs RecoverySample.lib MoreSamples.fees_set "recovery-address"
             (Some (-5)) None)
      = Throw (Error "This recovery transaction cannot pay its own fees. Aborting.")
      <-> chosen_amount MoreSamples.fees_txInfo (Some (-5)) None <= 0).
Proof.
  assert (H : txInfo MoreSamples.fees_set = Some MoreSamples.fees_txInfo) by reflexivity.
  split; [exact H|].
  exact (proj1 (@buildOutputs_outcome RecoverySample.lib _ _ "recovery-address"
                  (Some (-5)) None H)).
Defined.

Lemma buildOutputs_without_txInfo_witness :
  txInfo MoreSamples.ready = None
  /\ fst (@buildOutputs RecoverySample.lib MoreSamples.ready "recovery-address"
            (Some 1000) None) = MoreSamples.ready.
Proof.
  assert (H : txInfo MoreSamples.ready = None) by reflexivity.
  split; [exact H|].
  exact (proj1 (@buildOutputs_without_txInfo RecoverySample.lib _ "recovery-address"
                  (Some 1000) None H)).
Defined.

(** Source coin [btc], recovery type [btc-segwit]: the source wallet of
    the finished tool is the recovery wallet. *)
Lemma buildTransaction_wallets_witness :
  @buildTransaction RecoverySample.lib MoreSamples.same_coin_tool
    RecoverySample.sourceWallet [] RecoverySample.recoveryWallet
    RecoverySample.recoveryAddrs RecoverySample.found "recovery-address"
  = (fst MoreSamples.same_coin_built, Ok MoreSamples.same_coin_tx)
  /\ wallets_source (fst MoreSamples.same_coin_built) = Some RecoverySample.recoveryWallet.
Proof.
  assert (H : @buildTransaction RecoverySample.lib MoreSamples.same_coin_tool
                RecoverySample.sourceWallet [] RecoverySample.recoveryWallet
                RecoverySample.recoveryAddrs RecoverySample.found "recovery-address"
              = (fst MoreSamples.same_coin_built, Ok MoreSamples.same_coin_tx))
    by (vm_compute; reflexivity).
  split; [exact H|].
  destruct (@buildTransaction_wallets RecoverySample.lib _ _ _ _ _ _ _ _ _ H)
    as (_ & _ & _ & Hsrc & _).
  exact (proj1 Hsrc).
Defined.

Lemma findUnspents_then_buildInputs_witness :
  RecoveryCalls.findUnspents MoreSamples.wallets_set "faulty-tx" ["3Z"; "3A"]%string
    MoreSamples.service
  = Ok (set_unspents MoreSamples.wallets_set
          (Some [RecoverySample.unspent "aa:0" "3A" 60000]),
        [RecoverySample.unspent "aa:0" "3A" 60000])
  /\ snd (@buildInputs RecoverySample.lib
            (set_unspents MoreSamples.wallets_set
               (Some [RecoverySample.unspent "aa:0" "3A" 60000])) None) <> Ok None.
Proof.
  assert (H : RecoveryCalls.findUnspents MoreSamples.wallets_set "faulty-tx"
                ["3Z"; "3A"]%string MoreSamples.service
              = Ok (set_unspents MoreSamples.wallets_set
                      (Some [RecoverySample.unspent "aa:0" "3A" 60000]),
                    [RecoverySample.unspent "aa:0" "3A" 60000]))
    by (vm_compute; reflexivity).
  split; [exact H|].
  destruct (@findUnspents_then_buildInputs RecoverySample.lib _ _ _ _ _ _ H)
    as (_ & _ & _ & Hno).
  apply Hno. repeat constructor.
Defined.

Lemma setWallet_lookup_witness :
  exists c w,
    MoreSamples.v1_tool
    = set_txInfo (Recovery.setWallet (set_unspents RecoverySample.tool None) c w
                    RecoverySample.recoveryAddrs)
        (Some MoreSamples.built_txInfo)
    /\ w_isV1 w = true.
Proof.
  assert (H : RecoveryCalls.setWallet (set_unspents RecoverySample.tool None) "btc"
                "btc-wallet" (RecoveryCalls.Rejected (Some 404))
                (RecoveryCalls.Resolved RecoverySample.recoveryWallet)
                RecoverySample.recoveryAddrs
              = Ok (set_txInfo MoreSamples.v1_tool None))
    by (vm_compute; reflexivity).
  destruct (proj1 (setWallet_lookup _ _ _ _ _ _) _ H)
    as (c & w & Ht & _ & _ & _ & [Hv2|(s & w1 & _ & _ & _ & _ & Hw)]);
    [discriminate|].
  exists c, w. split; [|rewrite Hw; reflexivity].
  rewrite <- Ht. reflexivity.
Defined.

Lemma getKeys_result_witness :
  @RecoveryCalls.getKeys Reference.crypto MoreSamples.v1_tool
    (RecoveryCalls.Resolved MoreSamples.keychain) (Some "secret"%string)
  = MoreSamples.v1_keys
  /\ exists keys dest pw,
       MoreSamples.v1_keys = Ok keys
       /\ wallets_dest MoreSamples.v1_tool = Some dest
       /\ pw <> ""%string
       /\ RecoveryCalls.keys_prv keys = None.
Proof.
  split; [vm_compute; reflexivity|].
  assert (H : @RecoveryCalls.getKeys Reference.crypto MoreSamples.v1_tool
                (RecoveryCalls.Resolved MoreSamples.keychain) (Some "secret"%string)
              = Ok (RecoveryCalls.KeychainOnly
                      {| RecoveryCalls.encryptedPrv :=
                           RecoveryCalls.encryptedPrv MoreSamples.keychain;
                         RecoveryCalls.kc_path := Some ""%string;
                         RecoveryCalls.kc_xprv := Some "xprv-of-the-user"%string |}))
    by (vm_compute; reflexivity).
  destruct (@getKeys_result Reference.crypto _ _ _ _ H)
    as (dest & pw & Hd & _ & Hpw & Hv1 & _).
  eexists _, dest, pw. split; [reflexivity|]. split; [exact Hd|]. split; [exact Hpw|].
  reflexivity.
Defined.

(** A V1 wallet, the passphrase of its keychain and no [prv]: the signer
    gets no key. *)
Lemma signTransaction_prv_witness :
  @RecoveryCalls.signTransaction Reference.crypto MoreSamples.v1_tool (Ok "0100"%string)
    None (Some "secret"%string) (RecoveryCalls.Resolved MoreSamples.keychain)
  = Ok ("0100"%string, MoreSamples.built_txInfo, None)
  /\ exists k pw xprv,
       RecoveryCalls.Resolved MoreSamples.keychain = RecoveryCalls.Resolved k
       /\ Some "secret"%string = Some pw
       /\ @Bgcl.decrypt Reference.crypto pw (RecoveryCalls.encryptedPrv k) = Some xprv.
Proof.
  assert (H : @RecoveryCalls.signTransaction Reference.crypto MoreSamples.v1_tool
                (Ok "0100"%string) None (Some "secret"%string)
                (RecoveryCalls.Resolved MoreSamples.keychain)
              = Ok ("0100"%string, MoreSamples.built_txInfo, None))
    by (vm_compute; reflexivity).
  split; [exact H|].
  refine (proj2 (proj2 (proj2 (@signTransaction_prv Reference.crypto _ _ _ _ _))
                   {| w_id := "btc-wallet"; w_isV1 := true |} _ _ _ _ _ _ H)).
  - reflexivity.
  - reflexivity.
  - left. reflexivity.
Defined.

Lemma buildInputs_failure_witness :
  exists pre u post,
    [RecoverySample.unspent "aa:0" "3A" 60000; RecoverySample.unspent "cc:0" "3Z" 50000]
    = pre ++ u :: post
    /\ length pre = 1%nat
    /\ u_address u = "3Z"%string
    /\ ins (recoveryTx (fst (@buildInputs RecoverySample.lib
                               MoreSamples.ready_then_stranger None)))
       = ins (recoveryTx MoreSamples.ready_then_stranger)
         ++ map (fun v => outpoint (u_id v)) pre
    /\ snd (@buildInputs RecoverySample.lib MoreSamples.ready_then_stranger None) = Ok None.
Proof.
  assert (Hr : snd (@buildInputs RecoverySample.lib MoreSamples.ready_then_stranger None)
               = Ok None) by (vm_compute; reflexivity).
  destruct (proj2 (@buildInputs_failure RecoverySample.lib
                     MoreSamples.ready_then_stranger None)
              [RecoverySample.unspent "aa:0" "3A" 60000;
               RecoverySample.unspent "cc:0" "3Z" 50000] eq_refl)
    as (_ & _ & pre & u & post & E & Hpre & Hstop).
  { intros ti. rewrite Hr. discriminate. }
  cbv zeta in Hstop. rewrite Hr in Hstop.
  exists pre, u, post. split; [exact E|].
  destruct Hstop as [(_ & _ & H)|[(_ & _ & H)|[((addrs & Ha & Hno) & Hi & _)
                     |[(_ & _ & H)|(_ & _ & _ & H)]]]]; try discriminate.
  assert (Haddr : addrs = RecoverySample.recoveryAddrs)
    by (vm_compute in Ha; inversion Ha; reflexivity).
  subst addrs.
  destruct pre as [|v [|v' pre]].
  - exfalso. inversion E; subst u. apply Hno. vm_compute. eauto.
  - inversion E; subst.
    split; [reflexivity|]. split; [reflexivity|]. split; [exact Hi|exact Hr].
  - exfalso. inversion E as [[E1 E2]]. destruct pre; discriminate.
Defined.

Lemma finished_unit (r : result (@World Reference.crypto) unit) :
  BgclSample.finished r = true -> r = Done tt (BgclSample.world_of r).
Proof. destruct r as [[] w| |]; simpl; intros H; try discriminate. reflexivity. Qed.

Lemma finished_result {A} (d : A) (r : result (@World Reference.crypto) A) :
  BgclSample.finished r = true ->
  r = Done (MoreSamples.result_of d r) (BgclSample.world_of r).
Proof. destruct r; simpl; intros H; try discriminate. reflexivity. Qed.

(** A line of spaces and a line that is a no-break space, both blank,
    then an answer with a no-break space before it and a space after. *)
Lemma getVariable_prompt_witness :
  @getVariable Reference.crypto "prefix" true (Some (JS.VStr "keys"))
    (MoreSamples.typed [] ["  "; " "; " my-keys "; "next"]%string)
  = Done tt
      (with_input (MoreSamples.typed [] ["  "; " "; " my-keys "; "next"]%string)
         (<["prefix"%string := JS.VStr (JS.trim " my-keys ")]>
            (input (MoreSamples.typed [] ["  "; " "; " my-keys "; "next"]%string)))
         ["next"]%string).
Proof.
  apply (proj1 (@getVariable_prompt Reference.crypto "prefix" (Some (JS.VStr "keys"))
                  (MoreSamples.typed [] ["  "; " "; " my-keys "; "next"]%string)
                  eq_refl eq_refl)
           ["  "; " "]%string " my-keys "%string ["next"]%string).
  - reflexivity.
  - repeat constructor.
  - vm_compute. discriminate.
Defined.

(** A mismatch, then the same password twice. *)
Lemma getPassword_result_witness :
  BgclSample.finished
    (@getPassword Reference.crypto "password0" true
       (MoreSamples.typed [] ["a"; "b"; "c"; "c"; "z"]%string)) = true
  /\ JS.truthy
       (input (BgclSample.world_of
                 (@getPassword Reference.crypto "password0" true
                    (MoreSamples.typed [] ["a"; "b"; "c"; "c"; "z"]%string)))
          !! "password0"%string) = true.
Proof.
  assert (F : BgclSample.finished
                (@getPassword Reference.crypto "password0" true
                   (MoreSamples.typed [] ["a"; "b"; "c"; "c"; "z"]%string)) = true)
    by (vm_compute; reflexivity).
  split; [exact F|].
  exact (proj1 (@getPassword_result Reference.crypto _ _ _ _ (finished_unit _ F))).
Defined.

Lemma getSigningSecret_passphrase_witness :
  BgclSample.finished
    (@Commands.getSigningSecret Reference.crypto true
       (MoreSamples.typed [] [""; "secret"; "key"; "key"]%string)) = true
  /\ input (BgclSample.world_of
              (@Commands.getSigningSecret Reference.crypto true
                 (MoreSamples.typed [] [""; "secret"; "key"; "key"]%string)))
       !! "prv"%string
     = input (MoreSamples.typed [] [""; "secret"; "key"; "key"]%string) !! "prv"%string.
Proof.
  assert (F : BgclSample.finished
                (@Commands.getSigningSecret Reference.crypto true
                   (MoreSamples.typed [] [""; "secret"; "key"; "key"]%string)) = true)
    by (vm_compute; reflexivity).
  split; [exact F|].
  exact (proj2 (proj2 (@getSigningSecret_passphrase Reference.crypto true _) _
                  (finished_unit _ F))).
Defined.

(** A word, a number above the bound, then a number within. *)
Lemma getIntVariable_result_witness :
  BgclSample.finished
    (@getIntVariable Reference.crypto Reference.coercion "n" true 1 (Some 10)
       (MoreSamples.typed [] ["abc"; "12"; "7"]%string)) = true
  /\ forall k, k <> "n"%string ->
       input (BgclSample.world_of
                (@getIntVariable Reference.crypto Reference.coercion "n" true 1 (Some 10)
                   (MoreSamples.typed [] ["abc"; "12"; "7"]%string))) !! k
       = input (MoreSamples.typed [] ["abc"; "12"; "7"]%string) !! k.
Proof.
  assert (F : BgclSample.finished
                (@getIntVariable Reference.crypto Reference.coercion "n" true 1 (Some 10)
                   (MoreSamples.typed [] ["abc"; "12"; "7"]%string)) = true)
    by (vm_compute; reflexivity).
  split; [exact F|].
  exact (proj2 (@getIntVariable_result Reference.crypto Reference.coercion
                  _ _ _ _ _ _ (finished_unit _ F))).
Defined.

Example getIntVariable_sample :
  input (BgclSample.world_of
           (@getIntVariable Reference.crypto Reference.coercion "n" true 1 (Some 10)
              (MoreSamples.typed [] ["abc"; "12"; "7"]%string))) !! "n"%string
  = Some (JS.VNum 7).
Proof. vm_compute. reflexivity. Qed.

Lemma handleSplitKeys_files_witness :
  BgclSample.finished (BgclSample.split_run "2" "a" "b" "c") = true
  /\ exists prefix,
       prefix <> ""%string
       /\ files (BgclSample.world_of (BgclSample.split_run "2" "a" "b" "c"))
            !! (prefix +:+ ".json")
          = Some (KeysJson (BgclSample.keys_of (BgclSample.split_run "2" "a" "b" "c"))).
Proof.
  assert (F : BgclSample.finished (BgclSample.split_run "2" "a" "b" "c") = true)
    by (vm_compute; reflexivity).
  split; [exact F|].
  destruct (@handleSplitKeys_files Reference.crypto Reference.coercion
              (BgclSample.split_args "2") (BgclSample.split_world "a" "b" "c")
              _ _ (finished_done _ F)) as (prefix & Hne & _ & Hjson & _).
  exists prefix. split; [exact Hne|exact Hjson].
Defined.

Lemma handleSplitKeys_shares_witness :
  BgclSample.finished (BgclSample.split_run "2" "a" "b" "c") = true
  /\ exists nv mv,
       1 <= nv <= 10 /\ (if nv =? 1 then 1 else 2) <= mv <= nv
       /\ Forall (fun record => n record = Some (JS.VNum nv) /\ m record = Some (JS.VNum mv))
            (BgclSample.keys_of (BgclSample.split_run "2" "a" "b" "c")).
Proof.
  assert (F : BgclSample.finished (BgclSample.split_run "2" "a" "b" "c") = true)
    by (vm_compute; reflexivity).
  split; [exact F|].
  destruct (@handleSplitKeys_shares Reference.crypto Reference.coercion
              (BgclSample.split_args "2") (BgclSample.split_world "a" "b" "c")
              _ _ (finished_done _ F)) as (params & nv & mv & Hn & Hm & _ & Hall).
  exists nv, mv. split; [exact Hn|]. split; [exact Hm|].
  eapply Forall_impl; [exact Hall|]. intros record (E1 & E2 & _). auto.
Defined.

Lemma handleSplitKeys_size_witness :
  BgclSample.finished (BgclSample.split_run "2" "a" "b" "c") = true
  /\ length (BgclSample.keys_of (BgclSample.split_run "2" "a" "b" "c")) = Z.to_nat 2.
Proof.
  assert (F : BgclSample.finished (BgclSample.split_run "2" "a" "b" "c") = true)
    by (vm_compute; reflexivity).
  split; [exact F|].
  refine (proj1 (@handleSplitKeys_size Reference.crypto Reference.coercion
                   (BgclSample.split_args "2") "2" 2
                   (BgclSample.split_world "a" "b" "c") _ _ _ _ _ (finished_done _ F))).
  - reflexivity.
  - discriminate.
  - vm_compute. reflexivity.
Defined.

(** The second entry starts with a no-break space. *)
Lemma parse_indices_set_witness : parse_indices "3, 1,x,3" = parse_indices "1,3".
Proof.
  apply (proj2 (proj2 (parse_indices_set "3, 1,x,3")) "1,3"%string).
  assert (E1 : omap JS.parseInt (JS.split_on "," "3, 1,x,3") = [3; 1; 3])
    by (vm_compute; reflexivity).
  assert (E2 : omap JS.parseInt (JS.split_on "," "1,3") = [1; 3])
    by (vm_compute; reflexivity).
  intros x. rewrite E1, E2, !elem_of_cons, elem_of_nil. tauto.
Defined.

(** The index 7, entered with a no-break space before it. *)
Lemma handleRecoverKeys_index_errors_witness :
  @handleRecoverKeys Reference.crypto
    {| arg_verifyonly := false; arg_file := Some "keys.json"%string;
       arg_keys := Some "0, 7"%string |}
    (BgclSample.recover_world BgclSample.tampered_files [])
  = Raise (Error ("index out of range: "
                  +:+ pretty (length (BgclSample.tampered_key
                                        :: tail (BgclSample.keys_of BgclSample.batch)))
                  +:+ " keys in file")).
Proof.
  refine (proj1 (proj2 (@handleRecoverKeys_index_errors Reference.crypto false
                          "keys.json" "0, 7"
                          (BgclSample.recover_world BgclSample.tampered_files []) _ _))
            (BgclSample.tampered_key :: tail (BgclSample.keys_of BgclSample.batch))
            7 _ _ _).
  - discriminate.
  - discriminate.
  - vm_compute. reflexivity.
  - apply parse_indices_elem.
    assert (E : omap JS.parseInt (JS.split_on "," "0, 7") = [0; 7])
      by (vm_compute; reflexivity).
    rewrite E. repeat constructor.
  - right. vm_compute. discriminate.
Defined.

Lemma getPasswords_bindings_witness :
  BgclSample.finished
    (@getPasswords Reference.crypto 4 0 (Some (JS.VNum 2))
       (BgclSample.first_shares BgclSample.batch) [] BgclSample.entry_world) = true
  /\ @sound_bindings Reference.crypto (BgclSample.first_shares BgclSample.batch)
       (MoreSamples.result_of []
          (@getPasswords Reference.crypto 4 0 (Some (JS.VNum 2))
             (BgclSample.first_shares BgclSample.batch) [] BgclSample.entry_world)).
Proof.
  assert (F : BgclSample.finished
                (@getPasswords Reference.crypto 4 0 (Some (JS.VNum 2))
                   (BgclSample.first_shares BgclSample.batch) [] BgclSample.entry_world)
              = true)
    by (vm_compute; reflexivity).
  split; [exact F|].
  refine (proj1 (@getPasswords_bindings Reference.crypto _ _ _ _ _ _ _ _
                   (finished_result [] _ F) _)).
  split; constructor.
Defined.

Lemma handleRecoverKeys_output_witness :
  BgclSample.finished
    (BgclSample.recover_run true BgclSample.tampered_files "0" ["a"; "b"]%string) = true
  /\ Forall (fun r => r_xprv r = None <-> true = true)
       (MoreSamples.result_of []
          (BgclSample.recover_run true BgclSample.tampered_files "0" ["a"; "b"]%string)).
Proof.
  assert (F : BgclSample.finished
                (BgclSample.recover_run true BgclSample.tampered_files "0"
                   ["a"; "b"]%string) = true)
    by (vm_compute; reflexivity).
  split; [exact F|].
  refine (proj2 (proj2 (@handleRecoverKeys_output Reference.crypto true "keys.json" "0"
                          (BgclSample.recover_world BgclSample.tampered_files
                             ["a"; "b"]%string)
                          (BgclSample.tampered_key :: tail (BgclSample.keys_of BgclSample.batch))
                          _ _ _ _ _ (finished_result [] _ F)))).
  - discriminate.
  - discriminate.
  - vm_compute. reflexivity.
Defined.

Lemma decrypt_shares_outcome_witness :
  exists shares,
    @decrypt_shares Reference.crypto BgclSample.tampered_key BgclSample.bindings_a_b
    = Ok shares
    /\ length shares = length BgclSample.bindings_a_b.
Proof.
  apply (proj2 (proj2 (@decrypt_shares_outcome Reference.crypto BgclSample.tampered_key
                         BgclSample.bindings_a_b))).
  split.
  - vm_compute. repeat constructor; rewrite ?elem_of_cons, ?elem_of_nil; intuition lia.
  - repeat constructor; eexists; (split; [vm_compute; reflexivity|]);
      vm_compute; eexists; reflexivity.
Defined.

(** Two labels of the wallet [w2]: the later one is the answer. *)
Lemma labelForAddress_result_witness :
  Session.labelForAddress (Some "w2"%string) (Some MoreSamples.labels) "3A"
  = Ok (Some "cold"%string).
Proof.
  refine (proj1 (proj2 (proj2 (labelForAddress_result (Some "w2"%string)
                                 (Some MoreSamples.labels) "3A")))
            "w2"%string
            [ {| Session.walletId := "w1"; Session.label := "first" |};
              {| Session.walletId := "w2"; Session.label := "savings" |} ]
            {| Session.walletId := "w2"; Session.label := "cold" |}
            [ {| Session.walletId := "w3"; Session.label := "last" |} ]
            _ _ _ _ _ _).
  - reflexivity.
  - vm_compute. reflexivity.
  - simpl. lia.
  - reflexivity.
  - repeat constructor. discriminate.
  - discriminate.
Defined.

Lemma buildInputs_inputs_witness :
  @buildInputs RecoverySample.lib MoreSamples.ready None
  = (fst MoreSamples.inputs_built, Ok (Some MoreSamples.built_txInfo))
  /\ Forall (fun i =>
               exists w a,
                 wallets_dest MoreSamples.ready = Some w
                 /\ in_data i = inputData_of w a (in_unspent i))
       (inputs MoreSamples.built_txInfo).
Proof.
  assert (H : @buildInputs RecoverySample.lib MoreSamples.ready None
              = (fst MoreSamples.inputs_built, Ok (Some MoreSamples.built_txInfo)))
    by (vm_compute; reflexivity).
  split; [exact H|].
  eapply Forall_impl; [exact (@buildInputs_inputs RecoverySample.lib _ _ _ _ H)|].
  intros i (addrs & w & a & _ & Hw & _ & H1 & H2). exists w, a.
  split; [exact Hw|]. unfold inputData_of.
  destruct (w_isV1 w); [apply H1|apply H2]; reflexivity.
Defined.

(** * The password loop when shares are under one password *)

Section SharedPassword.
Context {C : Crypto}.

(** Sound bindings are no more than the shares. *)
Lemma sound_bindings_length shares ps :
  sound_bindings shares ps -> (length ps <= length shares)%nat.
Proof.
  intros [Hnd Hall].
  assert (H : shareIndex <$> ps ⊆+ seq 0%nat (length shares)).
  { apply NoDup_submseteq; [exact Hnd|].
    intros i Hi. apply list_elem_of_fmap in Hi as (b & -> & Hb).
    rewrite Forall_forall in Hall. destruct (Hall b Hb) as (share & Hs & _).
    apply elem_of_seq. apply lookup_lt_Some in Hs. lia. }
  apply submseteq_length in H. now rewrite length_fmap, length_seq in H.
Qed.

(** The loop cannot end once it holds more bindings than the slots
    filled so far leave room for: every slot still to fill takes at
    least one share more, and there are no more shares than
    [length shares]. *)
Lemma getPasswords_overfull fuel i mm shares ps w ps' w' :
  getPasswords fuel i (Some (JS.VNum mm)) shares ps w = Done ps' w' ->
  sound_bindings shares ps -> i <= mm ->
  Z.of_nat (length ps) + (mm - i) <= Z.of_nat (length shares).
Proof.
  intros H Hs Hle.
  destruct (getPasswords_sound _ _ _ _ _ _ _ _ H Hs) as (Hs' & _ & _ & Hlen).
  specialize (Hlen mm eq_refl Hle).
  apply sound_bindings_length in Hs'. lia.
Qed.

(** A loop that ends with a slot still to fill has seen an entry that
    added bindings, and went on from the next slot with all of them. *)
Lemma getPasswords_first_round n shares ps :
  forall fuel i w ps' w',
    getPasswords fuel i n shares ps w = Done ps' w' ->
    is_num n i = false ->
    exists pw fuel' w1,
      new_bindings pw 0 shares ps <> []
      /\ getPasswords fuel' (i + 1) n shares (ps ++ new_bindings pw 0 shares ps) w1
         = Done ps' w'.
Proof.
  induction fuel as [|fuel IH]; intros i w ps' w' H Hn; simpl in H; [discriminate|].
  rewrite Hn in H.
  apply bind_done in H as ([] & w1 & H1 & H).
  apply bind_done in H as (pw & w2 & H2 & H).
  inversion H2; subst w2 pw; clear H2.
  destruct (input w1 !! password_name i) as [[pw|z]|].
  - rewrite try_shares_spec in H.
    destruct (bool_decide (new_bindings pw 0 shares ps = [])) eqn:E; cbn [negb] in H.
    + apply bind_done in H as ([] & w3 & H3 & H). eapply IH; eauto.
    + apply bool_decide_eq_false in E. exists pw, fuel, w1. split; assumption.
  - apply bind_done in H as ([] & w3 & H3 & H). eapply IH; eauto.
  - apply bind_done in H as ([] & w3 & H3 & H). eapply IH; eauto.
Qed.

(** Entries that add no binding leave the loop waiting. *)
Lemma getPasswords_rejected n shares ps i pw :
  is_num n i = false ->
  pw <> ""%string ->
  new_bindings pw 0 shares ps = [] ->
  forall k fuel w,
    input w !! password_name i = None ->
    stdin w = repeat pw k ->
    getPasswords fuel i n shares ps w = Blocked.
Proof.
  intros Hn Hpw Hnone. induction k as [|k IH]; intros fuel w Hf Hs.
  - destruct fuel as [|fuel]; [reflexivity|]. simpl. rewrite Hn.
    unfold mbind at 1, M_bind at 1, getPassword. rewrite Hs. simpl.
    unfold mbind at 1, M_bind at 1, get_field at 1. rewrite Hf. simpl.
    unfold mbind at 1, M_bind at 1, promptPassword at 1. rewrite Hs. reflexivity.
  - destruct fuel as [|fuel]; [reflexivity|].
    rewrite (getPasswords_step fuel i n shares ps w pw (repeat pw k))
      by assumption.
    rewrite Hnone, bool_decide_eq_true_2 by reflexivity.
    apply IH; [exact Hf|reflexivity].
Qed.

End SharedPassword.

(** The stand-in cipher: a text decrypts under one password only. *)
Lemma strip_prefix_inv a : forall s b, strip_prefix a s = Some b -> s = a +:+ b.
Proof.
  induction a as [|c a IH]; intros s b H; simpl in H.
  - now inversion H.
  - destruct s as [|c' s]; [discriminate|].
    destruct (Ascii.eqb c c') eqn:E; [|discriminate].
    apply Ascii.eqb_eq in E. subst c'.
    change (String c s = String c (a +:+ b)). f_equal. now apply IH.
Qed.

Lemma reference_decrypt_one_password pw pw' c x :
  @Bgcl.decrypt crypto pw c = Some x -> pw' <> pw -> @Bgcl.decrypt crypto pw' c = None.
Proof.
  intros H Hne. destruct c as [|h body]; [discriminate|]. simpl in *.
  apply strip_prefix_inv in H. subst body. now apply strip_prefix_other.
Qed.

(** For the batch of two shares under [a]: an entry binds both shares or
    none. *)
Lemma two_of_two_bindings pw :
  @new_bindings crypto pw 0 (seedShares BgclSample.two_of_two_record) [] = []
  \/ length (@new_bindings crypto pw 0 (seedShares BgclSample.two_of_two_record) [])
     = 2%nat.
Proof.
  destruct (decide (pw = "a"%string)) as [->|Hne]; [right; vm_compute; reflexivity|].
  left.
  assert (Hall : Forall (fun c => is_Some (@Bgcl.decrypt crypto "a" c))
                   (seedShares BgclSample.two_of_two_record))
    by (repeat constructor; vm_compute; eauto).
  revert Hall. generalize (seedShares BgclSample.two_of_two_record).
  generalize 0%nat. intros i l. revert i.
  induction l as [|c l IH]; intros i Hall; [reflexivity|].
  apply Forall_cons in Hall as [[x Hx] Hall]. cbn [new_bindings].
  rewrite (reference_decrypt_one_password _ pw _ _ Hx Hne).
  rewrite bool_decide_eq_false_2 by (apply is_Some_None). cbn [andb]. now apply IH.
Qed.

(** No sequence of entries recovers the key of that batch. *)
Lemma two_of_two_never_recovers verifyonly lines :
  BgclSample.finished
    (BgclSample.recover_run verifyonly BgclSample.two_of_two_files "0" lines) = false.
Proof.
  destruct (BgclSample.recover_run verifyonly BgclSample.two_of_two_files "0" lines)
    as [recovered w'| |] eqn:H; [exfalso|reflexivity|reflexivity].
  unfold BgclSample.recover_run in H.
  assert (Hfile : files (BgclSample.recover_world BgclSample.two_of_two_files lines)
                    !! "keys.json"%string
                  = Some (KeysJson [BgclSample.two_of_two_record])) by reflexivity.
  rewrite (handleRecoverKeys_start verifyonly "keys.json" "0" _
             [BgclSample.two_of_two_record]) in H
    by (try discriminate; exact Hfile).
  assert (Hp : parse_indices "0" = [0]) by (vm_compute; reflexivity).
  assert (Hsel : select_positions 0 [BgclSample.two_of_two_record] [0]
                 = [BgclSample.two_of_two_record]) by (vm_compute; reflexivity).
  assert (Hm : m BgclSample.two_of_two_record = Some (JS.VNum 2)) by reflexivity.
  cbv zeta in H. rewrite Hp in H.
  change ((0 <? 0) || (default 0 (last [0]) >=? Z.of_nat (length [BgclSample.two_of_two_record])))%bool
    with false in H.
  cbv iota in H. rewrite Hsel, Hm in H.
  match type of H with
  | match ?g with _ => _ end = _ => destruct g as [ps w2| |] eqn:Hloop; try discriminate
  end.
  clear H.
  apply getPasswords_first_round in Hloop as (pw & fuel' & w1 & Hnb & Hloop);
    [|reflexivity].
  cbn [app] in Hloop.
  assert (Hsound : @sound_bindings crypto (seedShares BgclSample.two_of_two_record)
                     (@new_bindings crypto pw 0 (seedShares BgclSample.two_of_two_record) [])).
  { pose proof (@try_shares_sound crypto pw
                  (seedShares BgclSample.two_of_two_record) []) as Ht.
    rewrite try_shares_spec in Ht. apply Ht. split; constructor. }
  pose proof (getPasswords_overfull _ _ _ _ _ _ _ _ Hloop Hsound ltac:(lia)) as Hlen.
  destruct (two_of_two_bindings pw) as [E|E]; [contradiction|].
  rewrite E in Hlen.
  change (length (seedShares BgclSample.two_of_two_record)) with 2%nat in Hlen. lia.
Qed.

(** C7. The entry [a] on the batch that [handleSplitKeys] wrote with the
    password [a] for the shares 0 and 1 and [c] for share 2, two shares
    needed: [shares.forEach] tries every share and has no way out at the
    first success, so the one entry is bound to the share indices 0 and
    1, and the loop moves on by one slot with two bindings made. An
    entered password is therefore not bound to at most one share index.
    On the batch of two shares, both needed and both under [a], this
    leaves no way to recover the key, whatever is entered. *)
Theorem one_entry_binds_two_shares :
  BgclSample.finished BgclSample.batch_shared_password = true
  /\ @try_shares crypto "a" 0
       (BgclSample.first_shares BgclSample.batch_shared_password) [] false
     = (BgclSample.bindings_a_a, true)
  /\ (forall fuel rest,
         @getPasswords crypto (S fuel) 0 (Some (JS.VNum 2))
           (BgclSample.first_shares BgclSample.batch_shared_password) []
           (BgclSample.recover_world BgclSample.shared_files ("a"%string :: rest))
         = @getPasswords crypto fuel 1 (Some (JS.VNum 2))
             (BgclSample.first_shares BgclSample.batch_shared_password)
             BgclSample.bindings_a_a
             (with_input
                (BgclSample.recover_world BgclSample.shared_files ("a"%string :: rest))
                (<[password_name 0 := JS.VStr "a"]> ∅) rest))
  /\ ~ binds_at_most_one
  /\ (forall verifyonly lines,
         BgclSample.finished
           (BgclSample.recover_run verifyonly BgclSample.two_of_two_files "0" lines)
         = false).
Proof.
  assert (Hnb : @new_bindings crypto "a" 0
                  (BgclSample.first_shares BgclSample.batch_shared_password) []
                = BgclSample.bindings_a_a) by (vm_compute; reflexivity).
  split; [vm_compute; reflexivity|].
  split; [rewrite try_shares_spec, Hnb; reflexivity|].
  split; [|split; [|apply two_of_two_never_recovers]].
  - intros fuel rest.
    rewrite (getPasswords_step fuel 0 _ _ _ _ "a" rest);
      [|reflexivity|reflexivity|reflexivity|discriminate].
    rewrite Hnb. reflexivity.
  - intros H.
    specialize (H crypto "a"%string
                  (BgclSample.first_shares BgclSample.batch_shared_password) []).
    rewrite try_shares_spec, Hnb in H. simpl in H. lia.
Qed.

Lemma getPasswords_no_entry {C : Crypto} fuel i n shares ps w :
  is_num n i = false ->
  input w !! password_name i = None ->
  stdin w = [] ->
  getPasswords fuel i n shares ps w = Blocked.
Proof.
  intros Hn Hf Hs. destruct fuel as [|fuel]; [reflexivity|]. simpl. rewrite Hn.
  unfold mbind at 1, M_bind at 1, getPassword. rewrite Hs. simpl.
  unfold mbind at 1, M_bind at 1, get_field at 1. rewrite Hf. simpl.
  unfold mbind at 1, M_bind at 1, promptPassword at 1. rewrite Hs. reflexivity.
Qed.

(** C6. The batch that [handleSplitKeys] wrote with the password [a]
    for the shares 0 and 1 and [c] for share 2, two shares needed: [a]
    is the password of share 0 and of share 1, yet entering it for both
    does not recover the key. The first entry is bound to both shares
    and fills one slot; every further [a] is turned down, however often
    it is entered, and the command is left waiting. Only [c] leads on.
    On the batch of two shares, both needed and both under [a], nothing
    that is entered recovers the key. *)
Theorem shared_password_blocks_recovery :
  BgclSample.finished BgclSample.batch_shared_password = true
  /\ Forall (fun c => is_Some (@Bgcl.decrypt crypto "a" c))
       (take 2 (BgclSample.first_shares BgclSample.batch_shared_password))
  /\ (forall k,
         BgclSample.outcome_of
           (BgclSample.recover_run false BgclSample.shared_files "0" (repeat "a"%string k))
         = None)
  /\ BgclSample.finished
       (BgclSample.recover_run false BgclSample.shared_files "0" ["a"; "c"]%string)
     = true
  /\ (forall verifyonly lines,
         BgclSample.finished
           (BgclSample.recover_run verifyonly BgclSample.two_of_two_files "0" lines)
         = false).
Proof.
  split; [vm_compute; reflexivity|].
  split; [repeat constructor; vm_compute; eauto|].
  split; [|split; [vm_compute; reflexivity|apply two_of_two_never_recovers]].
  intros k. unfold BgclSample.recover_run.
  assert (Hfile : files (BgclSample.recover_world BgclSample.shared_files
                           (repeat "a"%string k)) !! "keys.json"%string
                  = Some (KeysJson [BgclSample.shared_record])) by reflexivity.
  rewrite (handleRecoverKeys_start false "keys.json" "0" _ [BgclSample.shared_record])
    by (try discriminate; exact Hfile).
  assert (Hp : parse_indices "0" = [0]) by (vm_compute; reflexivity).
  assert (Hsel : select_positions 0 [BgclSample.shared_record] [0]
                 = [BgclSample.shared_record]) by (vm_compute; reflexivity).
  assert (Hm : m BgclSample.shared_record = Some (JS.VNum 2)) by reflexivity.
  cbv zeta. rewrite Hp.
  change ((0 <? 0) || (default 0 (last [0])
                       >=? Z.of_nat (length [BgclSample.shared_record])))%bool
    with false.
  cbv iota. rewrite Hsel, Hm.
  assert (Hnb : @new_bindings crypto "a" 0 (seedShares BgclSample.shared_record) []
                = BgclSample.bindings_a_a) by (vm_compute; reflexivity).
  assert (Hno : @new_bindings crypto "a" 0 (seedShares BgclSample.shared_record)
                  BgclSample.bindings_a_a = []) by (vm_compute; reflexivity).
  destruct k as [|k].
  - rewrite getPasswords_no_entry; reflexivity.
  - cbn [stdin BgclSample.recover_world world length].
    rewrite (getPasswords_step _ 0 _ _ _ _ "a" (repeat "a"%string k));
      [|reflexivity|reflexivity|reflexivity|discriminate].
    rewrite Hnb. rewrite bool_decide_eq_false_2 by discriminate. cbn [app].
    assert (Ha : "a"%string <> ""%string) by discriminate.
    rewrite (getPasswords_rejected (Some (JS.VNum 2)) _ _ 1 "a" eq_refl Ha Hno k);
      reflexivity.
Qed.
